(** * CogniFlow: the adaptive-learning engines, embedded and verified

    The development follows the TypeScript sources of the repository:
    - [knowledge-graph-engine.ts]: edge weights, Louvain clustering, graph
      builder, and the mastery engine (BKT update, memory stability);
    - [lms-store.ts]: behavioural analyzer (cheating score, Socratic trigger)
      and the IRT ability estimator;
    - the galaxy page's own BKT update ([bktUpdate]).

    Strings are ASCII strings.
    Numbers.  A JavaScript [number] is embedded as an exact rational ([Q]):
    sums, products and comparisons are those of the source, without rounding.
    A quotient whose divisor is zero (Infinity or NaN in JavaScript) is not a
    rational; the embedding reports it as the fault [DivisionByZero], so that
    "no division by zero" is a statement about the result being [Ok].
    Reading a property of [undefined] is the fault [TypeError].
    [Math.exp], [Math.sqrt] and [Math.PI] are not rational functions: they are
    taken from a [MathLib] instance, and every theorem holds for each instance.
    [Date.now()] is an explicit clock reading and [Math.random()] an
    explicit value.

    Domain.  The embedding follows the source on finite numbers.  A
    statement that would not survive the rounding or the overflow of
    doubles carries the domain on which it is made as a hypothesis
    ([finiteNumber], [moderate], [itemInDomain]) or keeps a margin from the
    threshold it compares with; a statement about the prerequisite table
    excludes the two lower-case keys every JavaScript object inherits
    ([ownKey]). *)

From Stdlib Require Import QArith Qround Qminmax Qabs Lqa Lia Ascii.
From stdpp Require Import base option list strings gmap.

Local Open Scope Q_scope.

(** ** Outcomes of a computation *)

Inductive outcome (A : Type) : Type :=
| Ok (a : A)
| DivisionByZero
| TypeError.
Arguments Ok {A} a.
Arguments DivisionByZero {A}.
Arguments TypeError {A}.

#[global] Instance outcome_ret : MRet outcome := fun A a => Ok a.
#[global] Instance outcome_bind : MBind outcome := fun A B f m =>
  match m with
  | Ok a => f a
  | DivisionByZero => DivisionByZero
  | TypeError => TypeError
  end.
#[global] Instance outcome_fmap : FMap outcome := fun A B f m =>
  match m with
  | Ok a => Ok (f a)
  | DivisionByZero => DivisionByZero
  | TypeError => TypeError
  end.

Definition is_Ok {A} (m : outcome A) : Prop := exists a, m = Ok a.

(** [xs.map(f)] when [f] can fault: left to right, first fault wins. *)
Fixpoint mapO {A B} (f : A -> outcome B) (xs : list A) : outcome (list B) :=
  match xs with
  | [] => Ok []
  | x :: xs' => y ← f x; ys ← mapO f xs'; Ok (y :: ys)
  end.

(** [xs.forEach] / [for .. of] threading a state through a faulting body. *)
Fixpoint foldO {A S} (f : S -> A -> outcome S) (s : S) (xs : list A) : outcome S :=
  match xs with
  | [] => Ok s
  | x :: xs' => s' ← f s x; foldO f s' xs'
  end.

(** ** JavaScript numbers *)

Module Js.

(** [x / y] *)
Definition div (x y : Q) : outcome Q :=
  if Qeq_bool y 0 then DivisionByZero else Ok (x / y).

(** [x === y] on numbers *)
Definition eqb (x y : Q) : bool := Qeq_bool x y.

(** [x < y], [x <= y] on numbers *)
Definition ltb (x y : Q) : bool := negb (Qle_bool y x).
Definition leb (x y : Q) : bool := Qle_bool x y.

(** [x || y] on numbers: [y] when [x] is falsy, that is zero *)
Definition or (x y : Q) : Q := if Qeq_bool x 0 then y else x.

(** [Math.min], [Math.max], [Math.floor] *)
Definition min (x y : Q) : Q := Qmin x y.
Definition max (x y : Q) : Q := Qmax x y.
Definition floor (x : Q) : Z := Qfloor x.

(** [Math.round]: the nearest integer, halves going up *)
Definition round (x : Q) : Z := Qfloor (x + 0.5).

(** [xs.slice(-n)]: the last [n] elements, all of them when there are fewer *)
Definition lastN {A} (n : nat) (xs : list A) : list A :=
  drop (length xs - n) xs.

(** [parseFloat(x.toFixed(digits))]: [x] rounded to [digits] decimals,
    halves going away from zero *)
Definition toFixed (digits : nat) (x : Q) : Q :=
  let scale := inject_Z (10 ^ Z.of_nat digits) in
  if Qle_bool 0 x then inject_Z (round (x * scale)) / scale
  else - (inject_Z (round (- x * scale)) / scale).

(** [xs.length] as a number *)
Definition len {A} (xs : list A) : Q := inject_Z (Z.of_nat (length xs)).

(** [s.toLowerCase()] and [s.toUpperCase()] on ASCII text *)
Definition lower_ascii (c : ascii) : ascii :=
  let n := nat_of_ascii c in
  if (65 <=? n)%nat && (n <=? 90)%nat then ascii_of_nat (n + 32) else c.
Definition upper_ascii (c : ascii) : ascii :=
  let n := nat_of_ascii c in
  if (97 <=? n)%nat && (n <=? 122)%nat then ascii_of_nat (n - 32) else c.
Fixpoint toLowerCase (s : string) : string :=
  match s with
  | EmptyString => EmptyString
  | String c s' => String (lower_ascii c) (toLowerCase s')
  end.
Fixpoint toUpperCase (s : string) : string :=
  match s with
  | EmptyString => EmptyString
  | String c s' => String (upper_ascii c) (toUpperCase s')
  end.

End Js.

(** ** The numeric library of the host *)

Class MathLib := {
  Math_exp : Q -> Q;
  Math_sqrt : Q -> Q;
  Math_PI : Q;
  Math_exp_nonneg : forall x, 0 <= Math_exp x;
  Math_sqrt_pos : forall x, 0 < x -> 0 < Math_sqrt x;
  Math_PI_pos : 0 < Math_PI
}.

(** ** Insertion-ordered maps and sets ([Map], [Set]) *)

Module JsMap.
Section Ops.
Context {K V : Type} `{EqDecision K}.

Definition t := list (K * V).

Fixpoint get (m : t) (k : K) : option V :=
  match m with
  | [] => None
  | (k', v) :: m' => if decide (k' = k) then Some v else get m' k
  end.

Definition has (m : t) (k : K) : bool := bool_decide (is_Some (get m k)).

(** [m.set(k, v)]: an existing key keeps its place, a new one goes last. *)
Fixpoint set (m : t) (k : K) (v : V) : t :=
  match m with
  | [] => [(k, v)]
  | (k', v') :: m' =>
      if decide (k' = k) then (k', v) :: m' else (k', v') :: set m' k v
  end.

Definition keys (m : t) : list K := m.*1.
Definition values (m : t) : list V := m.*2.

End Ops.
Arguments t : clear implicits.
End JsMap.

Module JsSet.
Section Ops.
Context {A : Type} `{EqDecision A}.

Definition t := list A.

Definition has (s : t) (x : A) : bool := bool_decide (x ∈ s).

(** [s.add(x)] *)
Definition add (s : t) (x : A) : t := if has s x then s else s ++ [x].

(** [new Set(xs)] *)
Definition of_list (xs : list A) : t := foldl add [] xs.

Definition size (s : t) : nat := length s.

End Ops.
Arguments t : clear implicits.
End JsSet.

(** ** Mastery engine (second part of [knowledge-graph-engine.ts]) *)

Module MasteryEngine.

Definition P_INIT : Q := 0.3.
Definition P_LEARN : Q := 0.09.
Definition P_GUESS : Q := 0.2.
Definition P_SLIP : Q := 0.1.

Record MasteryState := {
  pL : Q;
  stability : Q;
  reviewCount : Q;
  lastReviewMs : Q
}.

Definition updateMastery (prevPL : Q) (correct : bool) : outcome Q :=
  let pCorrect := prevPL * (1 - P_SLIP) + (1 - prevPL) * P_GUESS in
  let pWrong := prevPL * P_SLIP + (1 - prevPL) * (1 - P_GUESS) in
  pLGivenObs ←
    (if correct
     then Js.div (prevPL * (1 - P_SLIP)) (Js.or pCorrect 1e-9)
     else Js.div (prevPL * P_SLIP) (Js.or pWrong 1e-9));
  let pLNext := pLGivenObs + (1 - pLGivenObs) * P_LEARN in
  Ok (Js.min 0.9999 (Js.max 0.0001 pLNext)).

Record ConfidenceParams := {
  accuracy : Q;
  normalizedResponseTime : Q;
  consistency : Q;
  guessProbability : Q
}.

Definition confidenceScore (params : ConfidenceParams) : Q :=
  let speed := 1 - Js.min 1 (normalizedResponseTime params) in
  0.4 * accuracy params + 0.2 * speed + 0.25 * consistency params
  + 0.15 * (1 - guessProbability params).

Definition masteryLabel (pL : Q) : string :=
  if Js.leb 0.95 pL then "Mastered"
  else if Js.leb 0.75 pL then "Proficient"
  else if Js.leb 0.5 pL then "Learning"
  else if Js.leb 0.3 pL then "Developing"
  else "New".

Section Host.
Context `{MathLib}.

(** [difficulty] is the third parameter (default 0.5); the body does not
    read it. *)
Definition forgettingDecay (state : MasteryState)
    (daysSinceReview difficulty : Q) : outcome Q :=
  let difficultyFactor := 1 + (1 - pL state) in
  let t := Js.max 0 daysSinceReview in
  q ← Js.div (- t) (stability state * difficultyFactor);
  Ok (Math_exp q).

Definition effectiveMastery (state : MasteryState) (daysSinceReview : Q)
    : outcome Q :=
  R ← forgettingDecay state daysSinceReview 0.5;
  Ok (Js.max 0 (pL state * R)).

(** [now] is the value [Date.now()] returns during the call. *)
Definition updateStability (now : Q) (state : MasteryState) (correct : bool)
    : MasteryState :=
  if negb correct then state
  else
    let newStability := stability state * Math_exp (0.1 * pL state) in
    {| pL := pL state;
       stability := Js.min newStability 365;
       reviewCount := reviewCount state + 1;
       lastReviewMs := now |}.

Definition createMasteryState (now : Q) : MasteryState :=
  {| pL := P_INIT; stability := 1; reviewCount := 0; lastReviewMs := now |}.

End Host.

End MasteryEngine.

(** ** The galaxy page's BKT update (unnamed source part 0) *)

Module Galaxy.

Definition BKT_P_LEARN : Q := 0.3.
Definition BKT_P_GUESS : Q := 0.2.
Definition BKT_P_SLIP : Q := 0.1.
Definition BKT_P_INIT : Q := 0.1.

Definition bktUpdate (pL : Q) (isCorrect : bool) : outcome Q :=
  let pCorrect := pL * (1 - BKT_P_SLIP) + (1 - pL) * BKT_P_GUESS in
  let pWrong := pL * BKT_P_SLIP + (1 - pL) * (1 - BKT_P_GUESS) in
  pLGivenObs ←
    (if isCorrect
     then Js.div (pL * (1 - BKT_P_SLIP)) pCorrect
     else Js.div (pL * BKT_P_SLIP) pWrong);
  Ok (pLGivenObs + (1 - pLGivenObs) * BKT_P_LEARN).

(** [let pL = BKT_P_INIT; for (const r of responses) pL = bktUpdate(pL,
    r.isCorrect);] in [buildGraphFromHistory], on the answers of one concept
    in time order. *)
Definition replayAnswers (answers : list bool) : outcome Q :=
  foldO bktUpdate BKT_P_INIT answers.

End Galaxy.

(** ** Knowledge graph engine (first part of [knowledge-graph-engine.ts]) *)

Module SessionLog.
Record t := {
  concept : string;
  category : string;
  isCorrect : bool;
  responseTimeMs : Q;
  masteryPL : Q;
  timestamp : Q
}.
End SessionLog.

Inductive EdgeType := prerequisite | similar | application.

Module GraphEdge.
Record t := {
  source : string;
  target : string;
  weight : Q;
  prerequisiteStrength : Q;
  coOccurrenceRate : Q;
  confusionCorrelation : Q;
  type : EdgeType
}.
End GraphEdge.

Module GraphNode.
Record t := {
  id : string;
  name : string;
  category : string;
  masteryPL : Q;
  effectiveMastery : Q;
  community : nat;
  degree : nat;
  color : string;
  size : Q
}.
End GraphNode.

(** The edge shape [{ source, target, weight }] taken by [louvainCluster]. *)
Module Link.
Record t := { source : string; target : string; weight : Q }.
End Link.

Module KnowledgeGraphEngine.

Definition ALPHA : Q := 0.5.
Definition BETA : Q := 0.3.
Definition GAMMA : Q := 0.2.

(** The table is the finite map of its own entries; the properties every
    JavaScript object inherits (a concept named "constructor" or "__proto__")
    are not part of it. *)
Definition PREREQUISITE_STRENGTH : gmap string (gmap string Q) :=
  list_to_map [
    ("limits"%string,
      list_to_map [("derivatives"%string, 0.95); ("continuity"%string, 0.85)]);
    ("derivatives"%string,
      list_to_map [("integration"%string, 0.90);
                   ("differential equations"%string, 0.80)]);
    ("integration"%string,
      list_to_map [("differential equations"%string, 0.85)]);
    ("algebra"%string,
      list_to_map [("calculus"%string, 0.80); ("linear algebra"%string, 0.75)]);
    ("calculus"%string,
      list_to_map [("differential equations"%string, 0.80);
                   ("statistics"%string, 0.60)]);
    ("linear algebra"%string,
      list_to_map [("statistics"%string, 0.70); ("algorithms"%string, 0.55)]);
    ("statistics"%string,
      list_to_map [("machine learning"%string, 0.80);
                   ("probability"%string, 0.85)]);
    ("probability"%string,
      list_to_map [("statistics"%string, 0.75)]);
    ("kinematics"%string,
      list_to_map [("newton's laws"%string, 0.90); ("energy"%string, 0.70)]);
    ("newton's laws"%string,
      list_to_map [("energy"%string, 0.85); ("momentum"%string, 0.80);
                   ("waves"%string, 0.60)]);
    ("energy"%string,
      list_to_map [("thermodynamics"%string, 0.70); ("waves"%string, 0.65)]);
    ("waves"%string,
      list_to_map [("optics"%string, 0.80); ("electromagnetism"%string, 0.60)]);
    ("data structures"%string,
      list_to_map [("algorithms"%string, 0.90); ("graph theory"%string, 0.75)]);
    ("algorithms"%string,
      list_to_map [("graph theory"%string, 0.70);
                   ("machine learning"%string, 0.60)]);
    ("graph theory"%string,
      list_to_map [("algorithms"%string, 0.65)])
  ].

(** [PREREQUISITE_STRENGTH[a]?.[b] ?? PREREQUISITE_STRENGTH[b]?.[a] ?? 0] *)
Definition prerequisiteStrength (conceptA conceptB : string) : Q :=
  let a := Js.toLowerCase conceptA in
  let b := Js.toLowerCase conceptB in
  match PREREQUISITE_STRENGTH !! a ≫= (.!! b) with
  | Some v => v
  | None => default 0 (PREREQUISITE_STRENGTH !! b ≫= (.!! a))
  end.

(** [Math.floor(log.timestamp / 86400000)] *)
Definition dayOf (log : SessionLog.t) : Z :=
  Js.floor (SessionLog.timestamp log / 86400000).

(** The [sessions] map of [coOccurrenceRate]: day -> set of concepts. *)
Definition sessionsOf (logs : list SessionLog.t) : JsMap.t Z (JsSet.t string) :=
  foldl (fun sessions log =>
           let day := dayOf log in
           let sessions :=
             if JsMap.has sessions day then sessions
             else JsMap.set sessions day [] in
           JsMap.set sessions day
             (JsSet.add (default [] (JsMap.get sessions day))
                        (Js.toLowerCase (SessionLog.concept log))))
        [] logs.

(** The counting loop of [coOccurrenceRate]: [(coOccur, eitherOccur)]. *)
Definition countOccurrences (a b : string) (sessions : list (JsSet.t string))
    : nat * nat :=
  foldl (fun '(coOccur, eitherOccur) concepts =>
           let hasA := JsSet.has concepts a in
           let hasB := JsSet.has concepts b in
           if hasA || hasB
           then (if hasA && hasB then S coOccur else coOccur, S eitherOccur)
           else (coOccur, eitherOccur))
        (0%nat, 0%nat) sessions.

Definition coOccurrenceRate (conceptA conceptB : string)
    (logs : list SessionLog.t) : outcome Q :=
  let sessions := sessionsOf logs in
  let a := Js.toLowerCase conceptA in
  let b := Js.toLowerCase conceptB in
  let '(coOccur, eitherOccur) := countOccurrences a b (JsMap.values sessions) in
  if (0 <? eitherOccur)%nat
  then Js.div (inject_Z (Z.of_nat coOccur)) (inject_Z (Z.of_nat eitherOccur))
  else Ok 0.

(** [l.concept.toLowerCase() === c.toLowerCase() && !l.isCorrect] *)
Definition wrongOn (c : string) (l : SessionLog.t) : Prop :=
  Js.toLowerCase (SessionLog.concept l) = Js.toLowerCase c
  ∧ SessionLog.isCorrect l = false.

#[global] Instance wrongOn_dec c l : Decision (wrongOn c l).
Proof. unfold wrongOn. apply _. Defined.

Definition confusionCorrelation (conceptA conceptB : string)
    (logs : list SessionLog.t) : outcome Q :=
  let wrongA := filter (wrongOn conceptA) logs in
  if (length wrongA =? 0)%nat then Ok 0
  else
    let wrongASessions := JsSet.of_list (dayOf <$> wrongA) in
    let wrongBInSameSession :=
      filter (fun l => wrongOn conceptB l
                       ∧ JsSet.has wrongASessions (dayOf l) = true) logs in
    Js.div (Js.len wrongBInSameSession) (Js.len wrongA).

Definition calculateEdgeWeight (conceptA conceptB : string)
    (logs : list SessionLog.t) : outcome Q :=
  let prereq := prerequisiteStrength conceptA conceptB in
  coOccur ← coOccurrenceRate conceptA conceptB logs;
  confusion ← confusionCorrelation conceptA conceptB logs;
  Ok (ALPHA * prereq + BETA * coOccur + GAMMA * confusion).

(** *** Louvain community detection *)

(** A community id as stored in [communities]: a number, or [undefined]
    (written [None]) when a neighbour is not one of the nodes. *)
Definition com : Type := option nat.

(** [communities.get(n)!] *)
Definition comOf (communities : JsMap.t string com) (n : string) : com :=
  mjoin (JsMap.get communities n).

(** [nodes.forEach((n, i) => communities.set(n, i))] *)
Definition initCommunities (nodes : list string) : JsMap.t string com :=
  foldl (fun m '(i, n) => JsMap.set m n (Some i)) [] (imap pair nodes).

Definition totalWeightOf (edges : list Link.t) : Q :=
  foldl (fun s e => s + Link.weight e) 0 edges.

(** [adj.get(from)?.set(to, (adj.get(from)?.get(to) ?? 0) + w)] *)
Definition addAdj (adj : JsMap.t string (JsMap.t string Q))
    (from to : string) (w : Q) : JsMap.t string (JsMap.t string Q) :=
  match JsMap.get adj from with
  | Some row =>
      JsMap.set adj from (JsMap.set row to (default 0 (JsMap.get row to) + w))
  | None => adj
  end.

Definition buildAdj (nodes : list string) (edges : list Link.t)
    : JsMap.t string (JsMap.t string Q) :=
  let adj := foldl (fun adj n => JsMap.set adj n []) [] nodes in
  foldl (fun adj e =>
           let adj := addAdj adj (Link.source e) (Link.target e) (Link.weight e) in
           addAdj adj (Link.target e) (Link.source e) (Link.weight e))
        adj edges.

Definition buildDegree (nodes : list string)
    (adj : JsMap.t string (JsMap.t string Q)) : JsMap.t string Q :=
  foldl (fun degree n =>
           let d := foldl Qplus 0 (JsMap.values (default [] (JsMap.get adj n))) in
           JsMap.set degree n d)
        [] nodes.

Section Greedy.
Variable totalWeight : Q.
Variable nodes : list string.
Variable adj : JsMap.t string (JsMap.t string Q).
Variable degree : JsMap.t string Q.

Let m2 : Q := 2 * totalWeight.

Definition weightToComOf (communities : JsMap.t string com) (node : string)
    : JsMap.t com Q :=
  foldl (fun weightToCom '(neighbor, w) =>
           let nCom := comOf communities neighbor in
           JsMap.set weightToCom nCom (default 0 (JsMap.get weightToCom nCom) + w))
        [] (default [] (JsMap.get adj node)).

Definition degSumInComOf (communities : JsMap.t string com) : JsMap.t com Q :=
  foldl (fun degSumInCom n =>
           let c := comOf communities n in
           JsMap.set degSumInCom c
             (default 0 (JsMap.get degSumInCom c)
              + default 0 (JsMap.get degree n)))
        [] nodes.

(** The body of [weightToCom.forEach((kIinC, com) => ...)]. *)
Definition considerCom (currentCom : com) (kI : Q) (degSumInCom : JsMap.t com Q)
    (best : Q * com) (entry : com * Q) : outcome (Q * com) :=
  let '(bestGain, bestCom) := best in
  let '(c, kIinC) := entry in
  let sigma := default 0 (JsMap.get degSumInCom c)
               - (if decide (c = currentCom) then kI else 0) in
  x ← Js.div kIinC totalWeight;
  y ← Js.div (sigma * kI) (m2 * m2);
  let gain := x - y in
  if Js.ltb bestGain gain then Ok (gain, c) else Ok (bestGain, bestCom).

(** The body of [for (const node of nodes)]; the state is
    [(communities, improved)]. *)
Definition moveNode (st : JsMap.t string com * bool) (node : string)
    : outcome (JsMap.t string com * bool) :=
  let '(communities, improved) := st in
  let currentCom := comOf communities node in
  let kI := default 0 (JsMap.get degree node) in
  let weightToCom := weightToComOf communities node in
  let degSumInCom := degSumInComOf communities in
  best ← foldO (considerCom currentCom kI degSumInCom) (0, currentCom) weightToCom;
  let bestCom := best.2 in
  if decide (bestCom = currentCom) then Ok (communities, improved)
  else Ok (JsMap.set communities node bestCom, true).

(** One pass of the [while] body: [improved = false; for (...) {...}]. *)
Definition sweep (communities : JsMap.t string com)
    : outcome (JsMap.t string com * bool) :=
  foldO moveNode (communities, false) nodes.

(** [while (improved && maxIterations-- > 0) { ... }].  The second component
    of the result counts the passes that were run. *)
Fixpoint greedyLoop (maxIterations : nat) (improved : bool)
    (communities : JsMap.t string com) : outcome (JsMap.t string com * nat) :=
  if improved then
    match maxIterations with
    | O => Ok (communities, O)
    | S remaining =>
        '(communities', improved') ← sweep communities;
        '(final, passes) ← greedyLoop remaining improved' communities';
        Ok (final, S passes)
    end
  else Ok (communities, O).

End Greedy.

(** The body of [communities.forEach((c, n) => { if (!idMap.has(c))
    idMap.set(c, nextId++); communities.set(n, idMap.get(c)!); })]; the state
    is [(communities, idMap, nextId)]. *)
Definition renumberStep (st : JsMap.t string com * JsMap.t com nat * nat)
    (entry : string * com) : JsMap.t string com * JsMap.t com nat * nat :=
  let '(communities, idMap, nextId) := st in
  let '(n, c) := entry in
  let '(idMap, nextId) :=
    if JsMap.has idMap c then (idMap, nextId)
    else (JsMap.set idMap c nextId, S nextId) in
  (JsMap.set communities n (JsMap.get idMap c), idMap, nextId).

Definition renumber (communities : JsMap.t string com) : JsMap.t string com :=
  (foldl renumberStep (communities, [], O) communities).1.1.

(** [louvainCluster], returning also the number of passes of its loop. *)
Definition louvainRun (nodes : list string) (edges : list Link.t)
    : outcome (JsMap.t string com * nat) :=
  let communities := initCommunities nodes in
  let totalWeight := totalWeightOf edges in
  if Js.eqb totalWeight 0 then Ok (communities, O)
  else
    let adj := buildAdj nodes edges in
    let degree := buildDegree nodes adj in
    '(communities, passes) ←
      greedyLoop totalWeight nodes adj degree 20 true communities;
    Ok (renumber communities, passes).

Definition louvainCluster (nodes : list string) (edges : list Link.t)
    : outcome (JsMap.t string com) :=
  fst <$> louvainRun nodes edges.

(** *** Node state and graph builder *)

Record NodeState := { ns_color : string; ns_size : Q; ns_label : string }.

Definition getNodeState (masteryPL cognitiveLoad forgettingRisk : Q) : NodeState :=
  let effective := masteryPL * (1 - forgettingRisk * 0.4) in
  let '(color, label) :=
    if Js.leb 0.9 effective then ("#00ff88"%string, "Mastered"%string)
    else if Js.leb 0.7 effective then ("#ffff00"%string, "Proficient"%string)
    else if Js.ltb 0.8 cognitiveLoad then ("#ff4400"%string, "Overloaded"%string)
    else if Js.ltb 0.5 forgettingRisk then ("#ff8800"%string, "Fading"%string)
    else if Js.leb 0.5 effective then ("#44aaff"%string, "Learning"%string)
    else ("#cc44ff"%string, "Developing"%string) in
  let size := 3 + masteryPL * 8 + cognitiveLoad * 2 in
  {| ns_color := color; ns_size := size; ns_label := label |}.

Record Graph := { nodes : list GraphNode.t; edges : list GraphEdge.t }.

(** The [conceptMap] of [buildGraph]: lower-cased concept -> its logs. *)
Definition conceptMapOf (logs : list SessionLog.t)
    : JsMap.t string (list SessionLog.t) :=
  foldl (fun conceptMap log =>
           let key := Js.toLowerCase (SessionLog.concept log) in
           JsMap.set conceptMap key
             (default [] (JsMap.get conceptMap key) ++ [log]))
        [] logs.

(** The index pairs [i < j] in the order of the two nested [for] loops. *)
Fixpoint conceptPairs (conceptIds : list string) : list (string * string) :=
  match conceptIds with
  | [] => []
  | a :: rest => (pair a <$> rest) ++ conceptPairs rest
  end.

Definition edgeTypeOf (prereq : Q) : EdgeType :=
  if Js.ltb 0.7 prereq then prerequisite
  else if Js.ltb 0.3 prereq then application
  else similar.

(** The body of the inner [for] loop; the state is [(edges, edgeSet)]. *)
Definition addEdge (logs : list SessionLog.t)
    (st : list GraphEdge.t * JsSet.t string) (ab : string * string)
    : outcome (list GraphEdge.t * JsSet.t string) :=
  let '(edges, edgeSet) := st in
  let '(a, b) := ab in
  w ← calculateEdgeWeight a b logs;
  if Js.ltb w 0.05 then Ok (edges, edgeSet)
  else
    let key := (a +:+ "|" +:+ b)%string in
    if JsSet.has edgeSet key then Ok (edges, edgeSet)
    else
      let edgeSet := JsSet.add edgeSet key in
      let prereq := prerequisiteStrength a b in
      coOccur ← coOccurrenceRate a b logs;
      confusion ← confusionCorrelation a b logs;
      Ok (edges ++ [ {| GraphEdge.source := a;
                        GraphEdge.target := b;
                        GraphEdge.weight := w;
                        GraphEdge.prerequisiteStrength := prereq;
                        GraphEdge.coOccurrenceRate := coOccur;
                        GraphEdge.confusionCorrelation := confusion;
                        GraphEdge.type := edgeTypeOf prereq |} ],
          edgeSet).

Definition buildEdges (logs : list SessionLog.t) (conceptIds : list string)
    : outcome (list GraphEdge.t) :=
  fst <$> foldO (addEdge logs) ([], []) (conceptPairs conceptIds).

Definition linkOf (e : GraphEdge.t) : Link.t :=
  {| Link.source := GraphEdge.source e;
     Link.target := GraphEdge.target e;
     Link.weight := GraphEdge.weight e |}.

Definition degreeMapOf (edges : list GraphEdge.t) : JsMap.t string nat :=
  foldl (fun degreeMap e =>
           let degreeMap :=
             JsMap.set degreeMap (GraphEdge.source e)
               (default O (JsMap.get degreeMap (GraphEdge.source e)) + 1)%nat in
           JsMap.set degreeMap (GraphEdge.target e)
             (default O (JsMap.get degreeMap (GraphEdge.target e)) + 1)%nat)
        [] edges.

(** [id.charAt(0).toUpperCase() + id.slice(1)] *)
Definition capitalize (id : string) : string :=
  match id with
  | EmptyString => EmptyString
  | String c rest => String (Js.upper_ascii c) rest
  end.

Section Host.
Context `{MathLib}.

(** The callback of [conceptIds.map(id => ...)]; [now] is the value of
    [Date.now()] read while this node is built. *)
Definition buildNode (conceptMap : JsMap.t string (list SessionLog.t))
    (communities : JsMap.t string com) (degreeMap : JsMap.t string nat)
    (now : Q) (id : string) : outcome GraphNode.t :=
  match JsMap.get conceptMap id with
  | None => TypeError
  | Some conceptLogs =>
      avg ← Js.div (foldl (fun s l => s + SessionLog.masteryPL l) 0 conceptLogs)
                   (Js.len conceptLogs);
      match last conceptLogs with
      | None => TypeError
      | Some latestLog =>
          let daysSince := (now - SessionLog.timestamp latestLog) / 86400000 in
          decay ← Js.div (- daysSince) (Js.max 1 (Js.len conceptLogs));
          let forgetting := 1 - Math_exp decay in
          load ← Js.div (foldl (fun s l => s + SessionLog.responseTimeMs l)
                               0 conceptLogs)
                        (Js.len conceptLogs * 60000);
          let cogLoad := Js.min 1 load in
          let state := getNodeState avg cogLoad forgetting in
          Ok {| GraphNode.id := id;
                GraphNode.name := capitalize id;
                GraphNode.category := SessionLog.category latestLog;
                GraphNode.masteryPL := avg;
                GraphNode.effectiveMastery := avg * (1 - forgetting * 0.4);
                GraphNode.community := default O (comOf communities id);
                GraphNode.degree := default O (JsMap.get degreeMap id);
                GraphNode.color := ns_color state;
                GraphNode.size := ns_size state |}
      end
  end.

(** [now k] is the value of [Date.now()] read while the [k]-th node is built
    (the clock is read once per node, in node order). *)
Definition buildGraph (now : nat -> Q) (logs : list SessionLog.t)
    : outcome Graph :=
  let conceptMap := conceptMapOf logs in
  let conceptIds := JsMap.keys conceptMap in
  edges ← buildEdges logs conceptIds;
  communities ← louvainCluster conceptIds (linkOf <$> edges);
  let degreeMap := degreeMapOf edges in
  nodes ← mapO (fun '(k, id) =>
                  buildNode conceptMap communities degreeMap (now k) id)
               (imap pair conceptIds);
  Ok {| nodes := nodes; edges := edges |}.

End Host.

End KnowledgeGraphEngine.

(** ** Behavioural analyzer (second part of [lms-store.ts]) *)

(** [selectedOption] is an option index, an integer; [theta], [irtB] and
    [irtC] are optional. *)
Module SessionResponse.
Record t := {
  questionId : string;
  selectedOption : Z;
  isCorrect : bool;
  responseTimeMs : Q;
  difficulty : string;
  theta : option Q;
  irtB : option Q;
  irtC : option Q
}.
End SessionResponse.

(** The messages pushed to [reasons] by [detectGuessing]; the first one
    prints [Math.round(responseTimeMs / 1000)]. *)
Inductive GuessReason :=
| AnsweredMuchFaster (seconds : Z)
| RepetitiveSelection
| CorrectDespiteLowAbility.

Module GuessingResult.
Record t := {
  probability : Q;
  speedFlag : bool;
  patternFlag : bool;
  mismatchFlag : bool;
  reasons : list GuessReason
}.
End GuessingResult.

Module BehavioralAnalyzer.

Record BehaviorSignals := {
  tabSwitches : Q;
  pasteEvents : Q;
  fastHardAnswers : Q;
  totalQuestions : Q
}.

Record Breakdown := { tab : Q; paste : Q; fastHard : Q }.

Record CheatRiskResult := {
  score : Q;
  flagged : bool;
  breakdown : Breakdown
}.

Definition detectCheating (signals : BehaviorSignals) : outcome CheatRiskResult :=
  let tabSwitches := tabSwitches signals in
  let pasteEvents := pasteEvents signals in
  let fastHardAnswers := fastHardAnswers signals in
  let totalQuestions := totalQuestions signals in
  if Js.eqb totalQuestions 0
  then Ok {| score := 0; flagged := false;
             breakdown := {| tab := 0; paste := 0; fastHard := 0 |} |}
  else
    t ← Js.div tabSwitches (totalQuestions * 2);
    let tabScore := Js.min 1 t in
    p ← Js.div pasteEvents totalQuestions;
    let pasteScore := Js.min 1 p in
    f ← Js.div fastHardAnswers (Js.max 1 (totalQuestions * 0.3));
    let fastHardScore := Js.min 1 f in
    let crs := 0.3 * tabScore + 0.3 * pasteScore + 0.4 * fastHardScore in
    Ok {| score := Js.min 1 crs;
          flagged := Js.ltb 0.5 crs;
          breakdown := {| tab := tabScore; paste := pasteScore;
                          fastHard := fastHardScore |} |}.

Inductive Mode := exam | practice.
Inductive Priority := low | medium | high.

#[global] Instance Mode_eq_dec : EqDecision Mode.
Proof. solve_decision. Defined.

(** The messages pushed to [reasons], one constructor per message; a message
    built from a template carries the number the template prints. *)
Inductive Reason :=
| ExamModeNoInterruptions
| ConceptAlreadyMastered
| TimeConstraint
| GuessingDetected (guessProbability : Q)
| WrongOnConcept (wrongStreakOnConcept : Q)
| MasteryDropped (percent : Q)
| ActiveLearningZone
| LowConfidence (confidenceScore : Q).

Record SocraticParams := {
  mode : Mode;
  isCorrect : bool;
  currentPL : Q;
  prevPL : Q;
  wrongStreakOnConcept : Q;
  guessProbability : Q;
  confidenceScore : Q;
  timeRemainingMs : option Q
}.

Record SocraticDecision := {
  shouldTrigger : bool;
  reasons : list Reason;
  priority : Priority
}.

(** [timeRemainingMs !== undefined && timeRemainingMs < 60_000] *)
Definition tooLittleTime (timeRemainingMs : option Q) : bool :=
  match timeRemainingMs with
  | Some t => Js.ltb t 60000
  | None => false
  end.

Definition shouldTriggerSocratic (params : SocraticParams) : SocraticDecision :=
  if decide (mode params = exam) then
    {| shouldTrigger := false; reasons := [ExamModeNoInterruptions];
       priority := low |}
  else if Js.ltb 0.9 (currentPL params) then
    {| shouldTrigger := false; reasons := [ConceptAlreadyMastered];
       priority := low |}
  else if tooLittleTime (timeRemainingMs params) then
    {| shouldTrigger := false; reasons := [TimeConstraint]; priority := low |}
  else
    let reasons : list Reason := [] in
    let triggerScore := O in
    let '(reasons, triggerScore) :=
      if Js.ltb 0.6 (guessProbability params)
      then (reasons ++ [GuessingDetected (guessProbability params)],
            triggerScore + 3)%nat
      else (reasons, triggerScore) in
    let '(reasons, triggerScore) :=
      if Js.leb 2 (wrongStreakOnConcept params)
      then (reasons ++ [WrongOnConcept (wrongStreakOnConcept params)],
            triggerScore + 3)%nat
      else (reasons, triggerScore) in
    let deltaML := currentPL params - prevPL params in
    let '(reasons, triggerScore) :=
      if Js.ltb deltaML (-0.15)
      then (reasons ++ [MasteryDropped (deltaML * 100)], triggerScore + 2)%nat
      else (reasons, triggerScore) in
    let '(reasons, triggerScore) :=
      if Js.leb 0.4 (currentPL params) && Js.leb (currentPL params) 0.7
         && negb (isCorrect params)
      then (reasons ++ [ActiveLearningZone], triggerScore + 1)%nat
      else (reasons, triggerScore) in
    let '(reasons, triggerScore) :=
      if Js.ltb (confidenceScore params) 0.3 && isCorrect params
      then (reasons ++ [LowConfidence (confidenceScore params)],
            triggerScore + 2)%nat
      else (reasons, triggerScore) in
    {| shouldTrigger := (2 <=? triggerScore)%nat;
       reasons := reasons;
       priority := if (5 <=? triggerScore)%nat then high
                   else if (3 <=? triggerScore)%nat then medium
                   else low |}.

Definition EXPECTED_TIME_MS : gmap string Q :=
  list_to_map [("easy"%string, 15000); ("medium"%string, 25000);
               ("hard"%string, 40000)].

Definition SIGMA_TIME_MS : Q := 10000.

Definition speedAnomalyFlag (responseTimeMs : Q) (difficulty : string) : bool :=
  let expected := default 25000 (EXPECTED_TIME_MS !! difficulty) in
  let zScore := (expected - responseTimeMs) / SIGMA_TIME_MS in
  Js.ltb 2.5 zScore.

(** [counts] after [window.forEach(r => counts[r.selectedOption]++)]: the
    counters of the options 0, 1, 2, 3 in this order, or [None] when some
    selection is not one of them (its counter is then NaN, and so is the
    entropy). *)
Definition countOptions (options : list Z) : option (list nat) :=
  if forallb (fun o => (0 <=? o)%Z && (o <=? 3)%Z) options
  then Some ((fun k : Z => length (filter (fun o => o = k) options))
             <$> [0; 1; 2; 3]%Z)
  else None.

Section Host.
Context `{MathLib}.
Variable Math_log2 : Q -> Q.

Definition sigmoid (x : Q) : outcome Q := Js.div 1 (1 + Math_exp (- x)).

(** [Object.values(counts).reduce((h, c) => ..., 0)] *)
Definition entropyOfCounts (counts : list nat) (total : Q) : outcome Q :=
  foldO (fun h c =>
           if (c =? 0)%nat then Ok h
           else p ← Js.div (inject_Z (Z.of_nat c)) total;
                Ok (h - p * Math_log2 p))
        0 counts.

Definition selectionPatternFlag (responses : list SessionResponse.t)
    : outcome bool :=
  if (length responses <? 4)%nat then Ok false
  else
    let recent := SessionResponse.selectedOption <$> Js.lastN 4 responses in
    if (JsSet.size (JsSet.of_list recent) =? 1)%nat then Ok true
    else
      let window := Js.lastN 10 responses in
      if (length window <? 5)%nat then Ok false
      else
        match countOptions (SessionResponse.selectedOption <$> window) with
        | None => Ok false
        | Some counts =>
            entropy ← entropyOfCounts counts (Js.len window);
            Ok (Js.ltb entropy 0.5)
        end.

Definition abilityMismatchFlag (response : SessionResponse.t) : outcome bool :=
  match SessionResponse.isCorrect response,
        SessionResponse.theta response, SessionResponse.irtB response with
  | true, Some theta, Some irtB =>
      let c := default 0.25 (SessionResponse.irtC response) in
      let a := 1 in
      let exp := Math_exp ((- a) * (theta - irtB)) in
      q ← Js.div (1 - c) (1 + exp);
      let pCorrect := c + q in
      Ok (Js.ltb pCorrect 0.3)
  | _, _, _ => Ok false
  end.

Definition detectGuessing (response : SessionResponse.t)
    (allResponses : list SessionResponse.t) : outcome GuessingResult.t :=
  let speed := speedAnomalyFlag (SessionResponse.responseTimeMs response)
                                (SessionResponse.difficulty response) in
  pattern ← selectionPatternFlag allResponses;
  mismatch ← abilityMismatchFlag response;
  let reasons : list GuessReason := [] in
  let reasons :=
    if speed
    then reasons ++ [AnsweredMuchFaster
                       (Js.round (SessionResponse.responseTimeMs response
                                  / 1000))]
    else reasons in
  let reasons := if (pattern : bool) then reasons ++ [RepetitiveSelection]
                 else reasons in
  let reasons := if (mismatch : bool) then reasons ++ [CorrectDespiteLowAbility]
                 else reasons in
  let rawScore := (if speed then 1.2 else 0) + (if pattern then 1.0 else 0)
                  + (if mismatch then 0.8 else 0) in
  probability ← sigmoid (rawScore - 1.5);
  Ok {| GuessingResult.probability := Js.min 1 (Js.max 0 probability);
        GuessingResult.speedFlag := speed;
        GuessingResult.patternFlag := pattern;
        GuessingResult.mismatchFlag := mismatch;
        GuessingResult.reasons := reasons |}.

End Host.

End BehavioralAnalyzer.

(** ** IRT ability estimator (third part of [lms-store.ts]) *)

Module IrtModel.

Record IRTItem := { id : string; a : Q; b : Q; c : Q }.
Record IRTResponse := { item : IRTItem; correct : bool }.

(** A JavaScript number that may be [Infinity]. *)
Inductive extended := Finite (q : Q) | Infinity.

Inductive Difficulty := easy | medium | hard.

Definition thetaToScore (theta : Q) : Z :=
  Js.round (((theta + 4) / 8) * 100).

Definition difficultyLabel (b : Q) : Difficulty :=
  if Js.ltb b (-0.5) then easy
  else if Js.ltb b 0.5 then medium
  else hard.

(** [random] is the value [Math.random()] returns during the call. *)
Definition difficultyToB (random : Q) (difficulty : Difficulty) : Q :=
  match difficulty with
  | easy => -1.0 + random * 0.5
  | medium => -0.25 + random * 0.5
  | hard => 0.5 + random * 1.0
  end.

Definition GRID_SIZE : nat := 41.

(** [Array.from({ length: GRID_SIZE }, (_, i) => -4 + 8 * i / (GRID_SIZE - 1))] *)
Definition thetas : list Q :=
  (fun i : nat => -4 + 8 * inject_Z (Z.of_nat i)
                       / (inject_Z (Z.of_nat GRID_SIZE) - 1))
  <$> seq 0 GRID_SIZE.

Section Host.
Context `{MathLib}.

Definition threeParamLogistic (theta a b c : Q) : outcome Q :=
  let exp := Math_exp ((- a) * (theta - b)) in
  q ← Js.div (1 - c) (1 + exp);
  Ok (c + q).

Definition fisherInformation (theta a b c : Q) : outcome Q :=
  P ← threeParamLogistic theta a b c;
  let numerator := a * a * ((P - c) * (P - c)) in
  let denominator := (1 - c) * (1 - c) * P * (1 - P) in
  if Js.ltb denominator 1e-12 then Ok 0
  else Js.div numerator denominator.

Definition totalInformation (theta : Q) (responses : list IRTResponse)
    : outcome Q :=
  foldO (fun acc r =>
           i ← fisherInformation theta (a (item r)) (b (item r)) (c (item r));
           Ok (acc + i))
        0 responses.

Definition standardError (theta : Q) (responses : list IRTResponse)
    : outcome extended :=
  totalInfo ← totalInformation theta responses;
  if Js.ltb totalInfo 1e-12 then Ok Infinity
  else q ← Js.div 1 (Math_sqrt totalInfo); Ok (Finite q).

(** The body of [for (const item of available.slice(1))]; the state is
    [(bestItem, bestInfo)]. *)
Definition considerItem (theta : Q) (best : IRTItem * Q) (item : IRTItem)
    : outcome (IRTItem * Q) :=
  info ← fisherInformation theta (a item) (b item) (c item);
  if Js.ltb best.2 info then Ok (item, info) else Ok best.

Definition selectNextItem (theta : Q) (itemBank : list IRTItem)
    (usedIds : JsSet.t string) : outcome (option IRTItem) :=
  let available :=
    filter (fun item => JsSet.has usedIds (id item) = false) itemBank in
  match available with
  | [] => Ok None
  | first :: rest =>
      bestInfo ← fisherInformation theta (a first) (b first) (c first);
      best ← foldO (considerItem theta) (first, bestInfo) rest;
      Ok (Some best.1)
  end.

(** The [responses.reduce] inside [likelihood]. *)
Definition likelihoodAt (responses : list IRTResponse) (theta : Q) : outcome Q :=
  foldO (fun acc r =>
           p ← threeParamLogistic theta (a (item r)) (b (item r)) (c (item r));
           Ok (acc * (if correct r then p else 1 - p)))
        1 responses.

(** The standard normal density on the grid. *)
Definition priorOf (grid : list Q) : outcome (list Q) :=
  mapO (fun t => Js.div (Math_exp (-0.5 * t * t)) (Math_sqrt (2 * Math_PI))) grid.

(** [unnormalized] and its [sum], as computed before the underflow test. *)
Definition unnormalizedOf (responses : list IRTResponse) : outcome (list Q) :=
  prior ← priorOf thetas;
  likelihood ← mapO (likelihoodAt responses) thetas;
  Ok (zip_with Qmult likelihood prior).

Definition posteriorMass (unnormalized : list Q) : Q :=
  foldl Qplus 0 unnormalized.

(** [priorTheta] is the second argument; a caller that omits it passes 0. *)
Definition updateTheta (responses : list IRTResponse) (priorTheta : Q)
    : outcome Q :=
  if (length responses =? 0)%nat then Ok priorTheta
  else
    unnormalized ← unnormalizedOf responses;
    let sum := posteriorMass unnormalized in
    if Js.ltb sum 1e-15 then Ok priorTheta
    else
      posterior ← mapO (fun v => Js.div v sum) unnormalized;
      let eap := foldl (fun acc '(theta, p) => acc + theta * p)
                       0 (zip thetas posterior) in
      Ok (Js.max (-4) (Js.min 4 eap)).

End Host.

End IrtModel.

(** ** The behaviour-analysis request handler ([pages/api/analyze-behavior.ts])

    The computations of the handler between reading the request body and
    writing the response, one definition per local variable. *)

Module IrtParams.
Record t := { a : Q; b : Q; c : Q }.
End IrtParams.

(** An element of [responses] in the request body. *)
Module ApiResponse.
Record t := {
  questionId : string;
  selectedOption : Z;
  isCorrect : bool;
  responseTimeMs : Q;
  difficulty : string;
  concept : string;
  irt : option IrtParams.t
}.
End ApiResponse.

Module AnalyzeBehavior.

(** The callback of [responses.map(r => ({ ... }))]; the object it builds has
    no [theta]. *)
Definition toSessionResponse (r : ApiResponse.t) : SessionResponse.t :=
  {| SessionResponse.questionId := ApiResponse.questionId r;
     SessionResponse.selectedOption := ApiResponse.selectedOption r;
     SessionResponse.isCorrect := ApiResponse.isCorrect r;
     SessionResponse.responseTimeMs := ApiResponse.responseTimeMs r;
     SessionResponse.difficulty := ApiResponse.difficulty r;
     SessionResponse.theta := None;
     SessionResponse.irtB := IrtParams.b <$> ApiResponse.irt r;
     SessionResponse.irtC := IrtParams.c <$> ApiResponse.irt r |}.

(** [responses.filter(r => r.irt).map(r => ({ item: ..., correct: ... }))] *)
Definition irtResponsesOf (responses : list ApiResponse.t)
    : list IrtModel.IRTResponse :=
  omap (fun r =>
          irt ← ApiResponse.irt r;
          Some {| IrtModel.item :=
                    {| IrtModel.id := ApiResponse.questionId r;
                       IrtModel.a := IrtParams.a irt;
                       IrtModel.b := IrtParams.b irt;
                       IrtModel.c := IrtParams.c irt |};
                  IrtModel.correct := ApiResponse.isCorrect r |})
       responses.

(** [let pL = currentPL; const masteryTrajectory = responses.map(r => { pL =
    updateMastery(pL, r.isCorrect); return { after, pL: round4(pL) } });
    const finalPL = pL;]  The result is [(masteryTrajectory, finalPL)]. *)
Definition masteryTrajectoryOf (currentPL : Q) (responses : list ApiResponse.t)
    : outcome (list (string * Q) * Q) :=
  foldO (fun '(trajectory, pL) r =>
           pL' ← MasteryEngine.updateMastery pL (ApiResponse.isCorrect r);
           Ok (trajectory ++ [(ApiResponse.questionId r, Js.toFixed 4 pL')],
               pL'))
        ([], currentPL) responses.

(** [responses.slice().reverse().findIndex(r => r.isCorrect)], with the
    length of [responses] when nothing is found. *)
Fixpoint findCorrect (reversed : list ApiResponse.t) : option nat :=
  match reversed with
  | [] => None
  | r :: rest => if ApiResponse.isCorrect r then Some O
                 else S <$> findCorrect rest
  end.

Definition wrongStreakOnConcept (responses : list ApiResponse.t) : nat :=
  default (length responses) (findCorrect (reverse responses)).


Section Host.
Context `{MathLib}.
Variable Math_log2 : Q -> Q.

(** [sessionResponses.map((resp, i) => detectGuessing(resp,
    sessionResponses.slice(0, i + 1)))] *)
Definition guessingResultsOf (responses : list ApiResponse.t)
    : outcome (list GuessingResult.t) :=
  let sessionResponses := toSessionResponse <$> responses in
  mapO (fun '(i, resp) =>
          BehavioralAnalyzer.detectGuessing Math_log2 resp
            (take (S i) sessionResponses))
       (imap pair sessionResponses).


(** [theta] and [abilityScore]; the prior is the default 0. *)
Definition abilityOf (responses : list ApiResponse.t) : outcome (Q * Z) :=
  theta ← IrtModel.updateTheta (irtResponsesOf responses) 0;
  Ok (theta, IrtModel.thetaToScore theta).


End Host.

End AnalyzeBehavior.

(** ** Vocabulary of the statements, and sample inputs *)

Section Vocabulary.
Import KnowledgeGraphEngine.

(** A node is assigned when [communities] maps it to a number. *)
Definition assigned (communities : JsMap.t string com) (n : string) : Prop :=
  exists c : nat, JsMap.get communities n = Some (Some c).

(** The community ids are exactly 0, 1, ..., one per entry. *)
Definition denseIds (communities : JsMap.t string com) : Prop :=
  JsMap.values communities ≡ₚ Some <$> seq 0 (length communities).

(** The fields of a node that are computed without reading the clock. *)
Definition clockFree (n : GraphNode.t)
    : string * string * string * Q * nat * nat * Q :=
  (GraphNode.id n, GraphNode.name n, GraphNode.category n,
   GraphNode.masteryPL n, GraphNode.community n, GraphNode.degree n,
   GraphNode.size n).

(** The first [k] passes of the greedy loop, run one after the other
    whatever they report: from [(communities, improved)] to the communities
    after the last of them and its [improved]. *)
Fixpoint sweepsFrom (totalWeight : Q) (nodes : list string)
    (adj : JsMap.t string (JsMap.t string Q)) (degree : JsMap.t string Q)
    (k : nat) (st : JsMap.t string com * bool)
    : outcome (JsMap.t string com * bool) :=
  match k with
  | O => Ok st
  | S k' => st' ← sweep totalWeight nodes adj degree st.1;
            sweepsFrom totalWeight nodes adj degree k' st'
  end.

(** One session (day 0): "limits" answered wrong once, "derivatives"
    answered wrong twice. *)
Definition repeatedMistake : list SessionLog.t :=
  [ {| SessionLog.concept := "limits"; SessionLog.category := "math";
       SessionLog.isCorrect := false; SessionLog.responseTimeMs := 20000;
       SessionLog.masteryPL := 0.3; SessionLog.timestamp := 0 |};
    {| SessionLog.concept := "derivatives"; SessionLog.category := "math";
       SessionLog.isCorrect := false; SessionLog.responseTimeMs := 20000;
       SessionLog.masteryPL := 0.3; SessionLog.timestamp := 1000 |};
    {| SessionLog.concept := "derivatives"; SessionLog.category := "math";
       SessionLog.isCorrect := false; SessionLog.responseTimeMs := 20000;
       SessionLog.masteryPL := 0.3; SessionLog.timestamp := 2000 |} ].

End Vocabulary.

Section Samples.
Import BehavioralAnalyzer.

(** A practice-mode answer that would otherwise trigger with high priority
    (guessing 0.9, five wrong in a row), with 30 seconds left. *)
Definition hurriedGuess : SocraticParams :=
  {| mode := practice; isCorrect := false; currentPL := 0.5; prevPL := 0.8;
     wrongStreakOnConcept := 5; guessProbability := 0.9;
     confidenceScore := 0.1; timeRemainingMs := Some 30000 |}.

End Samples.

(** Four very easy items missed and four very hard items answered
    correctly: no ability on the grid explains both, and the posterior mass
    is about 6e-21. *)
Definition contradictoryAnswers : list IrtModel.IRTResponse :=
  let easy := {| IrtModel.id := "easy"; IrtModel.a := 2;
                 IrtModel.b := -3; IrtModel.c := 0 |} in
  let hard := {| IrtModel.id := "hard"; IrtModel.a := 2;
                 IrtModel.b := 3; IrtModel.c := 0 |} in
  replicate 4 {| IrtModel.item := easy; IrtModel.correct := false |}
  ++ replicate 4 {| IrtModel.item := hard; IrtModel.correct := true |}.

(** ** Vocabulary of the further statements *)

(** A finite JavaScript number: a larger magnitude is read as [Infinity]. *)
Definition finiteNumber (x : Q) : Prop := -1e308 <= x /\ x <= 1e308.

(** A number whose square, and whose products and differences with another
    such number, are finite JavaScript numbers. *)
Definition moderate (x : Q) : Prop := -1e100 <= x /\ x <= 1e100.

(** Item parameters on which the item response model computes with finite
    numbers: a guessing floor in [0, 1], moderate discrimination and
    difficulty. *)
Definition itemInDomain (item : IrtModel.IRTItem) : Prop :=
  0 <= IrtModel.c item /\ IrtModel.c item <= 1
  /\ moderate (IrtModel.a item) /\ moderate (IrtModel.b item).

(** The same domain for the item parameters of a request. *)
Definition paramsInDomain (irt : IrtParams.t) : Prop :=
  0 <= IrtParams.c irt /\ IrtParams.c irt <= 1
  /\ moderate (IrtParams.a irt) /\ moderate (IrtParams.b irt).

(** A key that an object literal holds only if it lists it: of the names
    every JavaScript object inherits, these two are the ones in lower
    case, the only case [prerequisiteStrength] looks up. *)
Definition ownKey (key : string) : Prop :=
  key <> "constructor"%string /\ key <> "__proto__"%string.

(** The rank of a mastery label, from "New" (0) to "Mastered" (4). *)
Definition labelRank (label : string) : nat :=
  if decide (label = "Mastered"%string) then 4
  else if decide (label = "Proficient"%string) then 3
  else if decide (label = "Learning"%string) then 2
  else if decide (label = "Developing"%string) then 1
  else 0.

Section BehaviorVocabulary.
Import BehavioralAnalyzer.


(** The weight [detectGuessing] gives to a combination of flags. *)
Definition rawScoreOf (speed pattern mismatch : bool) : Q :=
  (if speed then 1.2 else 0) + (if pattern then 1.0 else 0)
  + (if mismatch then 0.8 else 0).

Definition raised (flag : bool) : nat := if flag then 1%nat else 0%nat.

End BehaviorVocabulary.

(** A correct answer to a hard question, given in 30 seconds, that selects
    [selectedOption] and carries no item parameters. *)
Definition fourthAnswer (selectedOption : Z) : SessionResponse.t :=
  {| SessionResponse.questionId := "q";
     SessionResponse.selectedOption := selectedOption;
     SessionResponse.isCorrect := true;
     SessionResponse.responseTimeMs := 30000;
     SessionResponse.difficulty := "hard";
     SessionResponse.theta := None;
     SessionResponse.irtB := None;
     SessionResponse.irtC := None |}.

(** A practice-mode answer after a mastery drop from 0.8 to 0.5, with no
    other signal. *)
Definition masteryDrop : BehavioralAnalyzer.SocraticParams :=
  {| BehavioralAnalyzer.mode := BehavioralAnalyzer.practice;
     BehavioralAnalyzer.isCorrect := false;
     BehavioralAnalyzer.currentPL := 0.5;
     BehavioralAnalyzer.prevPL := 0.8;
     BehavioralAnalyzer.wrongStreakOnConcept := 0;
     BehavioralAnalyzer.guessProbability := 0.1;
     BehavioralAnalyzer.confidenceScore := 0.5;
     BehavioralAnalyzer.timeRemainingMs := None |}.

(** Two responses of a request: the first carries item parameters. *)
Definition twoResponses : list ApiResponse.t :=
  [ {| ApiResponse.questionId := "q1"; ApiResponse.selectedOption := 2;
       ApiResponse.isCorrect := true; ApiResponse.responseTimeMs := 21000;
       ApiResponse.difficulty := "medium"; ApiResponse.concept := "limits";
       ApiResponse.irt := Some {| IrtParams.a := 1.1; IrtParams.b := 0.2;
                                  IrtParams.c := 0.25 |} |};
    {| ApiResponse.questionId := "q2"; ApiResponse.selectedOption := 0;
       ApiResponse.isCorrect := false; ApiResponse.responseTimeMs := 9000;
       ApiResponse.difficulty := "hard"; ApiResponse.concept := "limits";
       ApiResponse.irt := None |} ].

(** An easy item answered correctly and a hard one missed. *)
Definition mixedAnswers : list IrtModel.IRTResponse :=
  [ {| IrtModel.item := {| IrtModel.id := "q1"; IrtModel.a := 1.2;
                           IrtModel.b := -1; IrtModel.c := 0.25 |};
       IrtModel.correct := true |};
    {| IrtModel.item := {| IrtModel.id := "q2"; IrtModel.a := 0.8;
                           IrtModel.b := 1.5; IrtModel.c := 0.2 |};
       IrtModel.correct := false |} ].

Section IrtVocabulary.
Import IrtModel.
Context `{MathLib}.

(** The state of the selection loop: the best item so far is an available
    item, [bestInfo] is its information, and no item seen so far has more. *)
Definition bestSoFar (theta : Q) (available seen : list IRTItem)
    (best : IRTItem * Q) : Prop :=
  best.1 ∈ available
  /\ fisherInformation theta (a best.1) (b best.1) (c best.1) = Ok best.2
  /\ forall item info,
       item ∈ seen ->
       fisherInformation theta (a item) (b item) (c item) = Ok info ->
       info <= best.2.

End IrtVocabulary.

Section GraphVocabulary.
Import KnowledgeGraphEngine.

(** The logs of a concept: those whose lower-cased concept is [key]. *)
Definition logsOf (key : string) (logs : list SessionLog.t)
    : list SessionLog.t :=
  filter (fun log => Js.toLowerCase (SessionLog.concept log) = key) logs.

(** The two concepts an edge joins. *)
Definition endsOf (e : GraphEdge.t) : string * string :=
  (GraphEdge.source e, GraphEdge.target e).

(** What [buildGraph] records in an edge it keeps. *)
Definition edgeOk (logs : list SessionLog.t) (e : GraphEdge.t) : Prop :=
  0.05 <= GraphEdge.weight e
  /\ calculateEdgeWeight (GraphEdge.source e) (GraphEdge.target e) logs
     = Ok (GraphEdge.weight e)
  /\ GraphEdge.weight e
     = ALPHA * GraphEdge.prerequisiteStrength e
       + BETA * GraphEdge.coOccurrenceRate e
       + GAMMA * GraphEdge.confusionCorrelation e.

(** The number of edge ends at [id]. *)
Definition endsAt (id : string) (edges : list GraphEdge.t) : nat :=
  length (filter (fun e => GraphEdge.source e = id) edges)
  + length (filter (fun e => GraphEdge.target e = id) edges).

(** What [buildGraph] records in the node of concept [id], clock apart. *)
Definition nodeOk (logs : list SessionLog.t) (edges : list GraphEdge.t)
    (n : GraphNode.t) : Prop :=
  let group := logsOf (GraphNode.id n) logs in
  group <> []
  /\ GraphNode.name n = capitalize (GraphNode.id n)
  /\ GraphNode.masteryPL n
     = foldl (fun s l => s + SessionLog.masteryPL l) 0 group / Js.len group
  /\ Some (GraphNode.category n) = SessionLog.category <$> last group
  /\ GraphNode.degree n = endsAt (GraphNode.id n) edges.

(** Every concept named in the table, as a row or inside a row. *)
Definition tableConcepts : list string :=
  remove_dups
    ((map_to_list PREREQUISITE_STRENGTH).*1
     ++ mjoin ((fun entry : string * gmap string Q =>
                  (map_to_list entry.2).*1)
               <$> map_to_list PREREQUISITE_STRENGTH)).

(** The pairs the table lists in both directions with different values. *)
Definition listedBothWays (a b : string) : Prop :=
  (a, b) ∈ [("statistics", "probability"); ("probability", "statistics");
            ("algorithms", "graph theory"); ("graph theory", "algorithms")]%string.

#[global] Instance listedBothWays_dec a b : Decision (listedBothWays a b).
Proof. unfold listedBothWays. apply _. Defined.

(** [prerequisiteStrength] on names already in lower case. *)
Definition strengthOf (a b : string) : Q :=
  match PREREQUISITE_STRENGTH !! a ≫= (.!! b) with
  | Some v => v
  | None => default 0 (PREREQUISITE_STRENGTH !! b ≫= (.!! a))
  end.

End GraphVocabulary.

(** ** A rational host library

    A [MathLib] whose functions are computed in [Q] and rounded up to fifteen
    decimals: the exponential by argument halving and a truncated series, the
    square root by Newton steps.  It is used to run the engines on concrete
    inputs. *)

Module RationalMath.

Definition roundUp (q : Q) : Q := inject_Z (Qceiling (q * 1e15)) / 1e15.

(** [1 + x/k * (1 + x/(k+1) * (...))], [n] terms deep. *)
Fixpoint expSeries (n : nat) (k : positive) (x : Q) : Q :=
  match n with
  | O => 1
  | S n' => roundUp (1 + x / inject_Z (Zpos k) * expSeries n' (Pos.succ k) x)
  end.

Definition square (x : Q) : Q := roundUp (x * x).

(** [exp y] for [0 <= y], as [(exp (y/16))^16]. *)
Definition expPos (y : Q) : Q :=
  square (square (square (square (expSeries 12 1 (y / 16))))).

Definition exp (x : Q) : Q :=
  roundUp (if Qle_bool 0 x then expPos x else / expPos (- x)).

Definition newtonStep (x y : Q) : Q := roundUp ((y + x / y) / 2).

Fixpoint newton (n : nat) (x y : Q) : Q :=
  match n with
  | O => y
  | S n' => newton n' x (newtonStep x y)
  end.

Definition sqrt (x : Q) : Q := newton 8 x ((1 + x) / 2).

Definition PI : Q := 3.141592653589793.

Lemma roundUp_ge q : q <= roundUp q.
Proof.
  unfold roundUp. apply Qle_shift_div_l; [reflexivity|]. apply Qle_ceiling.
Qed.

Lemma square_nonneg x : 0 <= square x.
Proof. unfold square. eapply Qle_trans; [|apply roundUp_ge]. nra. Qed.

Lemma exp_nonneg x : 0 <= exp x.
Proof.
  unfold exp. eapply Qle_trans; [|apply roundUp_ge].
  destruct (Qle_bool 0 x).
  - apply square_nonneg.
  - apply Qinv_le_0_compat, square_nonneg.
Qed.

Lemma newtonStep_pos x y : 0 < x -> 0 < y -> 0 < newtonStep x y.
Proof.
  intros Hx Hy. unfold newtonStep.
  eapply Qlt_le_trans; [|apply roundUp_ge].
  assert (0 < x / y) by (apply Qlt_shift_div_l; lra).
  apply Qlt_shift_div_l; lra.
Qed.

Lemma newton_pos n x y : 0 < x -> 0 < y -> 0 < newton n x y.
Proof.
  intros Hx. revert y. induction n as [|n IH]; intros y Hy; simpl.
  - exact Hy.
  - apply IH, newtonStep_pos; assumption.
Qed.

Lemma sqrt_pos x : 0 < x -> 0 < sqrt x.
Proof.
  intros Hx. unfold sqrt. apply newton_pos; [exact Hx|].
  apply Qlt_shift_div_l; lra.
Qed.

Lemma PI_pos : 0 < PI.
Proof. reflexivity. Qed.

#[global] Instance host : MathLib := {|
  Math_exp := exp;
  Math_sqrt := sqrt;
  Math_PI := PI;
  Math_exp_nonneg := exp_nonneg;
  Math_sqrt_pos := sqrt_pos;
  Math_PI_pos := PI_pos
|}.

End RationalMath.

(** * Properties *)

(** ** Basic facts about outcomes and numbers *)

Lemma bind_Ok {A B} (a : A) (f : A -> outcome B) : (Ok a ≫= f) = f a.
Proof. reflexivity. Qed.

Lemma div_Ok x y : ~ y == 0 -> Js.div x y = Ok (x / y).
Proof.
  intros Hy. unfold Js.div.
  destruct (Qeq_bool y 0) eqn:E; [|reflexivity].
  apply Qeq_bool_iff in E. contradiction.
Qed.

(** Rewrites every quotient of the goal whose divisor is known, among the
    hypotheses, to be non-zero, and steps through the binds it frees. *)
Ltac divide := rewrite !div_Ok by assumption; rewrite ?bind_Ok.

Lemma ltb_lt x y : Js.ltb x y = true <-> x < y.
Proof.
  unfold Js.ltb. rewrite negb_true_iff.
  destruct (Qle_bool y x) eqn:E.
  - apply Qle_bool_iff in E. split; [discriminate | intros; lra].
  - split; [intros _ | reflexivity].
    apply Qnot_le_lt. intros Hle. apply Qle_bool_iff in Hle. congruence.
Qed.

Lemma or_nonzero x y : ~ x == 0 -> Js.or x y = x.
Proof.
  intros Hx. unfold Js.or.
  destruct (Qeq_bool x 0) eqn:E; [|reflexivity].
  apply Qeq_bool_iff in E. contradiction.
Qed.

Lemma len_nonzero {A} (xs : list A) : xs <> [] -> 0 < Js.len xs.
Proof.
  intros Hne. destruct xs as [|x xs]; [congruence|].
  unfold Js.len. change 0 with (inject_Z 0). rewrite <- Zlt_Qlt.
  simpl length. lia.
Qed.

Lemma len_nonneg {A} (xs : list A) : 0 <= Js.len xs.
Proof.
  unfold Js.len. change 0 with (inject_Z 0). rewrite <- Zle_Qle. lia.
Qed.

Lemma foldO_Ok {A S} (f : S -> A -> outcome S) (P : S -> Prop) xs :
  (forall s x, P s -> x ∈ xs -> exists s', f s x = Ok s' /\ P s') ->
  forall s, P s -> exists s', foldO f s xs = Ok s' /\ P s'.
Proof.
  induction xs as [|x xs IH]; intros Hf s Hs; simpl.
  - eauto.
  - destruct (Hf s x Hs) as [s1 [E1 H1]]; [left|].
    rewrite E1. simpl. apply IH; [|exact H1].
    intros s2 y H2 Hy. apply Hf; [exact H2 | right; exact Hy].
Qed.

Lemma mapO_Ok {A B} (f : A -> outcome B) xs :
  (forall x, x ∈ xs -> is_Ok (f x)) -> is_Ok (mapO f xs).
Proof.
  induction xs as [|x xs IH]; intros Hf; simpl.
  - eexists; reflexivity.
  - destruct (Hf x) as [y Ey]; [left|]. rewrite Ey. simpl.
    destruct IH as [ys Eys].
    + intros z Hz. apply Hf. right. exact Hz.
    + rewrite Eys. simpl. eexists; reflexivity.
Qed.

Lemma mapO_ext {A B} (f g : A -> outcome B) xs :
  (forall x, x ∈ xs -> f x = g x) -> mapO f xs = mapO g xs.
Proof.
  induction xs as [|x xs IH]; intros Hfg; simpl; [reflexivity|].
  rewrite Hfg by left. rewrite IH; [reflexivity|].
  intros z Hz. apply Hfg. right. exact Hz.
Qed.

(** ** Mastery engine *)

Section MasteryFacts.
Import MasteryEngine.

(** The Bayesian posterior after a correct answer, for a prior in (0,1). *)
Lemma updateMastery_correct_eq p :
  0 < p -> p < 1 ->
  updateMastery p true =
    Ok (Js.min 0.9999
          (Js.max 0.0001
             (let post := p * (1 - P_SLIP)
                          / (p * (1 - P_SLIP) + (1 - p) * P_GUESS) in
              post + (1 - post) * P_LEARN))).
Proof.
  intros H0 H1. unfold updateMastery.
  assert (Hd : 0 < p * (1 - P_SLIP) + (1 - p) * P_GUESS)
    by (unfold P_SLIP, P_GUESS; lra).
  rewrite or_nonzero by lra. rewrite div_Ok by lra. reflexivity.
Qed.

Lemma posterior_correct_bounds p :
  0 < p -> p < 1 ->
  let post := p * (1 - P_SLIP) / (p * (1 - P_SLIP) + (1 - p) * P_GUESS) in
  p < post /\ post <= 1.
Proof.
  intros H0 H1. unfold P_SLIP, P_GUESS. cbv zeta.
  assert (Hd : 0 < p * (1 - 0.1) + (1 - p) * 0.2) by lra.
  split.
  - apply Qlt_shift_div_l; [exact Hd | nra].
  - apply Qle_shift_div_r; [exact Hd | lra].
Qed.

(** C2 (as amended).  For a prior [p] in (0,1), a correct answer yields a
    mastery strictly above [p] as long as [p] is below the clamp ceiling
    0.9999; from the ceiling on, the result is the ceiling itself. *)
Theorem updateMastery_correct_increases p :
  0 < p -> p < 1 ->
  exists r, updateMastery p true = Ok r
    /\ (p < 0.9999 -> p < r)
    /\ (0.9999 <= p -> r == 0.9999).
Proof.
  intros H0 H1. rewrite updateMastery_correct_eq by assumption.
  destruct (posterior_correct_bounds p H0 H1) as [Hlt Hle].
  cbv zeta in *.
  set (post := p * (1 - P_SLIP) / (p * (1 - P_SLIP) + (1 - p) * P_GUESS)) in *.
  eexists. split; [reflexivity|].
  assert (Hnext : p < post + (1 - post) * P_LEARN) by (unfold P_LEARN; lra).
  unfold Js.min, Js.max. split.
  - intros Hc. apply Q.min_glb_lt; [exact Hc|].
    apply Q.max_lt_iff. right. exact Hnext.
  - intros Hc. apply Q.min_l. apply Q.max_le_iff. right. lra.
Qed.

Lemma updateMastery_correct_increases_witness :
  0 < 0.5 /\ 0.5 < 1 /\
  exists r, updateMastery 0.5 true = Ok r
    /\ (0.5 < 0.9999 -> 0.5 < r)
    /\ (0.9999 <= 0.5 -> r == 0.9999).
Proof.
  split; [reflexivity|]. split; [reflexivity|].
  apply (updateMastery_correct_increases 0.5); reflexivity.
Defined.

(** C2 fails as stated at the clamp ceiling: 0.9999 lies in (0,1) and a
    correct answer leaves it at 0.9999. *)
Lemma updateMastery_ceiling_not_increased :
  0 < 0.9999 /\ 0.9999 < 1 /\
  exists r, updateMastery 0.9999 true = Ok r /\ ~ 0.9999 < r.
Proof.
  split; [reflexivity|]. split; [reflexivity|].
  exists 0.9999. split; [vm_compute; reflexivity|].
  intros H. vm_compute in H. discriminate.
Qed.

(** The same three-step scenario with the mastery engine's constants. *)
Lemma updateMastery_three_correct :
  exists p1 p2 p3,
    updateMastery P_INIT true = Ok p1
    /\ updateMastery p1 true = Ok p2
    /\ updateMastery p2 true = Ok p3
    /\ P_INIT < p1 /\ p1 < p2 /\ p2 < p3 /\ 0.7 < p3.
Proof.
  do 3 eexists.
  split; [vm_compute; reflexivity|].
  split; [vm_compute; reflexivity|].
  split; [vm_compute; reflexivity|].
  repeat split; vm_compute; reflexivity.
Qed.

(** C7.  From mastery 0.3, three correct answers under slip 0.1, guess 0.2
    and learning rate 0.3 give a strictly increasing sequence whose third
    value exceeds 0.7. *)
Theorem bktUpdate_three_correct :
  Galaxy.BKT_P_SLIP == 0.1 /\ Galaxy.BKT_P_GUESS == 0.2
  /\ Galaxy.BKT_P_LEARN == 0.3
  /\ exists p1 p2 p3,
       Galaxy.bktUpdate 0.3 true = Ok p1
       /\ Galaxy.bktUpdate p1 true = Ok p2
       /\ Galaxy.bktUpdate p2 true = Ok p3
       /\ 0.3 < p1 /\ p1 < p2 /\ p2 < p3 /\ 0.7 < p3.
Proof.
  split; [reflexivity|]. split; [reflexivity|]. split; [reflexivity|].
  do 3 eexists.
  split; [vm_compute; reflexivity|].
  split; [vm_compute; reflexivity|].
  split; [vm_compute; reflexivity|].
  repeat split; vm_compute; reflexivity.
Qed.

(** C10.  An incorrect answer returns the mastery state itself: [pL],
    [stability], [reviewCount] and [lastReviewMs] are all those of the
    input, whatever the clock reads. *)
Theorem updateStability_incorrect_unchanged `{MathLib} now s :
  updateStability now s false = s
  /\ pL (updateStability now s false) = pL s
  /\ stability (updateStability now s false) = stability s
  /\ reviewCount (updateStability now s false) = reviewCount s
  /\ lastReviewMs (updateStability now s false) = lastReviewMs s.
Proof. repeat split. Qed.

End MasteryFacts.

(** ** Behavioural analyzer *)

Section BehaviorFacts.
Import BehavioralAnalyzer.

(** [detectCheating] never divides by zero: the guard excludes a zero
    question count, and the third divisor is at least 1. *)
Lemma detectCheating_total signals : is_Ok (detectCheating signals).
Proof.
  unfold detectCheating, Js.eqb. cbv zeta.
  destruct (Qeq_bool (totalQuestions signals) 0) eqn:E.
  - eexists; reflexivity.
  - assert (Hq : ~ totalQuestions signals == 0).
    { intros Hz. apply Qeq_bool_iff in Hz. congruence. }
    assert (Hq2 : ~ totalQuestions signals * 2 == 0)
      by (intros Hz; apply Hq; lra).
    assert (Hmax : ~ Js.max 1 (totalQuestions signals * 0.3) == 0).
    { unfold Js.max.
      pose proof (Q.le_max_l 1 (totalQuestions signals * 0.3)). lra. }
    divide. eexists; reflexivity.
Qed.

(** C9.  With no question answered, the cheating score is 0, the session is
    not flagged, and the computation completes without dividing. *)
Theorem detectCheating_no_questions signals :
  totalQuestions signals == 0 ->
  detectCheating signals =
    Ok {| score := 0; flagged := false;
          breakdown := {| tab := 0; paste := 0; fastHard := 0 |} |}.
Proof.
  intros Hz. unfold detectCheating, Js.eqb.
  apply Qeq_bool_iff in Hz. rewrite Hz. reflexivity.
Qed.

Lemma detectCheating_no_questions_witness :
  let signals := {| tabSwitches := 0; pasteEvents := 0;
                    fastHardAnswers := 0; totalQuestions := 0 |} in
  totalQuestions signals == 0
  /\ detectCheating signals =
       Ok {| score := 0; flagged := false;
             breakdown := {| tab := 0; paste := 0; fastHard := 0 |} |}.
Proof.
  split; [reflexivity|].
  apply detectCheating_no_questions. reflexivity.
Defined.

(** C6.  Exam mode, a mastery above 0.9, or a supplied remaining time below
    60000 ms each force [shouldTrigger = false], whatever the other signals. *)
Theorem shouldTriggerSocratic_hard_exits params :
  mode params = exam
  \/ 0.9 < currentPL params
  \/ (exists t, timeRemainingMs params = Some t /\ t < 60000) ->
  shouldTrigger (shouldTriggerSocratic params) = false.
Proof.
  intros Hexit. unfold shouldTriggerSocratic.
  destruct (decide (mode params = exam)) as [|Hmode]; [reflexivity|].
  destruct (Js.ltb 0.9 (currentPL params)) eqn:Hpl; [reflexivity|].
  destruct (tooLittleTime (timeRemainingMs params)) eqn:Htime; [reflexivity|].
  exfalso. destruct Hexit as [Hm | [Hp | [t [Ht Hlt]]]].
  - contradiction.
  - apply ltb_lt in Hp. congruence.
  - rewrite Ht in Htime. simpl in Htime. apply ltb_lt in Hlt. congruence.
Qed.

Lemma shouldTriggerSocratic_hard_exits_witness :
  (exists t, timeRemainingMs hurriedGuess = Some t /\ t < 60000)
  /\ shouldTrigger (shouldTriggerSocratic hurriedGuess) = false
  /\ shouldTrigger
       (shouldTriggerSocratic
          {| mode := practice; isCorrect := false; currentPL := 0.5;
             prevPL := 0.8; wrongStreakOnConcept := 5;
             guessProbability := 0.9; confidenceScore := 0.1;
             timeRemainingMs := None |}) = true.
Proof.
  assert (Ht : exists t, timeRemainingMs hurriedGuess = Some t /\ t < 60000).
  { exists 30000. split; reflexivity. }
  split; [exact Ht|]. split.
  - apply shouldTriggerSocratic_hard_exits. right. right. exact Ht.
  - reflexivity.
Defined.

End BehaviorFacts.

(** ** IRT ability estimator *)

Section IrtFacts.
Import IrtModel.
Context `{MathLib}.

Lemma threeParamLogistic_total theta a b c :
  is_Ok (threeParamLogistic theta a b c).
Proof.
  unfold threeParamLogistic.
  pose proof (Math_exp_nonneg (- a * (theta - b))) as Hexp.
  rewrite div_Ok by lra. eexists; reflexivity.
Qed.

Lemma likelihoodAt_total responses theta :
  is_Ok (likelihoodAt responses theta).
Proof.
  unfold likelihoodAt.
  destruct (foldO_Ok
              (fun acc r =>
                 p ← threeParamLogistic theta (a (item r)) (b (item r))
                                        (c (item r));
                 Ok (acc * (if correct r then p else 1 - p)))
              (fun _ => True) responses) with (s := 1) as [s [Es _]].
  - intros s r _ _.
    destruct (threeParamLogistic_total theta (a (item r)) (b (item r))
                                       (c (item r))) as [p Ep].
    rewrite Ep. simpl. eauto.
  - exact I.
  - exists s. exact Es.
Qed.

Lemma priorOf_total grid : is_Ok (priorOf grid).
Proof.
  apply mapO_Ok. intros t _.
  pose proof Math_PI_pos as Hpi.
  pose proof (Math_sqrt_pos (2 * Math_PI)) as Hsqrt.
  rewrite div_Ok; [eexists; reflexivity|].
  assert (0 < Math_sqrt (2 * Math_PI)) by (apply Hsqrt; lra). lra.
Qed.

(** The grid values are always computed: no divisor of the quadrature is
    zero. *)
Lemma unnormalizedOf_total responses : is_Ok (unnormalizedOf responses).
Proof.
  unfold unnormalizedOf.
  destruct (priorOf_total thetas) as [prior Eprior].
  rewrite Eprior, bind_Ok.
  destruct (mapO_Ok (likelihoodAt responses) thetas) as [lik Elik].
  - intros theta _. apply likelihoodAt_total.
  - rewrite Elik, bind_Ok. eexists; reflexivity.
Qed.

(** C8.  An empty response list returns the prior; so does every response
    list whose posterior mass on the grid is below 1e-15.  The mass itself
    is always computed, so the answer in that case is the prior and no
    undefined quotient. *)
Theorem updateTheta_returns_prior responses t0 :
  updateTheta [] t0 = Ok t0
  /\ is_Ok (unnormalizedOf responses)
  /\ forall unnormalized,
       unnormalizedOf responses = Ok unnormalized ->
       posteriorMass unnormalized < 1e-15 ->
       updateTheta responses t0 = Ok t0.
Proof.
  split; [reflexivity|]. split; [apply unnormalizedOf_total|].
  intros u Eu Hmass. unfold updateTheta.
  destruct (length responses =? 0)%nat; [reflexivity|].
  rewrite Eu, bind_Ok.
  apply ltb_lt in Hmass. rewrite Hmass. reflexivity.
Qed.

End IrtFacts.

(** A bound on every grid term bounds the posterior mass. *)
Lemma posteriorMass_bound (unnormalized : list Q) (bound : Q) :
  forallb (fun x => Js.leb x bound) unnormalized = true ->
  IrtModel.posteriorMass unnormalized <= Js.len unnormalized * bound.
Proof.
  unfold IrtModel.posteriorMass, Js.len. intros Hall.
  assert (Hgen : forall acc,
             foldl Qplus acc unnormalized
             <= acc + inject_Z (Z.of_nat (length unnormalized)) * bound).
  { induction unnormalized as [|x xs IH]; intros acc; simpl foldl.
    - change (inject_Z (Z.of_nat (length (@nil Q)))) with 0. lra.
    - simpl in Hall. apply andb_true_iff in Hall as [Hx Hxs].
      apply Qle_bool_iff in Hx.
      eapply Qle_trans; [apply IH, Hxs|].
      change (length (x :: xs)) with (S (length xs)).
      rewrite Nat2Z.inj_succ. unfold Z.succ. rewrite inject_Z_plus.
      change (inject_Z 1) with 1. nra. }
  eapply Qle_trans; [apply Hgen|]. lra.
Qed.

Lemma updateTheta_returns_prior_witness :
  exists unnormalized,
    IrtModel.unnormalizedOf contradictoryAnswers = Ok unnormalized
    /\ IrtModel.posteriorMass unnormalized < 1e-15
    /\ IrtModel.updateTheta contradictoryAnswers 0.5 = Ok 0.5.
Proof.
  assert (Hterms : exists unnormalized,
             IrtModel.unnormalizedOf contradictoryAnswers = Ok unnormalized
             /\ forallb (fun x => Js.leb x 2e-17) unnormalized = true
             /\ Js.len unnormalized == 41).
  { eexists. split; [vm_compute; reflexivity|].
    split; vm_compute; reflexivity. }
  destruct Hterms as [u [Eu [Hterms Hlen]]].
  assert (Hu : IrtModel.posteriorMass u < 1e-15).
  { eapply Qle_lt_trans; [apply posteriorMass_bound, Hterms|].
    rewrite Hlen. reflexivity. }
  exists u. split; [exact Eu|]. split; [exact Hu|].
  exact (proj2 (proj2 (updateTheta_returns_prior contradictoryAnswers 0.5))
               u Eu Hu).
Defined.

(** ** Edge weights *)

Section EdgeFacts.
Import KnowledgeGraphEngine.

Lemma PREREQUISITE_STRENGTH_bounded :
  map_Forall (fun (_ : string) row =>
                map_Forall (fun (_ : string) (v : Q) => 0 <= v /\ v <= 1) row)
             PREREQUISITE_STRENGTH.
Proof.
  unfold PREREQUISITE_STRENGTH. simpl.
  repeat (apply map_Forall_insert_2;
          [ repeat (apply map_Forall_insert_2;
                    [ split; discriminate | ]);
            apply map_Forall_empty | ]).
  apply map_Forall_empty.
Qed.

Lemma table_lookup_bounded a b v :
  PREREQUISITE_STRENGTH !! a ≫= (.!! b) = Some v -> 0 <= v /\ v <= 1.
Proof.
  intros Hv. destruct (PREREQUISITE_STRENGTH !! a) as [row|] eqn:Ea;
    [|discriminate].
  simpl in Hv.
  exact (PREREQUISITE_STRENGTH_bounded a row Ea b v Hv).
Qed.

(** The curriculum component lies in [0,1]. *)
Lemma prerequisiteStrength_bounds a b :
  0 <= prerequisiteStrength a b /\ prerequisiteStrength a b <= 1.
Proof.
  unfold prerequisiteStrength. cbv zeta.
  destruct (PREREQUISITE_STRENGTH !! Js.toLowerCase a ≫= _) as [v|] eqn:E1.
  - eapply table_lookup_bounded, E1.
  - destruct (PREREQUISITE_STRENGTH !! Js.toLowerCase b ≫= _) as [v|] eqn:E2.
    + eapply table_lookup_bounded, E2.
    + simpl. split; discriminate.
Qed.

Lemma countOccurrences_le a b sessions :
  ((countOccurrences a b sessions).1 <= (countOccurrences a b sessions).2)%nat.
Proof.
  unfold countOccurrences.
  assert (Hgen : forall acc : nat * nat,
             (acc.1 <= acc.2)%nat ->
             let r := foldl (fun '(coOccur, eitherOccur) concepts =>
                        let hasA := JsSet.has concepts a in
                        let hasB := JsSet.has concepts b in
                        if hasA || hasB
                        then (if hasA && hasB then S coOccur else coOccur,
                              S eitherOccur)
                        else (coOccur, eitherOccur)) acc sessions in
             (r.1 <= r.2)%nat).
  { induction sessions as [|s ss IH]; intros [co ei] Hacc; simpl in *.
    - exact Hacc.
    - apply IH.
      destruct (JsSet.has s a), (JsSet.has s b); simpl; lia. }
  apply Hgen. simpl. lia.
Qed.

(** The co-occurrence component lies in [0,1] and never divides by zero. *)
Lemma coOccurrenceRate_bounds a b logs :
  exists r, coOccurrenceRate a b logs = Ok r /\ 0 <= r /\ r <= 1.
Proof.
  unfold coOccurrenceRate. cbv zeta.
  pose proof (countOccurrences_le (Js.toLowerCase a) (Js.toLowerCase b)
                (JsMap.values (sessionsOf logs))) as Hle.
  destruct (countOccurrences _ _ _) as [co ei]. simpl in Hle.
  destruct (0 <? ei)%nat eqn:Hpos.
  - apply Nat.ltb_lt in Hpos.
    assert (Hei : 0 < inject_Z (Z.of_nat ei)).
    { change 0 with (inject_Z 0). rewrite <- Zlt_Qlt. lia. }
    assert (Hco : 0 <= inject_Z (Z.of_nat co)).
    { change 0 with (inject_Z 0). rewrite <- Zle_Qle. lia. }
    assert (Hcoei : inject_Z (Z.of_nat co) <= inject_Z (Z.of_nat ei)).
    { rewrite <- Zle_Qle. lia. }
    rewrite div_Ok by lra. eexists. split; [reflexivity|]. split.
    + apply Qle_shift_div_l; lra.
    + apply Qle_shift_div_r; lra.
  - exists 0. repeat split; discriminate.
Qed.

(** The confusion component never divides by zero and is non-negative. *)
Lemma confusionCorrelation_total a b logs :
  exists r, confusionCorrelation a b logs = Ok r /\ 0 <= r.
Proof.
  unfold confusionCorrelation. cbv zeta.
  destruct (length (filter (wrongOn a) logs) =? 0)%nat eqn:E.
  - exists 0. split; [reflexivity | discriminate].
  - apply Nat.eqb_neq in E.
    assert (Hlen : 0 < Js.len (filter (wrongOn a) logs)).
    { apply len_nonzero. intros Hnil. rewrite Hnil in E. contradiction. }
    rewrite div_Ok by lra. eexists. split; [reflexivity|].
    apply Qle_shift_div_l; [exact Hlen|].
    pose proof (len_nonneg
      (filter (fun l => wrongOn b l
                        ∧ JsSet.has (JsSet.of_list
                                       (dayOf <$> filter (wrongOn a) logs))
                                    (dayOf l) = true) logs)).
    lra.
Qed.

Lemma calculateEdgeWeight_total a b logs :
  exists w, calculateEdgeWeight a b logs = Ok w /\ 0 <= w.
Proof.
  unfold calculateEdgeWeight. cbv zeta.
  destruct (coOccurrenceRate_bounds a b logs) as [co [Eco [Hco0 Hco1]]].
  destruct (confusionCorrelation_total a b logs) as [cf [Ecf Hcf]].
  destruct (prerequisiteStrength_bounds a b) as [Hp0 Hp1].
  rewrite Eco, bind_Ok, Ecf, bind_Ok.
  eexists. split; [reflexivity|].
  unfold ALPHA, BETA, GAMMA. lra.
Qed.

(** C1 does not hold of the code.  The prerequisite and co-occurrence
    components lie in [0,1] ([prerequisiteStrength_bounds],
    [coOccurrenceRate_bounds]), but the confusion component divides a count
    of wrong answers on B by a count of wrong answers on A: on
    [repeatedMistake] it is 2, and the edge weight is 1.175, above 1. *)
Theorem confusionCorrelation_exceeds_one :
  exists confusion w,
    confusionCorrelation "limits" "derivatives" repeatedMistake = Ok confusion
    /\ confusion == 2
    /\ prerequisiteStrength "limits" "derivatives" == 0.95
    /\ coOccurrenceRate "limits" "derivatives" repeatedMistake = Ok 1
    /\ calculateEdgeWeight "limits" "derivatives" repeatedMistake = Ok w
    /\ w == 1.175
    /\ ~ w <= 1.
Proof.
  do 2 eexists.
  split; [vm_compute; reflexivity|].
  split; [reflexivity|].
  split; [vm_compute; reflexivity|].
  split; [vm_compute; reflexivity|].
  split; [vm_compute; reflexivity|].
  split; [reflexivity|].
  intros Hle. vm_compute in Hle. apply Hle. reflexivity.
Qed.

End EdgeFacts.

(** ** Insertion-ordered maps *)

Section JsMapFacts.
Context {K V : Type} `{EqDecision K}.
Implicit Types (m : JsMap.t K V) (k : K) (v : V).

Lemma jsmap_get_set m k v k' :
  JsMap.get (JsMap.set m k v) k' =
    if decide (k = k') then Some v else JsMap.get m k'.
Proof.
  induction m as [|[k0 v0] m IH]; simpl.
  - destruct (decide (k = k')); reflexivity.
  - destruct (decide (k0 = k)) as [->|Hne]; simpl.
    + destruct (decide (k = k')); reflexivity.
    + destruct (decide (k0 = k')) as [->|Hne'].
      * destruct (decide (k = k')); [congruence | reflexivity].
      * exact IH.
Qed.

Lemma jsmap_get_set_eq m k v : JsMap.get (JsMap.set m k v) k = Some v.
Proof. rewrite jsmap_get_set. destruct (decide (k = k)); congruence. Qed.

Lemma jsmap_get_set_is_Some m k v k' :
  is_Some (JsMap.get m k') -> is_Some (JsMap.get (JsMap.set m k v) k').
Proof.
  intros Hs. rewrite jsmap_get_set. destruct (decide (k = k')); eauto.
Qed.

Lemma jsmap_get_Some_elem m k v : JsMap.get m k = Some v -> (k, v) ∈ m.
Proof.
  induction m as [|[k0 v0] m IH]; simpl; [discriminate|].
  destruct (decide (k0 = k)) as [->|Hne].
  - intros [= ->]. left.
  - intros Hg. right. apply IH, Hg.
Qed.

Lemma jsmap_get_None_keys m k : JsMap.get m k = None <-> k ∉ JsMap.keys m.
Proof.
  unfold JsMap.keys. induction m as [|[k0 v0] m IH]; simpl.
  - split; [intros _; apply not_elem_of_nil | reflexivity].
  - rewrite not_elem_of_cons. destruct (decide (k0 = k)) as [->|Hne].
    + split; [discriminate | intros [Hk _]; exfalso; apply Hk; reflexivity].
    + rewrite IH. split; [intros Hn; split; [congruence | exact Hn] |].
      intros [_ Hn]; exact Hn.
Qed.

(** Setting a key that is not there appends the entry. *)
Lemma jsmap_set_fresh m k v :
  k ∉ JsMap.keys m -> JsMap.set m k v = m ++ [(k, v)].
Proof.
  unfold JsMap.keys. induction m as [|[k0 v0] m IH]; simpl; [reflexivity|].
  rewrite not_elem_of_cons. intros [Hne Hnotin].
  destruct (decide (k0 = k)); [congruence|]. rewrite IH by exact Hnotin.
  reflexivity.
Qed.

End JsMapFacts.

(** ** Louvain clustering *)

Section LouvainFacts.
Import KnowledgeGraphEngine.

Lemma imap_pair_from {A} (k : nat) (xs : list A) :
  imap (fun i x => (k + i, x)%nat) xs = zip (seq k (length xs)) xs.
Proof.
  revert k. induction xs as [|x xs IH]; intros k; simpl; [reflexivity|].
  rewrite Nat.add_0_r. f_equal.
  rewrite <- IH. apply imap_ext. intros i y _. simpl. f_equal. lia.
Qed.

Lemma initCommunities_from (acc : JsMap.t string com) (k : nat) nodes :
  NoDup nodes ->
  (forall n, n ∈ nodes -> n ∉ JsMap.keys acc) ->
  foldl (fun m '(i, n) => JsMap.set m n (Some i)) acc
        (zip (seq k (length nodes)) nodes)
  = acc ++ zip nodes (Some <$> seq k (length nodes)).
Proof.
  revert acc k. induction nodes as [|n nodes IH]; intros acc k Hnd Hfresh; simpl.
  - rewrite app_nil_r. reflexivity.
  - apply NoDup_cons in Hnd as [Hn Hnd].
    rewrite (jsmap_set_fresh acc n (Some k)) by (apply Hfresh; left).
    rewrite IH.
    + rewrite <- app_assoc. reflexivity.
    + exact Hnd.
    + intros n' Hn'. unfold JsMap.keys. rewrite fmap_app. simpl.
      rewrite elem_of_app, list_elem_of_singleton.
      intros [Hin | ->]; [|contradiction].
      eapply Hfresh; [right; exact Hn' | exact Hin].
Qed.

(** Without repeated node ids, node [i] starts in community [i]. *)
Lemma initCommunities_NoDup nodes :
  NoDup nodes ->
  initCommunities nodes = zip nodes (Some <$> seq 0 (length nodes)).
Proof.
  intros Hnd. unfold initCommunities.
  rewrite <- (imap_ext (fun i x => (0 + i, x)%nat) pair nodes)
    by (intros; reflexivity).
  rewrite imap_pair_from.
  rewrite initCommunities_from; [reflexivity | exact Hnd |].
  intros n _. apply not_elem_of_nil.
Qed.

Lemma foldl_set_assigned (entries : list (nat * string)) acc n :
  (exists i, (i, n) ∈ entries) \/ assigned acc n ->
  assigned (foldl (fun m '(i, n) => JsMap.set m n (Some i)) acc entries) n.
Proof.
  revert acc. induction entries as [|[i0 n0] entries IH]; intros acc Hn; simpl.
  - destruct Hn as [[i Hi] | Ha]; [|exact Ha].
    apply elem_of_nil in Hi. contradiction.
  - apply IH. destruct Hn as [[i Hi] | [c Hc]].
    + apply elem_of_cons in Hi as [[= -> ->] | Hi]; [|left; eauto].
      right. exists i0. apply jsmap_get_set_eq.
    + right. unfold assigned. rewrite jsmap_get_set.
      destruct (decide (n0 = n)); eauto.
Qed.

(** Every node is assigned initially, repeated ids included. *)
Lemma initCommunities_assigned nodes n :
  n ∈ nodes -> assigned (initCommunities nodes) n.
Proof.
  intros Hn. apply foldl_set_assigned. left.
  apply list_elem_of_lookup in Hn as [i Hi]. exists i.
  apply (elem_of_lookup_imap_2 pair nodes n i Hi).
Qed.

Section GreedyFacts.
Variable totalWeight : Q.
Variable nodes : list string.
Variable adj : JsMap.t string (JsMap.t string Q).
Variable degree : JsMap.t string Q.
Hypothesis totalWeight_nonzero : ~ totalWeight == 0.

Lemma considerCom_total currentCom kI degSumInCom best entry :
  is_Ok (considerCom totalWeight currentCom kI degSumInCom best entry).
Proof.
  unfold considerCom. destruct best as [bestGain bestCom].
  destruct entry as [c kIinC].
  assert (Hm2 : ~ 2 * totalWeight * (2 * totalWeight) == 0)
    by (intros Hz; apply totalWeight_nonzero; nra).
  divide. cbv zeta.
  destruct (Js.ltb _ _); eexists; reflexivity.
Qed.

(** A node step completes, and either leaves the state alone or moves the
    node and raises [improved]. *)
Lemma moveNode_cases st node :
  exists st', moveNode totalWeight nodes adj degree st node = Ok st'
    /\ (st' = st \/ exists c, st' = (JsMap.set st.1 node c, true)).
Proof.
  unfold moveNode. destruct st as [communities improved]. cbv zeta.
  destruct (foldO_Ok
    (considerCom totalWeight (comOf communities node)
       (default 0 (JsMap.get degree node)) (degSumInComOf nodes degree communities))
    (fun _ => True) (weightToComOf adj communities node))
    with (s := (0, comOf communities node)) as [best [Ebest _]].
  - intros s x _ _. destruct (considerCom_total (comOf communities node)
      (default 0 (JsMap.get degree node)) (degSumInComOf nodes degree communities) s x)
      as [s' Es']. eauto.
  - exact I.
  - rewrite Ebest, bind_Ok.
    destruct (decide (best.2 = comOf communities node)).
    + eexists. split; [reflexivity | left; reflexivity].
    + eexists. split; [reflexivity | right; eexists; reflexivity].
Qed.

(** What a pass preserves: every key stays, and a pass that ends with
    [improved = false] has changed nothing. *)
Definition passInv (c0 : JsMap.t string com) (st : JsMap.t string com * bool)
    : Prop :=
  (forall n, is_Some (JsMap.get c0 n) -> is_Some (JsMap.get st.1 n))
  /\ (st.2 = false -> st.1 = c0).

Lemma sweep_spec communities :
  exists st', sweep totalWeight nodes adj degree communities = Ok st'
    /\ passInv communities st'.
Proof.
  unfold sweep. apply foldO_Ok.
  - intros st node [Hkeys Hsame] _.
    destruct (moveNode_cases st node) as [st' [Est' [-> | [c ->]]]].
    + exists st. split; [exact Est' | split; assumption].
    + eexists. split; [exact Est'|]. split; simpl.
      * intros n Hn. apply jsmap_get_set_is_Some, Hkeys, Hn.
      * discriminate.
  - split; simpl; [intros n Hn; exact Hn | reflexivity].
Qed.

(** The loop completes within its iteration budget; when it stops with
    budget to spare, the pass it ran last moved no node. *)
Lemma greedyLoop_spec maxIterations improved communities :
  exists final passes,
    greedyLoop totalWeight nodes adj degree maxIterations improved communities
      = Ok (final, passes)
    /\ (passes <= maxIterations)%nat
    /\ (forall n, is_Some (JsMap.get communities n) ->
                  is_Some (JsMap.get final n))
    /\ ((passes < maxIterations)%nat ->
        (improved = false /\ final = communities)
        \/ sweep totalWeight nodes adj degree final = Ok (final, false)).
Proof.
  revert improved communities.
  induction maxIterations as [|remaining IH]; intros improved communities.
  - exists communities, O. simpl. destruct improved;
      (split; [reflexivity|]); (split; [lia|]); (split; [auto|]); lia.
  - destruct improved; simpl.
    + destruct (sweep_spec communities) as [[c1 imp1] [Es [Hkeys Hsame]]].
      rewrite Es, bind_Ok.
      destruct (IH imp1 c1) as [final [passes [El [Hle [Hk Hstop]]]]].
      rewrite El, bind_Ok. exists final, (S passes).
      split; [reflexivity|]. split; [lia|]. split.
      * intros n Hn. apply Hk, Hkeys, Hn.
      * intros Hlt. right.
        destruct Hstop as [[-> ->] | Hfix]; [lia | | exact Hfix].
        simpl in Hsame. rewrite Hsame in Es by reflexivity.
        rewrite Hsame by reflexivity. exact Es.
    + exists communities, O. split; [reflexivity|]. split; [lia|].
      split; [auto|]. intros _. left. split; reflexivity.
Qed.

(** The loop runs a next pass only while every pass so far has moved a
    node: its pass count is that of the first pass that moves none, or the
    budget. *)
Lemma greedyLoop_passes maxIterations communities :
  exists final passes last,
    greedyLoop totalWeight nodes adj degree maxIterations true communities
      = Ok (final, passes)
    /\ sweepsFrom totalWeight nodes adj degree passes (communities, true)
       = Ok (final, last)
    /\ ((0 < maxIterations)%nat -> (1 <= passes)%nat)
    /\ (last = false \/ passes = maxIterations)
    /\ (forall k, (k < passes)%nat ->
                  exists ck,
                    sweepsFrom totalWeight nodes adj degree k
                      (communities, true) = Ok (ck, true)).
Proof.
  revert communities.
  induction maxIterations as [|remaining IH]; intros communities.
  - exists communities, O, true. simpl. split; [reflexivity|].
    split; [reflexivity|]. split; [lia|]. split; [right; reflexivity|].
    intros k Hk. lia.
  - cbn [greedyLoop].
    destruct (sweep_spec communities) as [[c1 imp1] [Es _]].
    rewrite Es, bind_Ok. destruct imp1.
    + destruct (IH c1) as [final [passes [last [El [Et [_ [Hlast Hbefore]]]]]]].
      rewrite El, bind_Ok. exists final, (S passes), last.
      split; [reflexivity|]. split.
      { cbn [sweepsFrom fst]. rewrite Es, bind_Ok. exact Et. }
      split; [lia|]. split.
      { destruct Hlast as [Hl | Hp]; [left; exact Hl | right; lia]. }
      intros k Hk. destruct k as [|k'].
      * exists communities. reflexivity.
      * destruct (Hbefore k') as [ck Eck]; [lia|]. exists ck.
        cbn [sweepsFrom fst]. rewrite Es, bind_Ok. exact Eck.
    + assert (El : greedyLoop totalWeight nodes adj degree remaining false c1
                   = Ok (c1, O)) by (destruct remaining; reflexivity).
      rewrite El, bind_Ok. exists c1, 1%nat, false.
      split; [reflexivity|]. split.
      { cbn [sweepsFrom fst]. rewrite Es, bind_Ok. reflexivity. }
      split; [lia|]. split; [left; reflexivity|].
      intros k Hk. assert (k = O) by lia. subst k.
      exists communities. reflexivity.
Qed.

End GreedyFacts.

Lemma renumberStep_assigns cur idMap nextId n c :
  assigned (renumberStep (cur, idMap, nextId) (n, c)).1.1 n.
Proof.
  unfold renumberStep, JsMap.has.
  destruct (bool_decide (is_Some (JsMap.get idMap c))) eqn:E.
  - apply bool_decide_eq_true in E as [i Ei].
    exists i. simpl. rewrite jsmap_get_set_eq, Ei. reflexivity.
  - exists nextId. simpl. rewrite jsmap_get_set_eq, jsmap_get_set_eq.
    reflexivity.
Qed.

Lemma renumberStep_keeps cur idMap nextId n c n' :
  assigned cur n' -> assigned (renumberStep (cur, idMap, nextId) (n, c)).1.1 n'.
Proof.
  intros [i Hi]. destruct (decide (n = n')) as [<-|Hne].
  - apply renumberStep_assigns.
  - exists i. unfold renumberStep.
    destruct (JsMap.has idMap c); simpl; rewrite jsmap_get_set;
      (destruct (decide (n = n')); [contradiction | exact Hi]).
Qed.

Lemma renumber_fold_assigned entries st n :
  assigned st.1.1 n \/ (exists c, (n, c) ∈ entries) ->
  assigned (foldl renumberStep st entries).1.1 n.
Proof.
  revert st. induction entries as [|[n0 c0] entries IH]; intros st Hn; simpl.
  - destruct Hn as [Ha | [c Hc]]; [exact Ha|].
    apply elem_of_nil in Hc. contradiction.
  - apply IH. destruct st as [[cur idMap] nextId].
    destruct Hn as [Ha | [c Hc]].
    + left. apply renumberStep_keeps, Ha.
    + apply elem_of_cons in Hc as [[= -> ->] | Hc]; [|right; eauto].
      left. apply renumberStep_assigns.
Qed.

(** After renumbering, every key of the map carries a number. *)
Lemma renumber_assigned communities n :
  is_Some (JsMap.get communities n) -> assigned (renumber communities) n.
Proof.
  intros [c Hc]. unfold renumber.
  apply renumber_fold_assigned. right. exists c.
  apply jsmap_get_Some_elem, Hc.
Qed.

Lemma louvainRun_zero_weight nodes edges :
  totalWeightOf edges == 0 ->
  louvainRun nodes edges = Ok (initCommunities nodes, O).
Proof.
  intros Hz. unfold louvainRun, Js.eqb. cbv zeta.
  apply Qeq_bool_iff in Hz. rewrite Hz. reflexivity.
Qed.

Lemma louvainRun_nonzero nodes edges :
  ~ totalWeightOf edges == 0 ->
  louvainRun nodes edges =
    '(communities, passes) ←
      greedyLoop (totalWeightOf edges) nodes (buildAdj nodes edges)
        (buildDegree nodes (buildAdj nodes edges)) 20 true
        (initCommunities nodes);
    Ok (renumber communities, passes).
Proof.
  intros Hnz. unfold louvainRun, Js.eqb. cbv zeta.
  destruct (Qeq_bool (totalWeightOf edges) 0) eqn:E; [|reflexivity].
  apply Qeq_bool_iff in E. contradiction.
Qed.

(** The run of [louvainCluster], with its pass count. *)
Lemma louvainRun_spec nodes edges :
  exists communities passes,
    louvainRun nodes edges = Ok (communities, passes)
    /\ louvainCluster nodes edges = Ok communities
    /\ (passes <= 20)%nat
    /\ (forall n, n ∈ nodes -> assigned communities n)
    /\ (~ totalWeightOf edges == 0 ->
        exists raw,
          greedyLoop (totalWeightOf edges) nodes (buildAdj nodes edges)
            (buildDegree nodes (buildAdj nodes edges)) 20 true
            (initCommunities nodes) = Ok (raw, passes)
          /\ communities = renumber raw
          /\ ((passes < 20)%nat ->
              sweep (totalWeightOf edges) nodes (buildAdj nodes edges)
                (buildDegree nodes (buildAdj nodes edges)) raw
              = Ok (raw, false))).
Proof.
  unfold louvainCluster.
  destruct (Qeq_dec (totalWeightOf edges) 0) as [Hz | Hnz].
  - exists (initCommunities nodes), O.
    rewrite louvainRun_zero_weight by exact Hz.
    split; [reflexivity|]. split; [reflexivity|]. split; [lia|].
    split; [apply initCommunities_assigned | contradiction].
  - rewrite louvainRun_nonzero by exact Hnz.
    destruct (greedyLoop_spec (totalWeightOf edges) nodes
                (buildAdj nodes edges)
                (buildDegree nodes (buildAdj nodes edges)) Hnz
                20 true (initCommunities nodes))
      as [raw [passes [Eloop [Hle [Hkeys Hstop]]]]].
    exists (renumber raw), passes. rewrite Eloop, bind_Ok.
    split; [reflexivity|]. split; [reflexivity|]. split; [exact Hle|]. split.
    + intros n Hn. apply renumber_assigned, Hkeys.
      destruct (initCommunities_assigned nodes n Hn) as [c Hc].
      rewrite Hc. eauto.
    + intros _. exists raw. split; [reflexivity|]. split; [reflexivity|].
      intros Hlt. destruct (Hstop Hlt) as [[Himp _] | Hfix];
        [discriminate | exact Hfix].
Qed.

Lemma louvainCluster_total nodes edges : is_Ok (louvainCluster nodes edges).
Proof.
  destruct (louvainRun_spec nodes edges) as [c [_ [_ [Hc _]]]]. exists c. exact Hc.
Qed.

(** C4.  [louvainCluster] completes on every node list and edge list: its
    loop runs at most 20 passes, no quotient has a zero divisor, and every
    node receives a community number.  Either the loop is not entered and
    the initial communities are returned, or it runs at least one pass, and
    it runs a further pass only while every pass so far has moved a node:
    the state after each earlier pass has [improved = true], and the last
    pass either moved no node or was the 20th.  So the loop stops at the
    first pass that changes no community, and a pass that ends the loop
    before the 20th left the communities as they were.  For non-negative
    weights the loop is entered exactly when the total weight is not 0. *)
Theorem louvainCluster_terminates nodes edges :
  exists communities passes,
    louvainRun nodes edges = Ok (communities, passes)
    /\ louvainCluster nodes edges = Ok communities
    /\ (passes <= 20)%nat
    /\ (forall n, n ∈ nodes -> assigned communities n)
    /\ ((passes = 0%nat /\ communities = initCommunities nodes)
        \/ ((1 <= passes)%nat
            /\ let totalWeight := totalWeightOf edges in
               let adj := buildAdj nodes edges in
               let degree := buildDegree nodes adj in
               exists raw last,
                 greedyLoop totalWeight nodes adj degree 20 true
                   (initCommunities nodes) = Ok (raw, passes)
                 /\ communities = renumber raw
                 /\ sweepsFrom totalWeight nodes adj degree passes
                      (initCommunities nodes, true) = Ok (raw, last)
                 /\ (last = false \/ passes = 20%nat)
                 /\ (forall k, (k < passes)%nat ->
                               exists ck,
                                 sweepsFrom totalWeight nodes adj degree k
                                   (initCommunities nodes, true)
                                 = Ok (ck, true))
                 /\ ((passes < 20)%nat ->
                     sweep totalWeight nodes adj degree raw
                     = Ok (raw, false))))
    /\ (Forall (fun e => 0 <= Link.weight e) edges ->
        (passes = 0%nat <-> totalWeightOf edges == 0)).
Proof.
  destruct (louvainRun_spec nodes edges)
    as [communities [passes [Hrun [Hcluster [Hle [Hall Hloop]]]]]].
  exists communities, passes.
  split; [exact Hrun|]. split; [exact Hcluster|]. split; [exact Hle|].
  split; [exact Hall|].
  destruct (Qeq_dec (totalWeightOf edges) 0) as [Hz | Hnz].
  - rewrite (louvainRun_zero_weight nodes edges Hz) in Hrun.
    injection Hrun as <- <-.
    split; [left; split; reflexivity|].
    intros _. split; [intros _; exact Hz | reflexivity].
  - destruct (Hloop Hnz) as [raw [Eloop [Hraw Hstop]]].
    destruct (greedyLoop_passes (totalWeightOf edges) nodes
                (buildAdj nodes edges)
                (buildDegree nodes (buildAdj nodes edges)) Hnz
                20 (initCommunities nodes))
      as [final [passes' [last [Eloop' [Etrace [Hone [Hlast Hbefore]]]]]]].
    rewrite Eloop in Eloop'. injection Eloop' as <- <-.
    assert (H1 : (1 <= passes)%nat) by (apply Hone; lia).
    split.
    + right. split; [exact H1|]. cbv zeta.
      exists raw, last. split; [exact Eloop|]. split; [exact Hraw|].
      split; [exact Etrace|]. split; [exact Hlast|].
      split; [exact Hbefore | exact Hstop].
    + intros _. split; [intros Hp; lia | intros Hz; contradiction].
Qed.

Lemma louvainCluster_terminates_witness :
  let nodes := ["a"; "b"; "c"; "d"]%string in
  let edges := [ {| Link.source := "a"; Link.target := "b"; Link.weight := 1 |};
                 {| Link.source := "c"; Link.target := "d"; Link.weight := 1 |};
                 {| Link.source := "b"; Link.target := "c"; Link.weight := 0.1 |} ] in
  ~ totalWeightOf edges == 0
  /\ louvainRun nodes edges
     = Ok ([("a", Some 0); ("b", Some 0); ("c", Some 1); ("d", Some 1)]%string
             %nat, 2%nat)
  /\ exists communities passes,
       louvainRun nodes edges = Ok (communities, passes)
       /\ (passes <= 20)%nat
       /\ (forall n, n ∈ nodes -> assigned communities n).
Proof.
  intros nodes edges.
  split; [intros Hz; vm_compute in Hz; discriminate|].
  split; [vm_compute; reflexivity|].
  destruct (louvainCluster_terminates nodes edges)
    as [communities [passes [Hrun [_ [Hle [Hall _]]]]]].
  exists communities, passes. split; [exact Hrun|].
  split; [exact Hle | exact Hall].
Defined.

Lemma get_zip_NoDup {V} (nodes : list string) (vals : list V) i n :
  NoDup nodes -> length vals = length nodes -> nodes !! i = Some n ->
  JsMap.get (zip nodes vals) n = vals !! i.
Proof.
  revert vals i. induction nodes as [|n0 nodes IH]; intros vals i Hnd Hlen Hi.
  - discriminate.
  - destruct vals as [|v vals]; [discriminate|].
    apply NoDup_cons in Hnd as [Hn0 Hnd]. simpl.
    destruct i as [|i]; simpl in *.
    + injection Hi as ->. destruct (decide (n = n)); congruence.
    + destruct (decide (n0 = n)) as [->|Hne].
      * exfalso. apply Hn0. eapply list_elem_of_lookup_2, Hi.
      * apply IH; [exact Hnd | lia | exact Hi].
Qed.

(** C5 (as amended).  For a node list without repeated ids and an edge list
    of non-negative weights whose total is 0 (every weight is then 0, also
    for the rounded sum of the source), [louvainCluster] returns without
    dividing, node [i] is alone in community [i], and the ids are
    0, ..., n-1. *)
Theorem louvainCluster_zero_weight nodes edges :
  NoDup nodes ->
  Forall (fun e => 0 <= Link.weight e) edges ->
  totalWeightOf edges == 0 ->
  exists communities,
    louvainCluster nodes edges = Ok communities
    /\ JsMap.keys communities = nodes
    /\ JsMap.values communities = Some <$> seq 0 (length nodes)
    /\ (forall i n, nodes !! i = Some n ->
                    JsMap.get communities n = Some (Some i))
    /\ NoDup (JsMap.values communities)
    /\ denseIds communities.
Proof.
  intros Hnd _ Hz. unfold louvainCluster.
  rewrite louvainRun_zero_weight by exact Hz.
  rewrite initCommunities_NoDup by exact Hnd.
  exists (zip nodes (Some <$> seq 0 (length nodes))).
  split; [reflexivity|]. unfold denseIds, com.
  assert (Hlen : length (Some <$> seq 0 (length nodes)) = length nodes)
    by (rewrite length_fmap, length_seq; reflexivity).
  assert (Hvals : JsMap.values (zip nodes (Some <$> seq 0 (length nodes)))
                  = Some <$> seq 0 (length nodes)).
  { unfold JsMap.values. apply snd_zip.
    rewrite length_fmap, length_seq. lia. }
  split; [unfold JsMap.keys; apply fst_zip;
         rewrite length_fmap, length_seq; lia|].
  split; [exact Hvals|]. split; [|split].
  - intros i n Hi. rewrite (get_zip_NoDup nodes _ i n Hnd Hlen Hi).
    rewrite list_lookup_fmap, lookup_seq_lt; [reflexivity|].
    eapply lookup_lt_Some, Hi.
  - rewrite Hvals. apply NoDup_fmap_2; [|apply NoDup_seq].
    intros x y [= ->]. reflexivity.
  - unfold denseIds. rewrite Hvals.
    rewrite length_zip_with_l_eq
      by (rewrite length_fmap, length_seq; reflexivity).
    reflexivity.
Qed.

Lemma louvainCluster_zero_weight_witness :
  let nodes := ["limits"; "derivatives"; "algebra"]%string in
  let edges := [ {| Link.source := "limits"; Link.target := "derivatives";
                    Link.weight := 0 |};
                 {| Link.source := "derivatives"; Link.target := "algebra";
                    Link.weight := 0 |} ]%string in
  NoDup nodes /\ Forall (fun e => 0 <= Link.weight e) edges
  /\ totalWeightOf edges == 0
  /\ exists communities,
       louvainCluster nodes edges = Ok communities
       /\ JsMap.keys communities = nodes
       /\ JsMap.values communities = Some <$> seq 0 (length nodes)
       /\ (forall i n, nodes !! i = Some n ->
                       JsMap.get communities n = Some (Some i))
       /\ NoDup (JsMap.values communities)
       /\ denseIds communities.
Proof.
  intros nodes edges.
  assert (Hnd : NoDup nodes) by (apply (bool_decide_unpack _); vm_compute; exact I).
  assert (Hpos : Forall (fun e => 0 <= Link.weight e) edges)
    by (repeat constructor; discriminate).
  split; [exact Hnd|]. split; [exact Hpos|]. split; [reflexivity|].
  apply louvainCluster_zero_weight; [exact Hnd | exact Hpos | reflexivity].
Defined.

(** C5 fails as stated when a node id is repeated: the later index wins and
    the early return skips the renumbering, so the one community id is 1,
    not 0. *)
Lemma louvainCluster_repeated_node_not_dense :
  totalWeightOf [] == 0
  /\ louvainCluster ["a"; "a"]%string [] = Ok [("a"%string, Some 1%nat)]
  /\ ~ denseIds [("a"%string, Some 1%nat)].
Proof.
  split; [reflexivity|]. split; [vm_compute; reflexivity|].
  unfold denseIds. simpl. intros Hp.
  apply Permutation_singleton_l in Hp. discriminate.
Qed.

End LouvainFacts.

(** ** Graph builder and the clock *)

Section GraphFacts.
Import KnowledgeGraphEngine.

Lemma addEdge_total logs st ab : is_Ok (addEdge logs st ab).
Proof.
  unfold addEdge. destruct st as [edges edgeSet]. destruct ab as [a b].
  destruct (calculateEdgeWeight_total a b logs) as [w [Ew _]].
  rewrite Ew, bind_Ok.
  destruct (Js.ltb w 0.05); [eexists; reflexivity|].
  destruct (JsSet.has edgeSet _); [eexists; reflexivity|]. cbv zeta.
  destruct (coOccurrenceRate_bounds a b logs) as [co [Eco _]].
  destruct (confusionCorrelation_total a b logs) as [cf [Ecf _]].
  rewrite Eco, bind_Ok, Ecf, bind_Ok. eexists; reflexivity.
Qed.

Lemma buildEdges_total logs conceptIds : is_Ok (buildEdges logs conceptIds).
Proof.
  unfold buildEdges.
  match goal with
  | |- is_Ok (fst <$> foldO ?f ?s0 ?xs) =>
      destruct (foldO_Ok f (fun _ => True) xs) with (s := s0) as [st [Est _]]
  end.
  - intros s x _ _. destruct (addEdge_total logs s x) as [s' Es']. eauto.
  - exact I.
  - rewrite Est. eexists; reflexivity.
Qed.

(** Every concept of the map has at least one log. *)
Lemma conceptMapOf_nonempty logs key conceptLogs :
  JsMap.get (conceptMapOf logs) key = Some conceptLogs -> conceptLogs <> [].
Proof.
  unfold conceptMapOf.
  assert (Hgen : forall m : JsMap.t string (list SessionLog.t),
             (forall k v, JsMap.get m k = Some v -> v <> []) ->
             forall k v,
               JsMap.get
                 (foldl (fun conceptMap log =>
                    let key := Js.toLowerCase (SessionLog.concept log) in
                    JsMap.set conceptMap key
                      (default [] (JsMap.get conceptMap key) ++ [log]))
                    m logs) k = Some v -> v <> []).
  { induction logs as [|log logs IH]; intros m Hm k v; simpl.
    - apply Hm.
    - apply IH. intros k' v'. rewrite jsmap_get_set.
      destruct (decide (_ = k')).
      + intros [= <-]. intros Hnil. apply app_eq_nil in Hnil as [_ Hnil].
        discriminate.
      + apply Hm. }
  apply Hgen. intros k v. simpl. discriminate.
Qed.

(** The size of a node does not look at the forgetting risk. *)
Lemma getNodeState_size masteryPL cognitiveLoad forgettingRisk :
  ns_size (getNodeState masteryPL cognitiveLoad forgettingRisk)
  = 3 + masteryPL * 8 + cognitiveLoad * 2.
Proof.
  unfold getNodeState. cbv zeta.
  repeat match goal with
         | |- context [if ?b then _ else _] => destruct b
         end; reflexivity.
Qed.

Section Host.
Context `{MathLib}.

(** A node of a concept with logs is always built; its clock-free fields
    do not depend on the reading. *)
Lemma buildNode_clock conceptMap communities degreeMap now1 now2 id conceptLogs :
  JsMap.get conceptMap id = Some conceptLogs -> conceptLogs <> [] ->
  exists n1 n2,
    buildNode conceptMap communities degreeMap now1 id = Ok n1
    /\ buildNode conceptMap communities degreeMap now2 id = Ok n2
    /\ clockFree n1 = clockFree n2.
Proof.
  intros Hget Hne. unfold buildNode. rewrite Hget.
  pose proof (len_nonzero conceptLogs Hne) as Hlen.
  assert (H1 : ~ Js.len conceptLogs == 0) by lra.
  assert (H2 : ~ Js.max 1 (Js.len conceptLogs) == 0).
  { unfold Js.max. pose proof (Q.le_max_l 1 (Js.len conceptLogs)). lra. }
  assert (H3 : ~ Js.len conceptLogs * 60000 == 0) by lra.
  destruct (last conceptLogs) as [latestLog|] eqn:Elast.
  - divide. do 2 eexists. split; [reflexivity|]. split; [reflexivity|].
    unfold clockFree. cbn [GraphNode.id GraphNode.name GraphNode.category
      GraphNode.masteryPL GraphNode.community GraphNode.degree GraphNode.size].
    rewrite !getNodeState_size. reflexivity.
  - apply last_None in Elast. contradiction.
Qed.

Lemma mapO_related {A B C} (f1 f2 : A -> outcome B) (g : B -> C) xs :
  (forall x, x ∈ xs ->
     exists y1 y2, f1 x = Ok y1 /\ f2 x = Ok y2 /\ g y1 = g y2) ->
  exists l1 l2,
    mapO f1 xs = Ok l1 /\ mapO f2 xs = Ok l2 /\ g <$> l1 = g <$> l2.
Proof.
  induction xs as [|x xs IH]; intros Hrel; simpl.
  - exists [], []. repeat split.
  - destruct (Hrel x) as [y1 [y2 [E1 [E2 Hg]]]]; [left|].
    destruct IH as [l1 [l2 [El1 [El2 Hl]]]].
    { intros z Hz. apply Hrel. right. exact Hz. }
    rewrite E1, E2, !bind_Ok, El1, El2, !bind_Ok.
    exists (y1 :: l1), (y2 :: l2). split; [reflexivity|].
    split; [reflexivity|]. rewrite !fmap_cons, Hg, Hl. reflexivity.
Qed.

(** [buildGraph] completes for every log list and clock; two clocks give the
    same edges and the same clock-free node fields, and clocks that agree on
    every reading give the same graph. *)
Lemma buildGraph_clock now1 now2 logs :
  exists g1 g2,
    buildGraph now1 logs = Ok g1
    /\ buildGraph now2 logs = Ok g2
    /\ edges g1 = edges g2
    /\ clockFree <$> nodes g1 = clockFree <$> nodes g2
    /\ ((forall k, now1 k = now2 k) -> g1 = g2).
Proof.
  unfold buildGraph. cbv zeta.
  destruct (buildEdges_total logs (JsMap.keys (conceptMapOf logs)))
    as [es Ees].
  rewrite Ees, !bind_Ok.
  destruct (louvainCluster_total (JsMap.keys (conceptMapOf logs))
                                 (linkOf <$> es)) as [coms Ecoms].
  rewrite Ecoms, !bind_Ok.
  destruct (mapO_related
    (fun '(k, id) => buildNode (conceptMapOf logs) coms (degreeMapOf es)
                               (now1 k) id)
    (fun '(k, id) => buildNode (conceptMapOf logs) coms (degreeMapOf es)
                               (now2 k) id)
    clockFree (imap pair (JsMap.keys (conceptMapOf logs))))
    as [l1 [l2 [El1 [El2 Hfree]]]].
  - intros [k id] Hin.
    apply elem_of_lookup_imap_1 in Hin as [i [y [[= -> ->] Hy]]].
    apply list_elem_of_lookup_2 in Hy.
    destruct (JsMap.get (conceptMapOf logs) y) as [conceptLogs|] eqn:Eget.
    + apply (buildNode_clock _ _ _ _ _ _ conceptLogs Eget).
      eapply conceptMapOf_nonempty, Eget.
    + apply jsmap_get_None_keys in Eget. contradiction.
  - rewrite El1, El2, !bind_Ok. do 2 eexists.
    split; [reflexivity|]. split; [reflexivity|].
    split; [reflexivity|]. split; [exact Hfree|].
    intros Hsame. f_equal.
    assert (Heq : Ok l1 = Ok l2); [|congruence].
    rewrite <- El1, <- El2. apply mapO_ext.
    intros [k id] _. rewrite Hsame. reflexivity.
Qed.

(** C3 (as amended).  Four operations read a hidden source, and what they
    return is settled by their arguments only up to what they read.
    [updateStability] on a correct answer stores the clock reading in
    [lastReviewMs], while [pL], [stability] and [reviewCount] are the same
    for every reading; on an incorrect answer it returns the state as it
    is.  [createMasteryState] stores the reading in [lastReviewMs] beside
    the constants.  [buildGraph] reads the clock once per node and returns
    a graph for every clock; the edges and each node's id, name, category,
    mastery, community, degree and size are the same for all clocks.
    [difficultyToB] reads
    [Math.random()]: a larger value read never gives a smaller [b], the
    values 0 and 0.5 give different [b], and for a value between 0 and
    1 - 1e-15 the [b] stays inside the band of the difficulty asked for:
    [-1, -0.5) for easy, [-0.25, 0.25) for medium, [0.5, 1.5) for hard, so
    that [difficultyLabel] gives that difficulty back. *)
Theorem hidden_inputs_and_their_reach :
  (forall now1 now2 s correct,
     let s1 := MasteryEngine.updateStability now1 s correct in
     let s2 := MasteryEngine.updateStability now2 s correct in
     MasteryEngine.pL s1 = MasteryEngine.pL s2
     /\ MasteryEngine.stability s1 = MasteryEngine.stability s2
     /\ MasteryEngine.reviewCount s1 = MasteryEngine.reviewCount s2
     /\ (correct = true -> MasteryEngine.lastReviewMs s1 = now1)
     /\ (correct = false -> s1 = s))
  /\ (forall now,
        MasteryEngine.createMasteryState now
        = {| MasteryEngine.pL := MasteryEngine.P_INIT;
             MasteryEngine.stability := 1;
             MasteryEngine.reviewCount := 0;
             MasteryEngine.lastReviewMs := now |})
  /\ (forall now1 now2 logs,
        exists g1 g2,
          buildGraph now1 logs = Ok g1
          /\ buildGraph now2 logs = Ok g2
          /\ edges g1 = edges g2
          /\ clockFree <$> nodes g1 = clockFree <$> nodes g2)
  /\ (forall random1 random2 difficulty,
        random1 <= random2 ->
        IrtModel.difficultyToB random1 difficulty
        <= IrtModel.difficultyToB random2 difficulty)
  /\ (forall difficulty,
        IrtModel.difficultyToB 0 difficulty
        < IrtModel.difficultyToB 0.5 difficulty)
  /\ (forall random difficulty,
        0 <= random -> random <= 0.999999999999999 ->
        let b := IrtModel.difficultyToB random difficulty in
        match difficulty with
        | IrtModel.easy => -1 <= b /\ b < -0.5
        | IrtModel.medium => -0.25 <= b /\ b < 0.25
        | IrtModel.hard => 0.5 <= b /\ b < 1.5
        end
        /\ IrtModel.difficultyLabel b = difficulty).
Proof.
  split; [|split; [|split; [|split; [|split]]]].
  - intros now1 now2 s correct. cbv zeta.
    unfold MasteryEngine.updateStability.
    destruct correct; simpl; repeat split; try discriminate; congruence.
  - intros now. reflexivity.
  - intros now1 now2 logs.
    destruct (buildGraph_clock now1 now2 logs)
      as [g1 [g2 [E1 [E2 [He [Hn _]]]]]].
    exists g1, g2. repeat split; assumption.
  - intros random1 random2 difficulty Hle.
    destruct difficulty; unfold IrtModel.difficultyToB; lra.
  - intros difficulty.
    destruct difficulty; unfold IrtModel.difficultyToB; lra.
  - intros random difficulty Hlo Hhi. cbv zeta.
    unfold IrtModel.difficultyLabel.
    destruct difficulty; unfold IrtModel.difficultyToB.
    + split; [lra|].
      replace (Js.ltb _ (-0.5)) with true; [reflexivity|].
      symmetry. apply ltb_lt. lra.
    + split; [lra|].
      replace (Js.ltb _ (-0.5)) with false
        by (symmetry; apply Bool.not_true_iff_false; rewrite ltb_lt; lra).
      replace (Js.ltb _ 0.5) with true; [reflexivity|].
      symmetry. apply ltb_lt. lra.
    + split; [lra|].
      replace (Js.ltb _ (-0.5)) with false
        by (symmetry; apply Bool.not_true_iff_false; rewrite ltb_lt; lra).
      replace (Js.ltb _ 0.5) with false; [reflexivity|].
      symmetry. apply Bool.not_true_iff_false. rewrite ltb_lt. lra.
Qed.

End Host.

(** One hour and one day after the session of [repeatedMistake], the two
    graphs have the same edges and the same clock-free node fields. *)
Lemma hidden_inputs_and_their_reach_witness :
  exists g1 g2,
    buildGraph (fun _ => 3600000) repeatedMistake = Ok g1
    /\ buildGraph (fun _ => 86400000) repeatedMistake = Ok g2
    /\ edges g1 = edges g2
    /\ clockFree <$> nodes g1 = clockFree <$> nodes g2.
Proof.
  exact (proj1 (proj2 (proj2
           (hidden_inputs_and_their_reach (H := RationalMath.host))))
           (fun _ => 3600000) (fun _ => 86400000) repeatedMistake).
Defined.

(** C3 fails as stated: with the same arguments, one hour and one day after
    the session, [updateStability] stamps different review times and
    [buildGraph] gives the nodes different effective masteries. *)
Lemma results_vary_with_clock :
  MasteryEngine.updateStability 3600000 (MasteryEngine.createMasteryState 0) true
  <> MasteryEngine.updateStability 86400000 (MasteryEngine.createMasteryState 0)
       true
  /\ buildGraph (fun _ => 3600000) repeatedMistake
     <> buildGraph (fun _ => 86400000) repeatedMistake.
Proof.
  split.
  - intros E. apply (f_equal MasteryEngine.lastReviewMs) in E.
    vm_compute in E. discriminate.
  - intros E.
    apply (f_equal (fmap (fun g => GraphNode.effectiveMastery <$> nodes g)))
      in E.
    vm_compute in E. discriminate.
Qed.

End GraphFacts.


(** * Further properties *)

(** ** Mastery engine: the Bayesian update *)

Section MasteryMore.
Import MasteryEngine.

Lemma or_guard_nonzero x : ~ Js.or x 1e-9 == 0.
Proof.
  unfold Js.or. destruct (Qeq_bool x 0) eqn:E.
  - discriminate.
  - intros Hz. apply Qeq_bool_iff in Hz. congruence.
Qed.

Lemma clamp_bounds x :
  0.0001 <= Js.min 0.9999 (Js.max 0.0001 x)
  /\ Js.min 0.9999 (Js.max 0.0001 x) <= 0.9999.
Proof.
  unfold Js.min, Js.max. split.
  - apply Q.min_glb; [discriminate | apply Q.le_max_l].
  - apply Q.le_min_l.
Qed.

Lemma clamp_mono x y :
  x <= y ->
  Js.min 0.9999 (Js.max 0.0001 x) <= Js.min 0.9999 (Js.max 0.0001 y).
Proof.
  intros Hxy. unfold Js.min, Js.max.
  apply Q.min_le_compat_l, Q.max_le_compat_l, Hxy.
Qed.

Lemma updateMastery_clamped prevPL correct :
  exists r, updateMastery prevPL correct = Ok r
    /\ 0.0001 <= r /\ r <= 0.9999.
Proof.
  unfold updateMastery. cbv zeta.
  destruct correct; rewrite div_Ok by apply or_guard_nonzero;
    rewrite bind_Ok; eexists; (split; [reflexivity | apply clamp_bounds]).
Qed.

(** X1.  For every finite prior, also one outside [0,1], [updateMastery]
    returns a number: the [|| 1e-9] guard replaces a zero divisor, and the
    result is clamped to [0.0001, 0.9999]. *)
Theorem updateMastery_total_clamped prevPL correct :
  finiteNumber prevPL ->
  exists r, updateMastery prevPL correct = Ok r
    /\ 0.0001 <= r /\ r <= 0.9999.
Proof. intros _. exact (updateMastery_clamped prevPL correct). Qed.

(** At the prior -2/7 the divisor of a correct answer, 0.2 + 0.7 p, is
    zero, and the guard steps in. *)
Lemma updateMastery_total_clamped_witness :
  finiteNumber (-2 # 7)
  /\ (-2 # 7) * (1 - P_SLIP) + (1 - (-2 # 7)) * P_GUESS == 0
  /\ exists r, updateMastery (-2 # 7) true = Ok r
       /\ 0.0001 <= r /\ r <= 0.9999.
Proof.
  assert (Hfinite : finiteNumber (-2 # 7)) by (split; discriminate).
  split; [exact Hfinite|]. split; [reflexivity|].
  exact (updateMastery_total_clamped (-2 # 7) true Hfinite).
Defined.

(** The two posteriors for a prior in [0,1], with their divisors. *)
Lemma updateMastery_eq p correct :
  0 <= p -> p <= 1 ->
  updateMastery p correct =
    Ok (Js.min 0.9999
          (Js.max 0.0001
             (let post :=
                if correct
                then p * (1 - P_SLIP) / (p * (1 - P_SLIP) + (1 - p) * P_GUESS)
                else p * P_SLIP / (p * P_SLIP + (1 - p) * (1 - P_GUESS)) in
              post + (1 - post) * P_LEARN))).
Proof.
  intros H0 H1. unfold updateMastery. cbv zeta.
  assert (Hc : 0 < p * (1 - P_SLIP) + (1 - p) * P_GUESS)
    by (unfold P_SLIP, P_GUESS; lra).
  assert (Hw : 0 < p * P_SLIP + (1 - p) * (1 - P_GUESS))
    by (unfold P_SLIP, P_GUESS; lra).
  destruct correct; rewrite or_nonzero by lra; rewrite div_Ok by lra;
    reflexivity.
Qed.

Lemma updateMastery_order p :
  0 <= p -> p <= 1 ->
  exists rt rf,
    updateMastery p true = Ok rt /\ updateMastery p false = Ok rf
    /\ rf <= rt.
Proof.
  intros H0 H1. rewrite !updateMastery_eq by assumption.
  do 2 eexists. split; [reflexivity|]. split; [reflexivity|].
  apply clamp_mono. cbv zeta. unfold P_SLIP, P_GUESS, P_LEARN.
  set (dt := p * (1 - 0.1) + (1 - p) * 0.2).
  set (df := p * 0.1 + (1 - p) * (1 - 0.2)).
  assert (Hdt : 0 < dt) by (unfold dt; lra).
  assert (Hdf : 0 < df) by (unfold df; lra).
  assert (Hpost : p * 0.1 / df <= p * (1 - 0.1) / dt).
  { apply Qle_shift_div_l; [exact Hdt|].
    assert (E : p * 0.1 / df * dt == p * 0.1 * dt / df) by (field; lra).
    rewrite E. apply Qle_shift_div_r; [exact Hdf|].
    unfold dt, df. nra. }
  lra.
Qed.

Lemma updateMastery_incorrect_cases p :
  0 <= p -> p <= 1 ->
  exists r, updateMastery p false = Ok r
    /\ P_LEARN <= r
    /\ (p <= 0.1 -> p < r)
    /\ (0.103 <= p -> r < p).
Proof.
  intros H0 H1. rewrite updateMastery_eq by assumption.
  eexists. split; [reflexivity|]. cbv zeta.
  unfold P_SLIP, P_GUESS, P_LEARN.
  set (df := p * 0.1 + (1 - p) * (1 - 0.2)).
  assert (Hdf : 0 < df) by (unfold df; lra).
  set (post := p * 0.1 / df).
  assert (Hpost0 : 0 <= post).
  { unfold post. apply Qle_shift_div_l; [exact Hdf | lra]. }
  assert (Hpost1 : post <= 1).
  { unfold post. apply Qle_shift_div_r; [exact Hdf | unfold df; lra]. }
  assert (Hpdf : post * df == p * 0.1) by (unfold post; field; lra).
  unfold Js.min, Js.max. split; [|split].
  - apply Q.min_glb; [discriminate|].
    eapply Qle_trans; [|apply Q.le_max_r]. lra.
  - intros Hlow. apply Q.min_glb_lt; [lra|].
    apply Q.max_lt_iff. right.
    assert (Hge : p * 0.1 <= post * 0.8) by (unfold df in *; nra).
    lra.
  - intros Hhigh. apply Q.min_lt_iff.
    destruct (Qlt_le_dec 0.9999 p) as [Hceil | Hbelow]; [left; exact Hceil|].
    right. apply Q.max_lub_lt; [lra|].
    assert (Hprod : (post + (1 - post) * 0.09) * df < p * df).
    { assert (E : (post + (1 - post) * 0.09) * df
                  == 0.91 * (post * df) + 0.09 * df) by ring.
      rewrite E, Hpdf. unfold df. nra. }
    nra.
Qed.

(** X2.  The effect of an incorrect answer on a prior in [0,1]: the result is
    never above that of a correct answer and at least the learning rate
    0.09; it is above a prior of at most 0.1 and below a prior of at least
    0.103. *)
Theorem updateMastery_incorrect_effect p :
  0 <= p -> p <= 1 ->
  exists rt rf,
    updateMastery p true = Ok rt /\ updateMastery p false = Ok rf
    /\ rf <= rt
    /\ P_LEARN <= rf
    /\ (p <= 0.1 -> p < rf)
    /\ (0.103 <= p -> rf < p).
Proof.
  intros H0 H1.
  destruct (updateMastery_order p H0 H1) as [rt [rf [Et [Ef Hle]]]].
  destruct (updateMastery_incorrect_cases p H0 H1) as [r [Er Hr]].
  rewrite Ef in Er. injection Er as <-.
  exists rt, rf. split; [exact Et|]. split; [exact Ef|].
  split; [exact Hle | exact Hr].
Qed.

Lemma updateMastery_incorrect_effect_witness :
  0 <= 0.5 /\ 0.5 <= 1
  /\ exists rt rf,
       updateMastery 0.5 true = Ok rt /\ updateMastery 0.5 false = Ok rf
       /\ rf <= rt /\ P_LEARN <= rf
       /\ (0.5 <= 0.1 -> 0.5 < rf) /\ (0.103 <= 0.5 -> rf < 0.5).
Proof.
  split; [discriminate|]. split; [discriminate|].
  apply updateMastery_incorrect_effect; discriminate.
Defined.

(** One step of the galaxy page's update on a mastery in [0,1]. *)
Lemma bktUpdate_step p isCorrect :
  0 <= p -> p <= 1 ->
  exists r, Galaxy.bktUpdate p isCorrect = Ok r
    /\ Galaxy.BKT_P_LEARN <= r /\ r <= 1
    /\ (p == 1 -> r == 1).
Proof.
  intros H0 H1. unfold Galaxy.bktUpdate. cbv zeta.
  unfold Galaxy.BKT_P_SLIP, Galaxy.BKT_P_GUESS, Galaxy.BKT_P_LEARN.
  set (dt := p * (1 - 0.1) + (1 - p) * 0.2).
  set (df := p * 0.1 + (1 - p) * (1 - 0.2)).
  assert (Hdt : 0 < dt) by (unfold dt; lra).
  assert (Hdf : 0 < df) by (unfold df; lra).
  destruct isCorrect; rewrite div_Ok by lra; rewrite bind_Ok;
    eexists; (split; [reflexivity|]).
  - set (post := p * (1 - 0.1) / dt).
    assert (Hpost0 : 0 <= post)
      by (unfold post; apply Qle_shift_div_l; [exact Hdt | lra]).
    assert (Hpost1 : post <= 1)
      by (unfold post; apply Qle_shift_div_r; [exact Hdt | unfold dt; lra]).
    split; [lra|]. split; [lra|]. intros Hp.
    assert (Hone : 1 <= post)
      by (unfold post; apply Qle_shift_div_l; [exact Hdt | unfold dt; lra]).
    lra.
  - set (post := p * 0.1 / df).
    assert (Hpost0 : 0 <= post)
      by (unfold post; apply Qle_shift_div_l; [exact Hdf | lra]).
    assert (Hpost1 : post <= 1)
      by (unfold post; apply Qle_shift_div_r; [exact Hdf | unfold df; lra]).
    split; [lra|]. split; [lra|]. intros Hp.
    assert (Hone : 1 <= post)
      by (unfold post; apply Qle_shift_div_l; [exact Hdf | unfold df; lra]).
    lra.
Qed.

(** X3.  The galaxy page's update keeps a mastery in [0,1] there, never divides
    by zero on it, and lands in [0.3, 1]; it has no clamp, so a mastery of 1
    stays 1 whatever the answer. *)
Theorem bktUpdate_unit_interval p isCorrect :
  0 <= p -> p <= 1 ->
  exists r, Galaxy.bktUpdate p isCorrect = Ok r
    /\ Galaxy.BKT_P_LEARN <= r /\ r <= 1
    /\ (p == 1 -> r == 1).
Proof. exact (bktUpdate_step p isCorrect). Qed.

Lemma bktUpdate_unit_interval_witness :
  0 <= 1 /\ 1 <= 1
  /\ exists r, Galaxy.bktUpdate 1 false = Ok r
       /\ Galaxy.BKT_P_LEARN <= r /\ r <= 1 /\ (1 == 1 -> r == 1).
Proof.
  split; [discriminate|]. split; [discriminate|].
  apply bktUpdate_unit_interval; discriminate.
Defined.

(** X4.  Replaying any sequence of answers from the initial mastery never
    divides by zero; the result lies in [0.1, 1], and in [0.3, 1] once an
    answer has been replayed. *)
Theorem replayAnswers_range answers :
  exists r, Galaxy.replayAnswers answers = Ok r
    /\ Galaxy.BKT_P_INIT <= r /\ r <= 1
    /\ (answers <> [] -> Galaxy.BKT_P_LEARN <= r).
Proof.
  unfold Galaxy.replayAnswers.
  assert (Hstep : forall (xs : list bool) s,
             0 <= s -> s <= 1 ->
             exists r, foldO Galaxy.bktUpdate s xs = Ok r
               /\ (xs = [] -> r = s)
               /\ (xs <> [] -> Galaxy.BKT_P_LEARN <= r /\ r <= 1)).
  { induction xs as [|x xs IH]; intros s Hs0 Hs1; simpl.
    - exists s. split; [reflexivity|]. split; [reflexivity | congruence].
    - destruct (bktUpdate_step s x Hs0 Hs1) as [r1 [E1 [Hl [Hu _]]]].
      rewrite E1, bind_Ok.
      destruct (IH r1) as [r [Er [Hnil Hcons]]];
        [unfold Galaxy.BKT_P_LEARN in Hl; lra | exact Hu |].
      exists r. split; [exact Er|]. split; [discriminate|]. intros _.
      destruct xs as [|y ys].
      + rewrite (Hnil eq_refl). split; assumption.
      + apply Hcons. discriminate. }
  destruct (Hstep answers Galaxy.BKT_P_INIT) as [r [Er [Hnil Hcons]]];
    [discriminate | discriminate |].
  exists r. split; [exact Er|].
  destruct answers as [|a rest].
  - rewrite (Hnil eq_refl). split; [apply Qle_refl|].
    split; [discriminate | congruence].
  - destruct Hcons as [Hl Hu]; [discriminate|].
    split; [unfold Galaxy.BKT_P_LEARN, Galaxy.BKT_P_INIT in *; lra|].
    split; [exact Hu | intros _; exact Hl].
Qed.

(** X5.  With accuracy, consistency and guess probability in [0,1] and a
    non-negative response time, the confidence score lies in [0,1]; a
    response time above 1 counts as 1. *)
Theorem confidenceScore_bounds params :
  0 <= accuracy params -> accuracy params <= 1 ->
  0 <= normalizedResponseTime params ->
  0 <= consistency params -> consistency params <= 1 ->
  0 <= guessProbability params -> guessProbability params <= 1 ->
  0 <= confidenceScore params /\ confidenceScore params <= 1
  /\ (1 <= normalizedResponseTime params ->
      confidenceScore params
      == 0.4 * accuracy params + 0.25 * consistency params
         + 0.15 * (1 - guessProbability params)).
Proof.
  intros Ha0 Ha1 Ht Hc0 Hc1 Hg0 Hg1. unfold confidenceScore, Js.min.
  cbv zeta.
  pose proof (Q.le_min_l 1 (normalizedResponseTime params)) as Hmin1.
  assert (Hmin0 : 0 <= Qmin 1 (normalizedResponseTime params))
    by (apply Q.min_glb; [discriminate | exact Ht]).
  split; [lra|]. split; [lra|]. intros Hslow.
  rewrite (Q.min_l 1 (normalizedResponseTime params) Hslow). ring.
Qed.

Lemma confidenceScore_bounds_witness :
  let params := {| accuracy := 0.8; normalizedResponseTime := 1.5;
                   consistency := 0.6; guessProbability := 0.2 |} in
  0 <= confidenceScore params /\ confidenceScore params <= 1
  /\ (1 <= normalizedResponseTime params ->
      confidenceScore params
      == 0.4 * accuracy params + 0.25 * consistency params
         + 0.15 * (1 - guessProbability params)).
Proof.
  apply confidenceScore_bounds; discriminate.
Defined.

(** X6.  A higher mastery never gets a lower label, and the label of a mastery
    is "Mastered" exactly from 0.95 on. *)
Theorem masteryLabel_monotone p q :
  p <= q ->
  (labelRank (masteryLabel p) <= labelRank (masteryLabel q))%nat
  /\ (masteryLabel q = "Mastered"%string <-> 0.95 <= q).
Proof.
  intros Hpq. unfold masteryLabel, Js.leb.
  repeat match goal with
         | |- context [Qle_bool ?a ?b] =>
             let E := fresh "E" in
             destruct (Qle_bool a b) eqn:E;
             [apply Qle_bool_iff in E
             | assert (~ a <= b)
                 by (intros Hle; apply Qle_bool_iff in Hle; congruence);
               clear E]
         end;
    try (exfalso; lra);
    (split;
     [ vm_compute; lia
     | split; intros Hx;
       [ first [lra | discriminate Hx]
       | first [reflexivity | exfalso; lra] ] ]).
Qed.

Lemma masteryLabel_monotone_witness :
  0.3 <= 0.96
  /\ (labelRank (masteryLabel 0.3) <= labelRank (masteryLabel 0.96))%nat
  /\ (masteryLabel 0.96 = "Mastered"%string <-> 0.95 <= 0.96).
Proof.
  split; [discriminate|]. apply masteryLabel_monotone. discriminate.
Defined.

End MasteryMore.


(** ** The rational host library and the exponential *)

Section RationalMathFacts.
Import RationalMath.

Lemma roundUp_le_1 q : q <= 1 -> roundUp q <= 1.
Proof.
  intros Hq. unfold roundUp. apply Qle_shift_div_r; [reflexivity|].
  assert (Hc : (Qceiling (q * 1e15) <= Qceiling (inject_Z (10 ^ 15)))%Z).
  { apply Qceiling_resp_le.
    assert (E15 : 1e15 == 1000000000000000) by reflexivity.
    assert (E : inject_Z (10 ^ 15) == 1000000000000000) by reflexivity.
    rewrite E, E15. lra. }
  rewrite Qceiling_Z in Hc. rewrite Zle_Qle in Hc.
  eapply Qle_trans; [exact Hc|]. apply Qle_bool_iff. vm_compute. reflexivity.
Qed.

Lemma expSeries_ge_1 n k x : 0 <= x -> 1 <= expSeries n k x.
Proof.
  intros Hx. revert k. induction n as [|n IH]; intros k; simpl.
  - apply Qle_refl.
  - eapply Qle_trans; [|apply roundUp_ge].
    specialize (IH (Pos.succ k)).
    assert (Hk : 0 <= x / inject_Z (Z.pos k)).
    { apply Qle_shift_div_l; [reflexivity | lra]. }
    nra.
Qed.

Lemma expSeries_zero n k x : x == 0 -> expSeries n k x <= 1.
Proof.
  intros Hx. destruct n as [|n]; simpl.
  - apply Qle_refl.
  - apply roundUp_le_1.
    assert (Ha : x / inject_Z (Z.pos k) == 0)
      by (unfold Qdiv; rewrite Hx; ring).
    set (a := x / inject_Z (Z.pos k)) in *.
    set (e := expSeries n (Pos.succ k) x).
    assert (Hae : a * e == 0) by (rewrite Ha; ring).
    lra.
Qed.

Lemma square_ge_1 x : 1 <= x -> 1 <= square x.
Proof.
  intros Hx. unfold square. eapply Qle_trans; [|apply roundUp_ge]. nra.
Qed.

Lemma square_le_1 x : 1 <= x -> x <= 1 -> square x <= 1.
Proof.
  intros H1 H2. unfold square. apply roundUp_le_1. nra.
Qed.

Lemma expPos_ge_1 y : 0 <= y -> 1 <= expPos y.
Proof.
  intros Hy. unfold expPos.
  assert (H0 : 0 <= y / 16) by (apply Qle_shift_div_l; [reflexivity | lra]).
  pose proof (expSeries_ge_1 12 1 (y / 16) H0) as Hge.
  set (e0 := expSeries 12 1 (y / 16)) in *. clearbody e0.
  exact (square_ge_1 _ (square_ge_1 _ (square_ge_1 _ (square_ge_1 _ Hge)))).
Qed.

Lemma expPos_zero y : y == 0 -> expPos y <= 1.
Proof.
  intros Hy. unfold expPos.
  assert (H16 : y / 16 == 0) by (rewrite Hy; reflexivity).
  assert (H0 : 0 <= y / 16) by (rewrite H16; discriminate).
  pose proof (expSeries_ge_1 12 1 (y / 16) H0) as Hge.
  pose proof (expSeries_zero 12 1 (y / 16) H16) as Hle.
  set (e0 := expSeries 12 1 (y / 16)) in *. clearbody e0.
  assert (Hg1 := square_ge_1 e0 Hge).
  assert (Hl1 := square_le_1 e0 Hge Hle).
  assert (Hg2 := square_ge_1 _ Hg1).
  assert (Hl2 := square_le_1 _ Hg1 Hl1).
  assert (Hg3 := square_ge_1 _ Hg2).
  assert (Hl3 := square_le_1 _ Hg2 Hl2).
  exact (square_le_1 _ Hg3 Hl3).
Qed.

(** The host exponential is at least 1 on non-negative arguments. *)
Lemma host_exp_ge_1 x : 0 <= x -> 1 <= exp x.
Proof.
  intros Hx. unfold exp.
  destruct (Qle_bool 0 x) eqn:E.
  - eapply Qle_trans; [apply expPos_ge_1, Hx | apply roundUp_ge].
  - apply Qle_bool_iff in Hx. congruence.
Qed.

(** The host exponential is at most 1 on non-positive arguments. *)
Lemma host_exp_le_1 x : x <= 0 -> exp x <= 1.
Proof.
  intros Hx. unfold exp. apply roundUp_le_1.
  destruct (Qle_bool 0 x) eqn:E.
  - apply Qle_bool_iff in E. apply expPos_zero. lra.
  - assert (Hpos : 1 <= expPos (- x)) by (apply expPos_ge_1; lra).
    apply Qle_shift_inv_r; lra.
Qed.

End RationalMathFacts.

(** ** Mastery engine: forgetting *)

Section ForgettingFacts.
Import MasteryEngine.
Context `{MathLib}.

Lemma max_zero_nonpos d : d <= 0 -> Js.max 0 d = 0.
Proof.
  intros Hd. unfold Js.max, Qmax, GenericMinMax.gmax.
  destruct (0 ?= d) eqn:E; try reflexivity.
  apply Qlt_alt in E. lra.
Qed.

(** X7.  For a state with positive stability and mastery at most 1, no divisor of
    the forgetting curve is zero; an elapsed time below zero counts as zero;
    and when the exponential is at most 1 on non-positive arguments, the
    retention lies in [0,1] and the effective mastery between 0 and the
    mastery. *)
Theorem forgettingDecay_retention state daysSinceReview difficulty :
  (forall x, x <= 0 -> Math_exp x <= 1) ->
  0 < stability state -> pL state <= 1 ->
  exists R e,
    forgettingDecay state daysSinceReview difficulty = Ok R
    /\ 0 <= R /\ R <= 1
    /\ (daysSinceReview <= 0 ->
        forgettingDecay state daysSinceReview difficulty
        = forgettingDecay state 0 difficulty)
    /\ effectiveMastery state daysSinceReview = Ok e
    /\ 0 <= e
    /\ (0 <= pL state -> e <= pL state).
Proof.
  intros Hexp Hs Hp. unfold effectiveMastery, forgettingDecay. cbv zeta.
  assert (Hden : 0 < stability state * (1 + (1 - pL state))) by nra.
  assert (Hnz : ~ stability state * (1 + (1 - pL state)) == 0) by lra.
  rewrite !div_Ok by exact Hnz. rewrite !bind_Ok.
  set (q := - Js.max 0 daysSinceReview
            / (stability state * (1 + (1 - pL state)))).
  assert (Hq : q <= 0).
  { unfold q. apply Qle_shift_div_r; [exact Hden|].
    pose proof (Q.le_max_l 0 daysSinceReview). unfold Js.max. lra. }
  pose proof (Math_exp_nonneg q) as HR0. pose proof (Hexp q Hq) as HR1.
  do 2 eexists. split; [reflexivity|]. split; [exact HR0|].
  split; [exact HR1|]. split; [|split; [reflexivity|split]].
  - intros Hd. unfold q. rewrite (max_zero_nonpos daysSinceReview Hd).
    rewrite (max_zero_nonpos 0) by apply Qle_refl. reflexivity.
  - apply Q.le_max_l.
  - intros Hp0. unfold Js.max. apply Q.max_lub; [exact Hp0 | nra].
Qed.

End ForgettingFacts.

Lemma forgettingDecay_retention_witness :
  let state := {| MasteryEngine.pL := 0.6; MasteryEngine.stability := 2;
                  MasteryEngine.reviewCount := 3;
                  MasteryEngine.lastReviewMs := 0 |} in
  (forall x, x <= 0 -> Math_exp x <= 1)
  /\ 0 < MasteryEngine.stability state /\ MasteryEngine.pL state <= 1
  /\ exists R e,
       MasteryEngine.forgettingDecay state (-3) 0.5 = Ok R
       /\ 0 <= R /\ R <= 1
       /\ (-3 <= 0 ->
           MasteryEngine.forgettingDecay state (-3) 0.5
           = MasteryEngine.forgettingDecay state 0 0.5)
       /\ MasteryEngine.effectiveMastery state (-3) = Ok e
       /\ 0 <= e
       /\ (0 <= MasteryEngine.pL state -> e <= MasteryEngine.pL state).
Proof.
  intros state.
  split; [exact host_exp_le_1|]. split; [reflexivity|].
  split; [discriminate|].
  apply (forgettingDecay_retention (H := RationalMath.host));
    [exact host_exp_le_1 | reflexivity | discriminate].
Defined.


(** ** Behavioural analyzer: guessing, cheating and the Socratic rules *)

Section BehaviorMore.
Import BehavioralAnalyzer.

Lemma ltb_ge x y : Js.ltb x y = false <-> y <= x.
Proof.
  unfold Js.ltb. rewrite negb_false_iff. apply Qle_bool_iff.
Qed.

Lemma leb_le x y : Js.leb x y = true <-> x <= y.
Proof. apply Qle_bool_iff. Qed.

Lemma leb_gt x y : Js.leb x y = false <-> y < x.
Proof.
  unfold Js.leb. destruct (Qle_bool x y) eqn:E.
  - apply Qle_bool_iff in E. split; [discriminate | intros; lra].
  - split; [intros _ | reflexivity].
    apply Qnot_le_lt. intros Hle. apply Qle_bool_iff in Hle. congruence.
Qed.

Lemma EXPECTED_TIME_MS_lookup difficulty :
  default 25000 (EXPECTED_TIME_MS !! difficulty)
  = if decide (difficulty = "easy"%string) then 15000
    else if decide (difficulty = "hard"%string) then 40000
    else 25000.
Proof.
  unfold EXPECTED_TIME_MS. simpl.
  destruct (decide (difficulty = "easy"%string)) as [->|He];
    [reflexivity|].
  rewrite lookup_insert_ne by congruence.
  destruct (decide (difficulty = "medium"%string)) as [->|Hm].
  - rewrite lookup_insert_eq. reflexivity.
  - rewrite lookup_insert_ne by congruence.
    destruct (decide (difficulty = "hard"%string)) as [->|Hh].
    + rewrite lookup_insert_eq. reflexivity.
    + rewrite lookup_insert_ne by congruence. reflexivity.
Qed.

(** In exact arithmetic the flag is raised exactly below 15000 ms. *)
Lemma speedAnomalyFlag_exact responseTimeMs difficulty :
  0 <= responseTimeMs ->
  (speedAnomalyFlag responseTimeMs difficulty = true
   <-> difficulty = "hard"%string /\ responseTimeMs < 15000).
Proof.
  intros Hrt. unfold speedAnomalyFlag. cbv zeta.
  rewrite EXPECTED_TIME_MS_lookup, ltb_lt. unfold SIGMA_TIME_MS.
  assert (Hz : forall e, 2.5 < (e - responseTimeMs) / 10000
                         <-> responseTimeMs < e - 25000).
  { intros e. split; intros Hlt.
    - assert (E : e - responseTimeMs
                  == (e - responseTimeMs) / 10000 * 10000) by (field; lra).
      lra.
    - apply Qlt_shift_div_l; [reflexivity | lra]. }
  rewrite Hz.
  destruct (decide (difficulty = "easy"%string)) as [->|He].
  - split; [intros; lra | intros [Hd _]; discriminate].
  - destruct (decide (difficulty = "hard"%string)) as [->|Hh].
    + split; [intros; split; [reflexivity | lra] | intros [_ Hlt]; lra].
    + split; [intros; lra | intros [Hd _]; contradiction].
Qed.

(** X8.  For a non-negative response time, the speed flag is raised only on a
    "hard" question answered in less than 15000 ms (the expected times of
    the other difficulties are within 2.5 deviations of zero), and it is
    raised on every "hard" question answered in at most 14999.999 ms. *)
Theorem speedAnomalyFlag_only_hard responseTimeMs difficulty :
  0 <= responseTimeMs ->
  (speedAnomalyFlag responseTimeMs difficulty = true ->
   difficulty = "hard"%string /\ responseTimeMs < 15000)
  /\ (difficulty = "hard"%string -> responseTimeMs <= 14999.999 ->
      speedAnomalyFlag responseTimeMs difficulty = true).
Proof.
  intros Hrt.
  pose proof (speedAnomalyFlag_exact responseTimeMs difficulty Hrt) as Hiff.
  split.
  - apply Hiff.
  - intros Hhard Hfast. apply Hiff. split; [exact Hhard | lra].
Qed.

Lemma speedAnomalyFlag_only_hard_witness :
  0 <= 2000
  /\ speedAnomalyFlag 2000 "hard" = true
  /\ speedAnomalyFlag 0 "easy" = false.
Proof.
  split; [discriminate|]. split; [|reflexivity].
  apply (proj2 (speedAnomalyFlag_only_hard 2000 "hard" ltac:(discriminate)));
    [reflexivity | discriminate].
Defined.

Lemma detectCheating_two_signals signals :
  exists r, detectCheating signals = Ok r
    /\ tab (breakdown r) <= 1 /\ paste (breakdown r) <= 1
    /\ fastHard (breakdown r) <= 1
    /\ score r <= 1
    /\ (flagged r = true ->
        (0 < tab (breakdown r) /\ 0 < paste (breakdown r))
        \/ (0 < tab (breakdown r) /\ 0 < fastHard (breakdown r))
        \/ (0 < paste (breakdown r) /\ 0 < fastHard (breakdown r))).
Proof.
  unfold detectCheating, Js.eqb. cbv zeta.
  destruct (Qeq_bool (totalQuestions signals) 0) eqn:E.
  - eexists. split; [reflexivity|]. simpl.
    repeat (split; [discriminate|]). discriminate.
  - assert (Hq : ~ totalQuestions signals == 0).
    { intros Hz. apply Qeq_bool_iff in Hz. congruence. }
    assert (Hq2 : ~ totalQuestions signals * 2 == 0)
      by (intros Hz; apply Hq; lra).
    assert (Hmax : ~ Js.max 1 (totalQuestions signals * 0.3) == 0).
    { unfold Js.max.
      pose proof (Q.le_max_l 1 (totalQuestions signals * 0.3)). lra. }
    divide. eexists. split; [reflexivity|]. simpl. unfold Js.min.
    set (t := Qmin 1 (tabSwitches signals / (totalQuestions signals * 2))).
    set (p := Qmin 1 (pasteEvents signals / totalQuestions signals)).
    set (f := Qmin 1 (fastHardAnswers signals
                      / Js.max 1 (totalQuestions signals * 0.3))).
    assert (Ht : t <= 1) by apply Q.le_min_l.
    assert (Hp : p <= 1) by apply Q.le_min_l.
    assert (Hf : f <= 1) by apply Q.le_min_l.
    split; [exact Ht|]. split; [exact Hp|]. split; [exact Hf|].
    split; [apply Q.le_min_l|].
    intros Hflag. apply ltb_lt in Hflag.
    destruct (Qlt_le_dec 0 t), (Qlt_le_dec 0 p), (Qlt_le_dec 0 f);
      try (left; split; assumption);
      try (right; left; split; assumption);
      try (right; right; split; assumption);
      exfalso; lra.
Qed.

Lemma detectCheating_nonneg signals :
  0 <= tabSwitches signals -> 0 <= pasteEvents signals ->
  0 <= fastHardAnswers signals -> 0 < totalQuestions signals ->
  exists r, detectCheating signals = Ok r
    /\ 0 <= tab (breakdown r) /\ 0 <= paste (breakdown r)
    /\ 0 <= fastHard (breakdown r)
    /\ 0 <= score r /\ score r <= 1
    /\ score r == 0.3 * tab (breakdown r) + 0.3 * paste (breakdown r)
                  + 0.4 * fastHard (breakdown r)
    /\ (flagged r = true <-> 0.5 < score r).
Proof.
  intros Ht0 Hp0 Hf0 Hq.
  unfold detectCheating, Js.eqb. cbv zeta.
  destruct (Qeq_bool (totalQuestions signals) 0) eqn:E.
  { apply Qeq_bool_iff in E. lra. }
  assert (Hq1 : ~ totalQuestions signals == 0) by lra.
  assert (Hq2 : ~ totalQuestions signals * 2 == 0) by lra.
  assert (Hmax1 : 1 <= Js.max 1 (totalQuestions signals * 0.3))
    by apply Q.le_max_l.
  assert (Hmax : ~ Js.max 1 (totalQuestions signals * 0.3) == 0) by lra.
  divide. eexists. split; [reflexivity|]. simpl. unfold Js.min.
  set (t := Qmin 1 (tabSwitches signals / (totalQuestions signals * 2))).
  set (p := Qmin 1 (pasteEvents signals / totalQuestions signals)).
  set (f := Qmin 1 (fastHardAnswers signals
                    / Js.max 1 (totalQuestions signals * 0.3))).
  assert (Ht : t <= 1) by apply Q.le_min_l.
  assert (Hp : p <= 1) by apply Q.le_min_l.
  assert (Hf : f <= 1) by apply Q.le_min_l.
  assert (Ht' : 0 <= t).
  { apply Q.min_glb; [discriminate|]. apply Qle_shift_div_l; lra. }
  assert (Hp' : 0 <= p).
  { apply Q.min_glb; [discriminate|]. apply Qle_shift_div_l; lra. }
  assert (Hf' : 0 <= f).
  { apply Q.min_glb; [discriminate|]. apply Qle_shift_div_l; lra. }
  assert (Hs : Qmin 1 (0.3 * t + 0.3 * p + 0.4 * f)
               == 0.3 * t + 0.3 * p + 0.4 * f) by (apply Q.min_r; lra).
  split; [exact Ht'|]. split; [exact Hp'|]. split; [exact Hf'|].
  rewrite Hs. split; [lra|]. split; [lra|]. split; [reflexivity|].
  apply ltb_lt.
Qed.

(** X9.  [detectCheating] never faults, and no component or score exceeds 1.  A
    session is flagged only when at least two of the three signals
    contribute, since no weight reaches 0.5.  With non-negative counts and
    at least one question, the components and the score lie in [0,1], the
    score is their weighted sum, and the session is flagged exactly when
    the score exceeds 0.5. *)
Theorem detectCheating_needs_two_signals signals :
  exists r, detectCheating signals = Ok r
    /\ tab (breakdown r) <= 1 /\ paste (breakdown r) <= 1
    /\ fastHard (breakdown r) <= 1
    /\ score r <= 1
    /\ (flagged r = true ->
        (0 < tab (breakdown r) /\ 0 < paste (breakdown r))
        \/ (0 < tab (breakdown r) /\ 0 < fastHard (breakdown r))
        \/ (0 < paste (breakdown r) /\ 0 < fastHard (breakdown r)))
    /\ (0 <= tabSwitches signals -> 0 <= pasteEvents signals ->
        0 <= fastHardAnswers signals -> 0 < totalQuestions signals ->
        0 <= tab (breakdown r) /\ 0 <= paste (breakdown r)
        /\ 0 <= fastHard (breakdown r)
        /\ 0 <= score r
        /\ score r == 0.3 * tab (breakdown r) + 0.3 * paste (breakdown r)
                      + 0.4 * fastHard (breakdown r)
        /\ (flagged r = true <-> 0.5 < score r)).
Proof.
  destruct (detectCheating_two_signals signals)
    as [r [E [Ht [Hp [Hf [Hs Hflag]]]]]].
  exists r. split; [exact E|].
  split; [exact Ht|]. split; [exact Hp|]. split; [exact Hf|].
  split; [exact Hs|]. split; [exact Hflag|].
  intros H1 H2 H3 H4.
  destruct (detectCheating_nonneg signals H1 H2 H3 H4) as [r' [E' Hr']].
  rewrite E in E'. injection E' as <-. tauto.
Qed.

(** Case analysis on every comparison of a goal, each turned into the
    inequality it decides. *)
Ltac split_comparisons :=
  repeat match goal with
         | |- context [Js.ltb ?a ?b] =>
             let E := fresh "E" in
             destruct (Js.ltb a b) eqn:E;
             [apply ltb_lt in E | apply ltb_ge in E]
         | |- context [Js.leb ?a ?b] =>
             let E := fresh "E" in
             destruct (Js.leb a b) eqn:E;
             [apply leb_le in E | apply leb_gt in E]
         end.

(** In exact arithmetic the trigger is decided by four rules. *)
Lemma shouldTriggerSocratic_exact params :
  shouldTrigger (shouldTriggerSocratic params) = true
  <-> mode params = practice
      /\ currentPL params <= 0.9
      /\ (forall t, timeRemainingMs params = Some t -> 60000 <= t)
      /\ (0.6 < guessProbability params
          \/ 2 <= wrongStreakOnConcept params
          \/ currentPL params - prevPL params < -0.15
          \/ (confidenceScore params < 0.3 /\ isCorrect params = true)).
Proof.
  unfold shouldTriggerSocratic, tooLittleTime.
  destruct (decide (mode params = exam)) as [Hexam | Hmode].
  { simpl. split; [discriminate | intros [Hp _]; congruence]. }
  assert (Hpractice : mode params = practice)
    by (destruct (mode params); congruence).
  destruct (timeRemainingMs params) as [t|] eqn:Htime;
    destruct (isCorrect params) eqn:Hcorrect;
    split_comparisons; simpl;
    (split;
     [ try discriminate; intros _;
       (split; [exact Hpractice|]); (split; [assumption|]);
       (split; [intros t' Ht'; first [discriminate Ht' | injection Ht' as <-; assumption]|]);
       first [ left; assumption
             | right; left; assumption
             | right; right; left; assumption
             | right; right; right; split; [assumption | reflexivity] ]
     | try reflexivity;
       intros [_ [Hpl [Ht Hrules]]];
       try (exfalso; lra);
       try (specialize (Ht _ eq_refl); exfalso; lra);
       destruct Hrules as [Hr | [Hr | [Hr | [Hr Hc]]]];
       first [exfalso; lra | discriminate Hc] ]).
Qed.

(** X10.  For finite masteries, the Socratic dialogue is triggered only
    outside exam mode, with mastery at most 0.9 and no shortage of time, when
    one of four rules holds: guess probability above 0.6, two wrong answers
    in a row, a mastery drop of more than 0.15, or a correct answer with
    confidence below 0.3; and under the same conditions it is triggered.
    The drop is computed by a subtraction, so it is compared with a margin
    of 1e-9 on either side of 0.15.  The "learning zone" rule never decides
    the trigger. *)
Theorem shouldTriggerSocratic_rules params :
  finiteNumber (currentPL params) -> finiteNumber (prevPL params) ->
  let allowed :=
    mode params <> exam
    /\ currentPL params <= 0.9
    /\ (forall t, timeRemainingMs params = Some t -> 60000 <= t) in
  let ruleBesidesDrop :=
    0.6 < guessProbability params
    \/ 2 <= wrongStreakOnConcept params
    \/ (confidenceScore params < 0.3 /\ isCorrect params = true) in
  (shouldTrigger (shouldTriggerSocratic params) = true ->
   allowed
   /\ (ruleBesidesDrop
       \/ currentPL params - prevPL params < -0.149999999))
  /\ (allowed ->
      ruleBesidesDrop \/ currentPL params - prevPL params < -0.150000001 ->
      shouldTrigger (shouldTriggerSocratic params) = true).
Proof.
  intros _ _. cbv zeta.
  pose proof (shouldTriggerSocratic_exact params) as Hiff. split.
  - intros Htrigger. apply Hiff in Htrigger as [Hm [Hpl [Ht Hrules]]].
    split; [split; [congruence | split; [exact Hpl | exact Ht]]|].
    destruct Hrules as [Hr | [Hr | [Hr | Hr]]].
    + left. left. exact Hr.
    + left. right. left. exact Hr.
    + right. lra.
    + left. right. right. exact Hr.
  - intros [Hm [Hpl Ht]] Hrules. apply Hiff.
    split; [destruct (mode params); congruence|].
    split; [exact Hpl|]. split; [exact Ht|].
    destruct Hrules as [[Hr | [Hr | Hr]] | Hr].
    + left. exact Hr.
    + right. left. exact Hr.
    + right. right. right. exact Hr.
    + right. right. left. lra.
Qed.

(** X11.  The decision is coherent: a priority above "low" comes with a trigger,
    a trigger comes with at least one reason, a "high" priority with at
    least two, and no decision carries more than four reasons. *)
Theorem shouldTriggerSocratic_priority params :
  let decision := shouldTriggerSocratic params in
  (priority decision <> low -> shouldTrigger decision = true)
  /\ (shouldTrigger decision = true -> reasons decision <> [])
  /\ (priority decision = high -> (2 <= length (reasons decision))%nat)
  /\ (length (reasons decision) <= 4)%nat.
Proof.
  cbv zeta. unfold shouldTriggerSocratic, tooLittleTime.
  destruct (decide (mode params = exam));
    [simpl; repeat split; try congruence; try discriminate; lia|].
  destruct (timeRemainingMs params) as [t|];
    destruct (isCorrect params);
    split_comparisons; simpl;
    repeat split; try congruence; try discriminate; lia.
Qed.


End BehaviorMore.

Lemma shouldTriggerSocratic_rules_witness :
  finiteNumber (BehavioralAnalyzer.currentPL masteryDrop)
  /\ finiteNumber (BehavioralAnalyzer.prevPL masteryDrop)
  /\ BehavioralAnalyzer.currentPL masteryDrop
     - BehavioralAnalyzer.prevPL masteryDrop < -0.150000001
  /\ BehavioralAnalyzer.shouldTrigger
       (BehavioralAnalyzer.shouldTriggerSocratic masteryDrop) = true.
Proof.
  assert (H1 : finiteNumber (BehavioralAnalyzer.currentPL masteryDrop))
    by (split; discriminate).
  assert (H2 : finiteNumber (BehavioralAnalyzer.prevPL masteryDrop))
    by (split; discriminate).
  assert (Hdrop : BehavioralAnalyzer.currentPL masteryDrop
                  - BehavioralAnalyzer.prevPL masteryDrop < -0.150000001)
    by reflexivity.
  split; [exact H1|]. split; [exact H2|]. split; [exact Hdrop|].
  apply (proj2 (shouldTriggerSocratic_rules masteryDrop H1 H2)).
  - split; [discriminate|]. split; [discriminate|].
    intros t Ht. discriminate Ht.
  - right. exact Hdrop.
Defined.

(** ** Behavioural analyzer: the three guessing signals *)

Section GuessingFacts.
Import BehavioralAnalyzer.

Lemma lastN_app {A} (n : nat) (prefix window : list A) :
  (n <= length window)%nat ->
  Js.lastN n (prefix ++ window) = Js.lastN n window.
Proof.
  intros Hn. unfold Js.lastN. rewrite length_app.
  rewrite drop_app_ge by lia. f_equal. lia.
Qed.

Lemma lastN_all {A} (n : nat) (xs : list A) :
  (length xs <= n)%nat -> Js.lastN n xs = xs.
Proof.
  intros Hn. unfold Js.lastN.
  replace (length xs - n)%nat with O by lia. reflexivity.
Qed.

Lemma of_list_repeated (o : Z) :
  JsSet.size (JsSet.of_list [o; o; o; o]) = 1%nat.
Proof.
  assert (E0 : JsSet.add [] o = [o]).
  { unfold JsSet.add, JsSet.has.
    rewrite bool_decide_eq_false_2 by (apply not_elem_of_nil). reflexivity. }
  assert (E1 : JsSet.add [o] o = [o]).
  { unfold JsSet.add, JsSet.has.
    rewrite bool_decide_eq_true_2
      by (apply list_elem_of_singleton; reflexivity).
    reflexivity. }
  unfold JsSet.of_list. cbn [foldl]. rewrite E0, !E1. reflexivity.
Qed.

Section Host.
Variable Math_log2 : Q -> Q.

Lemma entropyOfCounts_total counts total :
  ~ total == 0 -> is_Ok (entropyOfCounts Math_log2 counts total).
Proof.
  intros Ht. unfold entropyOfCounts.
  destruct (foldO_Ok
              (fun h c =>
                 if (c =? 0)%nat then Ok h
                 else p ← Js.div (inject_Z (Z.of_nat c)) total;
                      Ok (h - p * Math_log2 p))
              (fun _ => True) counts) with (s := 0) as [h [E _]];
    [|exact I|exists h; exact E].
  intros s c _ _. destruct (c =? 0)%nat; [eauto|].
  divide. eauto.
Qed.

Lemma selectionPatternFlag_short responses :
  (length responses < 4)%nat ->
  selectionPatternFlag Math_log2 responses = Ok false.
Proof.
  intros Hlen. unfold selectionPatternFlag.
  apply Nat.ltb_lt in Hlen. rewrite Hlen. reflexivity.
Qed.

Lemma selectionPatternFlag_total responses :
  is_Ok (selectionPatternFlag Math_log2 responses).
Proof.
  unfold selectionPatternFlag.
  destruct (length responses <? 4)%nat; [eexists; reflexivity|].
  destruct (JsSet.size _ =? 1)%nat; [eexists; reflexivity|].
  destruct (length (Js.lastN 10 responses) <? 5)%nat eqn:Ewin;
    [eexists; reflexivity|].
  destruct (countOptions _) as [counts|]; [|eexists; reflexivity].
  destruct (entropyOfCounts_total counts (Js.len (Js.lastN 10 responses)))
    as [h Eh].
  { apply Nat.ltb_ge in Ewin.
    assert (0 < Js.len (Js.lastN 10 responses)); [|lra].
    apply len_nonzero. intros E. rewrite E in Ewin. simpl in Ewin. lia. }
  rewrite Eh, bind_Ok. eexists; reflexivity.
Qed.

Lemma selectionPatternFlag_cases responses :
  exists flag,
    selectionPatternFlag Math_log2 responses = Ok flag
    /\ ((length responses < 4)%nat -> flag = false)
    /\ (forall earlier r1 r2 r3 r4,
          responses = earlier ++ [r1; r2; r3; r4] ->
          SessionResponse.selectedOption r2 = SessionResponse.selectedOption r1 ->
          SessionResponse.selectedOption r3 = SessionResponse.selectedOption r1 ->
          SessionResponse.selectedOption r4 = SessionResponse.selectedOption r1 ->
          flag = true).
Proof.
  unfold selectionPatternFlag.
  destruct (length responses <? 4)%nat eqn:Elen.
  { exists false. split; [reflexivity|]. split; [reflexivity|].
    intros earlier r1 r2 r3 r4 -> _ _ _.
    apply Nat.ltb_lt in Elen. rewrite length_app in Elen. simpl in Elen. lia. }
  apply Nat.ltb_ge in Elen.
  destruct (JsSet.size _ =? 1)%nat eqn:Esame.
  { exists true. split; [reflexivity|]. split; [lia | reflexivity]. }
  assert (Hlast : forall flag,
    (length responses < 4)%nat -> flag = false) by (intros; lia).
  assert (Hsame : forall (flag : bool) earlier r1 r2 r3 r4,
          responses = earlier ++ [r1; r2; r3; r4] ->
          SessionResponse.selectedOption r2 = SessionResponse.selectedOption r1 ->
          SessionResponse.selectedOption r3 = SessionResponse.selectedOption r1 ->
          SessionResponse.selectedOption r4 = SessionResponse.selectedOption r1 ->
          flag = true).
  { intros flag earlier r1 r2 r3 r4 -> E2 E3 E4. exfalso.
    rewrite lastN_app in Esame by (simpl; lia).
    rewrite lastN_all in Esame by (simpl; lia).
    simpl in Esame. rewrite E2, E3, E4, of_list_repeated in Esame.
    discriminate. }
  destruct (length (Js.lastN 10 responses) <? 5)%nat eqn:Ewin;
    [exists false; split; [reflexivity | split; [apply Hlast | apply Hsame]]|].
  destruct (countOptions _) as [counts|];
    [|exists false; split; [reflexivity | split; [apply Hlast | apply Hsame]]].
  destruct (entropyOfCounts_total counts (Js.len (Js.lastN 10 responses)))
    as [h Eh].
  { apply Nat.ltb_ge in Ewin.
    assert (0 < Js.len (Js.lastN 10 responses)); [|lra].
    apply len_nonzero. intros E. rewrite E in Ewin. simpl in Ewin. lia. }
  rewrite Eh, bind_Ok. eexists.
  split; [reflexivity | split; [apply Hlast | apply Hsame]].
Qed.

Lemma selectionPatternFlag_lastTen earlier window :
  length window = 10%nat ->
  selectionPatternFlag Math_log2 (earlier ++ window)
  = selectionPatternFlag Math_log2 window.
Proof.
  intros Hw. unfold selectionPatternFlag.
  rewrite !lastN_app by lia.
  replace (length (earlier ++ window) <? 4)%nat with false
    by (symmetry; apply Nat.ltb_ge; rewrite length_app; lia).
  replace (length window <? 4)%nat with false
    by (symmetry; apply Nat.ltb_ge; lia).
  reflexivity.
Qed.

(** X12.  [selectionPatternFlag] never faults; it is false on fewer than four
    responses, true as soon as the last four selections are the same
    option, and it depends on the last ten responses only. *)
Theorem selectionPatternFlag_spec responses :
  exists flag,
    selectionPatternFlag Math_log2 responses = Ok flag
    /\ ((length responses < 4)%nat -> flag = false)
    /\ (forall earlier r1 r2 r3 r4,
          responses = earlier ++ [r1; r2; r3; r4] ->
          SessionResponse.selectedOption r2 = SessionResponse.selectedOption r1 ->
          SessionResponse.selectedOption r3 = SessionResponse.selectedOption r1 ->
          SessionResponse.selectedOption r4 = SessionResponse.selectedOption r1 ->
          flag = true)
    /\ (forall earlier window,
          responses = earlier ++ window -> length window = 10%nat ->
          selectionPatternFlag Math_log2 window = Ok flag).
Proof.
  destruct (selectionPatternFlag_cases responses) as [flag [E [H1 H2]]].
  exists flag. split; [exact E|]. split; [exact H1|]. split; [exact H2|].
  intros earlier window -> Hlen.
  rewrite <- E. symmetry. apply selectionPatternFlag_lastTen, Hlen.
Qed.

End Host.

Section Ability.
Context `{MathLib}.

Lemma one_plus_exp_pos x : 0 < 1 + Math_exp x.
Proof. pose proof (Math_exp_nonneg x). lra. Qed.

Lemma one_plus_exp_nonzero x : ~ 1 + Math_exp x == 0.
Proof. pose proof (one_plus_exp_pos x). lra. Qed.

Lemma abilityMismatchFlag_total response :
  is_Ok (abilityMismatchFlag response).
Proof.
  unfold abilityMismatchFlag.
  destruct (SessionResponse.isCorrect response); [|eexists; reflexivity].
  destruct (SessionResponse.theta response) as [theta|];
    [|eexists; reflexivity].
  destruct (SessionResponse.irtB response) as [irtB|];
    [|eexists; reflexivity].
  cbv zeta.
  pose proof (one_plus_exp_nonzero (- (1) * (theta - irtB))) as Hnz.
  divide. eexists; reflexivity.
Qed.

Lemma abilityMismatchFlag_no_theta response :
  SessionResponse.theta response = None ->
  abilityMismatchFlag response = Ok false.
Proof.
  intros Htheta. unfold abilityMismatchFlag. rewrite Htheta.
  destruct (SessionResponse.isCorrect response); reflexivity.
Qed.

(** X13.  [abilityMismatchFlag] never faults; it can only be raised on a correct
    answer that carries both [theta] and [irtB], and never for an item whose
    guessing floor [irtC] is 0.3 or more. *)
Theorem abilityMismatchFlag_spec response :
  exists flag,
    abilityMismatchFlag response = Ok flag
    /\ (flag = true ->
        SessionResponse.isCorrect response = true
        /\ is_Some (SessionResponse.theta response)
        /\ is_Some (SessionResponse.irtB response))
    /\ (forall c, SessionResponse.irtC response = Some c ->
                  0.3 <= c -> c <= 1 -> flag = false).
Proof.
  unfold abilityMismatchFlag.
  destruct (SessionResponse.isCorrect response);
    [|exists false; split; [reflexivity|]; split; [discriminate | reflexivity]].
  destruct (SessionResponse.theta response) as [theta|];
    [|exists false; split; [reflexivity|]; split; [discriminate | reflexivity]].
  destruct (SessionResponse.irtB response) as [irtB|];
    [|exists false; split; [reflexivity|]; split; [discriminate | reflexivity]].
  cbv zeta.
  pose proof (one_plus_exp_nonzero (- (1) * (theta - irtB))) as Hnz.
  pose proof (one_plus_exp_pos (- (1) * (theta - irtB))) as Hpos.
  divide. eexists. split; [reflexivity|]. split; [eauto|].
  intros c -> Hlo Hhi. simpl. apply ltb_ge.
  assert (0 <= (1 - c) / (1 + Math_exp (- (1) * (theta - irtB)))).
  { apply Qle_shift_div_l; [exact Hpos | lra]. }
  lra.
Qed.

Variable Math_log2 : Q -> Q.

Lemma sigmoid_eq x : sigmoid x = Ok (1 / (1 + Math_exp (- x))).
Proof. unfold sigmoid. apply div_Ok, one_plus_exp_nonzero. Qed.

Lemma sigmoid_unit x : 0 < 1 / (1 + Math_exp (- x)) <= 1.
Proof.
  pose proof (one_plus_exp_pos (- x)) as Hpos.
  pose proof (Math_exp_nonneg (- x)) as Hexp.
  split.
  - apply Qlt_shift_div_l; [exact Hpos | lra].
  - apply Qle_shift_div_r; [exact Hpos | lra].
Qed.

Lemma detectGuessing_eq response allResponses :
  exists pattern mismatch,
    selectionPatternFlag Math_log2 allResponses = Ok pattern
    /\ abilityMismatchFlag response = Ok mismatch
    /\ let speed := speedAnomalyFlag (SessionResponse.responseTimeMs response)
                                     (SessionResponse.difficulty response) in
       let x := rawScoreOf speed pattern mismatch - 1.5 in
       exists reasons,
         length reasons = (raised speed + raised pattern + raised mismatch)%nat
         /\ detectGuessing Math_log2 response allResponses
            = Ok {| GuessingResult.probability :=
                      Js.min 1 (Js.max 0 (1 / (1 + Math_exp (- x))));
                    GuessingResult.speedFlag := speed;
                    GuessingResult.patternFlag := pattern;
                    GuessingResult.mismatchFlag := mismatch;
                    GuessingResult.reasons := reasons |}.
Proof.
  destruct (selectionPatternFlag_total Math_log2 allResponses)
    as [pattern Ep].
  destruct (abilityMismatchFlag_total response) as [mismatch Em].
  exists pattern, mismatch. split; [exact Ep|]. split; [exact Em|].
  cbv zeta. unfold detectGuessing. rewrite Ep, Em, !bind_Ok.
  cbv zeta. rewrite sigmoid_eq, bind_Ok. unfold rawScoreOf.
  eexists. split; [|reflexivity].
  destruct (speedAnomalyFlag _ _), pattern, mismatch; reflexivity.
Qed.

Lemma detectGuessing_facts response allResponses :
  exists result,
    detectGuessing Math_log2 response allResponses = Ok result
    /\ GuessingResult.speedFlag result
       = speedAnomalyFlag (SessionResponse.responseTimeMs response)
                          (SessionResponse.difficulty response)
    /\ selectionPatternFlag Math_log2 allResponses
       = Ok (GuessingResult.patternFlag result)
    /\ abilityMismatchFlag response = Ok (GuessingResult.mismatchFlag result)
    /\ length (GuessingResult.reasons result)
       = (raised (GuessingResult.speedFlag result)
          + raised (GuessingResult.patternFlag result)
          + raised (GuessingResult.mismatchFlag result))%nat
    /\ 0 < GuessingResult.probability result <= 1.
Proof.
  destruct (detectGuessing_eq response allResponses)
    as [pattern [mismatch [Ep [Em Hd]]]].
  cbv zeta in Hd. destruct Hd as [reasons [Hlen Ed]].
  eexists. split; [exact Ed|]. simpl.
  repeat split; try assumption.
  - set (x := _ - 1.5). pose proof (sigmoid_unit x) as [Hlo Hhi].
    unfold Js.min, Js.max.
    apply Q.min_glb_lt; [reflexivity|].
    eapply Qlt_le_trans; [exact Hlo | apply Q.le_max_r].
  - apply Q.le_min_l.
Qed.

(** X14.  [detectGuessing] never faults; its flags are those of the three
    detectors, it gives one reason per raised flag, and its probability lies
    in (0, 1]. *)
Theorem detectGuessing_spec response allResponses :
  exists result,
    detectGuessing Math_log2 response allResponses = Ok result
    /\ GuessingResult.speedFlag result
       = speedAnomalyFlag (SessionResponse.responseTimeMs response)
                          (SessionResponse.difficulty response)
    /\ selectionPatternFlag Math_log2 allResponses
       = Ok (GuessingResult.patternFlag result)
    /\ abilityMismatchFlag response = Ok (GuessingResult.mismatchFlag result)
    /\ length (GuessingResult.reasons result)
       = (raised (GuessingResult.speedFlag result)
          + raised (GuessingResult.patternFlag result)
          + raised (GuessingResult.mismatchFlag result))%nat
    /\ 0 < GuessingResult.probability result <= 1.
Proof. exact (detectGuessing_facts response allResponses). Qed.

(** X15.  Where [Math.exp] is at least 1 on non-negative arguments and at most 1
    on non-positive ones, one raised flag alone never gives a guessing
    probability above 0.5, and two raised flags never give one below it. *)
Theorem detectGuessing_threshold response allResponses result :
  (forall y, 0 <= y -> 1 <= Math_exp y) ->
  (forall y, y <= 0 -> Math_exp y <= 1) ->
  detectGuessing Math_log2 response allResponses = Ok result ->
  ((length (GuessingResult.reasons result) <= 1)%nat ->
   GuessingResult.probability result <= 0.5)
  /\ ((2 <= length (GuessingResult.reasons result))%nat ->
      0.5 <= GuessingResult.probability result).
Proof.
  intros Hge Hle Ed.
  destruct (detectGuessing_eq response allResponses)
    as [pattern [mismatch [_ [_ Hd]]]].
  cbv zeta in Hd. destruct Hd as [reasons [Hlen Ed']].
  rewrite Ed' in Ed. injection Ed as <-. simpl.
  set (speed := speedAnomalyFlag _ _) in *.
  set (x := rawScoreOf speed pattern mismatch - 1.5).
  pose proof (one_plus_exp_pos (- x)) as Hpos.
  pose proof (sigmoid_unit x) as [Hlo Hhi].
  assert (Hclamp : Js.min 1 (Js.max 0 (1 / (1 + Math_exp (- x))))
                   == 1 / (1 + Math_exp (- x))).
  { unfold Js.min, Js.max. rewrite Q.max_r by lra. apply Q.min_r. lra. }
  rewrite Hclamp, Hlen. split; intros Hcount.
  - assert (Hx : 0 <= - x).
    { subst x. unfold rawScoreOf.
      destruct speed, pattern, mismatch; simpl in Hcount; try lia; lra. }
    specialize (Hge _ Hx).
    apply Qle_shift_div_r; [exact Hpos | lra].
  - assert (Hx : - x <= 0).
    { subst x. unfold rawScoreOf.
      destruct speed, pattern, mismatch; simpl in Hcount; try lia; lra. }
    specialize (Hle _ Hx).
    apply Qle_shift_div_l; [exact Hpos | lra].
Qed.

End Ability.

End GuessingFacts.

Lemma detectGuessing_threshold_witness :
  exists result,
    BehavioralAnalyzer.detectGuessing (H := RationalMath.host) (fun _ => 0)
      (fourthAnswer 1) (fourthAnswer <$> [1; 1; 1; 1]%Z) = Ok result
    /\ GuessingResult.probability result <= 0.5.
Proof.
  eexists. split; [vm_compute; reflexivity|].
  refine (proj1 (detectGuessing_threshold (H := RationalMath.host)
                   (fun _ => 0) (fourthAnswer 1)
                   (fourthAnswer <$> [1; 1; 1; 1]%Z) _
                   host_exp_ge_1 host_exp_le_1 _) _).
  - vm_compute. reflexivity.
  - vm_compute. lia.
Defined.

(** ** IRT ability estimator: item response, information, selection *)

Section IrtMore.
Import IrtModel.
Context `{MathLib}.

Lemma threeParamLogistic_eq theta a b c :
  threeParamLogistic theta a b c
  = Ok (c + (1 - c) / (1 + Math_exp (- a * (theta - b)))).
Proof.
  unfold threeParamLogistic.
  pose proof (Math_exp_nonneg (- a * (theta - b))) as Hexp.
  rewrite div_Ok by lra. reflexivity.
Qed.

(** X16.  For a guessing floor [c] in [0, 1] and a moderate ability,
    discrimination and difficulty, the probability of a correct answer lies
    between [c] and 1. *)
Theorem threeParamLogistic_bounds theta a b c :
  0 <= c -> c <= 1 -> moderate theta -> moderate a -> moderate b ->
  exists P, threeParamLogistic theta a b c = Ok P /\ c <= P /\ P <= 1.
Proof.
  intros Hlo Hhi _ _ _. rewrite threeParamLogistic_eq. eexists.
  split; [reflexivity|].
  pose proof (Math_exp_nonneg (- a * (theta - b))) as Hexp.
  set (e := Math_exp _) in *.
  assert (0 <= (1 - c) / (1 + e)) by (apply Qle_shift_div_l; lra).
  assert ((1 - c) / (1 + e) <= 1 - c) by (apply Qle_shift_div_r; nra).
  lra.
Qed.

Lemma tiny_pos : 0 < 1e-12.
Proof. reflexivity. Qed.

Lemma fisherInformation_nonneg theta a b c :
  exists info, fisherInformation theta a b c = Ok info /\ 0 <= info.
Proof.
  unfold fisherInformation. rewrite threeParamLogistic_eq, bind_Ok.
  set (P := c + _). cbv zeta.
  destruct (Js.ltb _ 1e-12) eqn:Eden.
  - exists 0. split; [reflexivity | lra].
  - apply ltb_ge in Eden. pose proof tiny_pos as Htiny.
    set (den := (1 - c) * (1 - c) * P * (1 - P)) in *.
    assert (Hden : 0 < den)
      by (eapply Qlt_le_trans; [exact Htiny | exact Eden]).
    assert (Hnz : ~ den == 0) by lra.
    divide. eexists. split; [reflexivity|].
    apply Qle_shift_div_l; [exact Hden|].
    assert (Hsq : forall x : Q, 0 <= x * x) by (intros; nra).
    pose proof (Hsq a). pose proof (Hsq (P - c)).
    rewrite Qmult_0_l. apply Qmult_le_0_compat; assumption.
Qed.

Lemma totalInformation_nonneg theta responses :
  exists total, totalInformation theta responses = Ok total /\ 0 <= total.
Proof.
  unfold totalInformation.
  apply (foldO_Ok _ (fun acc => 0 <= acc)); [|lra].
  intros acc r Hacc _.
  destruct (fisherInformation_nonneg theta (IrtModel.a (item r))
              (IrtModel.b (item r)) (IrtModel.c (item r))) as [i [Ei Hi]].
  rewrite Ei, bind_Ok. eexists. split; [reflexivity | lra].
Qed.

(** X17.  For a moderate ability and responses to items in the domain, the
    Fisher information of each item and the total information are computed
    and never negative (a quotient is only taken when its denominator is at
    least 1e-12), and so is [standardError]: it is [Infinity] when no
    response has been given, and a positive number whenever it is
    finite. *)
Theorem standardError_spec theta responses :
  moderate theta ->
  Forall (fun r => itemInDomain (item r)) responses ->
  (forall r, r ∈ responses ->
     exists info,
       fisherInformation theta (a (item r)) (b (item r)) (c (item r))
       = Ok info
       /\ 0 <= info)
  /\ (exists total,
        totalInformation theta responses = Ok total /\ 0 <= total)
  /\ exists se,
       standardError theta responses = Ok se
       /\ (responses = [] -> se = Infinity)
       /\ (forall q, se = Finite q -> 0 < q).
Proof.
  intros _ _.
  split; [intros r _; apply fisherInformation_nonneg|].
  split; [apply totalInformation_nonneg|].
  unfold standardError.
  destruct (totalInformation_nonneg theta responses) as [total [Et Ht]].
  assert (Hempty : responses = [] -> Js.ltb total 1e-12 = true).
  { intros ->. simpl in Et. injection Et as <-. reflexivity. }
  rewrite Et, bind_Ok.
  destruct (Js.ltb total 1e-12) eqn:Etiny.
  - exists Infinity. split; [reflexivity|]. split; [reflexivity|].
    intros q Hq. discriminate Hq.
  - apply ltb_ge in Etiny. pose proof tiny_pos as Htiny.
    assert (Hsqrt : 0 < Math_sqrt total).
    { apply Math_sqrt_pos.
      eapply Qlt_le_trans; [exact Htiny | exact Etiny]. }
    rewrite div_Ok by lra. rewrite bind_Ok. eexists.
    split; [reflexivity|]. split.
    + intros Hr. apply Hempty in Hr. discriminate Hr.
    + intros q Hq. injection Hq as <-.
      apply Qlt_shift_div_l; [exact Hsqrt | lra].
Qed.

Lemma selection_loop theta available rest seen best :
  bestSoFar theta available seen best ->
  (forall item, item ∈ rest -> item ∈ available) ->
  exists best',
    foldO (considerItem theta) best rest = Ok best'
    /\ bestSoFar theta available (seen ++ rest) best'.
Proof.
  revert seen best. induction rest as [|item rest IH]; intros seen best Hb Hin.
  - exists best. rewrite app_nil_r. split; [reflexivity | exact Hb].
  - cbn [foldO].
    destruct (fisherInformation_nonneg theta (a item) (b item) (c item))
      as [info [Ei _]].
    assert (Estep : considerItem theta best item
                    = Ok (if Js.ltb best.2 info then (item, info) else best)).
    { unfold considerItem. rewrite Ei, bind_Ok.
      destruct (Js.ltb best.2 info); reflexivity. }
    rewrite Estep.
    destruct Hb as [Hb1 [Hb2 Hb3]].
    replace (seen ++ item :: rest) with ((seen ++ [item]) ++ rest)
      by (rewrite <- app_assoc; reflexivity).
    destruct (Js.ltb best.2 info) eqn:Ecmp; rewrite bind_Ok; apply IH.
    + apply ltb_lt in Ecmp. split; [|split].
      * apply Hin. left.
      * exact Ei.
      * intros item' info' Hitem' Ei'. simpl.
        apply elem_of_app in Hitem' as [Hseen|Hnew].
        -- apply Hb3 in Ei'; [lra | exact Hseen].
        -- apply list_elem_of_singleton in Hnew. subst item'.
           rewrite Ei in Ei'. injection Ei' as <-. lra.
    + intros item' Hitem'. apply Hin. right. exact Hitem'.
    + apply ltb_ge in Ecmp. split; [|split].
      * exact Hb1.
      * exact Hb2.
      * intros item' info' Hitem' Ei'.
        apply elem_of_app in Hitem' as [Hseen|Hnew].
        -- apply Hb3 in Ei'; [lra | exact Hseen].
        -- apply list_elem_of_singleton in Hnew. subst item'.
           rewrite Ei in Ei'. injection Ei' as <-. exact Ecmp.
    + intros item' Hitem'. apply Hin. right. exact Hitem'.
Qed.

(** X18.  For a moderate ability and a bank of items in the domain,
    [selectNextItem] never faults.  It returns [null] exactly when every
    item of the bank has been used; otherwise it returns an unused item of
    the bank whose Fisher information at [theta] is the largest among the
    unused items. *)
Theorem selectNextItem_spec theta itemBank usedIds :
  moderate theta -> Forall itemInDomain itemBank ->
  exists next,
    selectNextItem theta itemBank usedIds = Ok next
    /\ (next = None
        <-> forall item, item ∈ itemBank ->
                         JsSet.has usedIds (id item) = true)
    /\ (forall best, next = Some best ->
          best ∈ itemBank
          /\ JsSet.has usedIds (id best) = false
          /\ exists bestInfo,
               fisherInformation theta (a best) (b best) (c best) = Ok bestInfo
               /\ forall item info,
                    item ∈ itemBank ->
                    JsSet.has usedIds (id item) = false ->
                    fisherInformation theta (a item) (b item) (c item)
                    = Ok info ->
                    info <= bestInfo).
Proof.
  intros _ _. unfold selectNextItem.
  set (available :=
         filter (fun item => JsSet.has usedIds (id item) = false) itemBank).
  assert (Havail : forall item,
             item ∈ available
             <-> JsSet.has usedIds (id item) = false /\ item ∈ itemBank).
  { intros item.
    exact (list_elem_of_filter
             (fun item => JsSet.has usedIds (id item) = false) itemBank item). }
  clearbody available. destruct available as [|first rest].
  - exists None. split; [reflexivity|]. split.
    + split; [|reflexivity]. intros _ item Hitem.
      destruct (JsSet.has usedIds (id item)) eqn:E; [reflexivity|].
      exfalso. eapply not_elem_of_nil. apply Havail. split; eassumption.
    + intros best Hbest. discriminate Hbest.
  - destruct (fisherInformation_nonneg theta (a first) (b first) (c first))
      as [info [Ei _]].
    rewrite Ei, bind_Ok.
    destruct (selection_loop theta (first :: rest) rest [first] (first, info))
      as [best [Eloop [Hb1 [Hb2 Hb3]]]].
    { split; [left|]. split; [exact Ei|].
      intros item info' Hitem Ei'. apply list_elem_of_singleton in Hitem.
      subst item. simpl. rewrite Ei in Ei'. injection Ei' as <-. lra. }
    { intros item Hitem. right. exact Hitem. }
    rewrite Eloop, bind_Ok. eexists. split; [reflexivity|]. split.
    + split; [discriminate|]. intros Hused. exfalso.
      assert (Hfirst : first ∈ first :: rest) by left.
      apply Havail in Hfirst as [Hfree Hbank].
      rewrite (Hused _ Hbank) in Hfree. discriminate Hfree.
    + intros best' Hbest'. injection Hbest' as <-.
      apply Havail in Hb1 as [Hfree Hbank].
      split; [exact Hbank|]. split; [exact Hfree|].
      exists best.2. split; [exact Hb2|].
      intros item info' Hitem Hunused Ei'.
      apply (Hb3 item); [|exact Ei'].
      change (item ∈ first :: rest). apply Havail. split; assumption.
Qed.

Lemma posteriorMass_app acc (xs : list Q) :
  foldl Qplus acc xs == acc + foldl Qplus 0 xs.
Proof.
  revert acc. induction xs as [|x xs IH]; intros acc; simpl.
  - lra.
  - rewrite IH, (IH (0 + x)). lra.
Qed.

Lemma updateTheta_cases responses priorTheta :
  exists theta,
    updateTheta responses priorTheta = Ok theta
    /\ (theta = priorTheta \/ (-4 <= theta /\ theta <= 4)).
Proof.
  unfold updateTheta.
  destruct (length responses =? 0)%nat; [exists priorTheta; tauto|].
  destruct (unnormalizedOf_total responses) as [u Eu].
  rewrite Eu, bind_Ok. cbv zeta.
  destruct (Js.ltb (posteriorMass u) 1e-15) eqn:Emass;
    [exists priorTheta; tauto|].
  apply ltb_ge in Emass.
  assert (Hpos : 0 < posteriorMass u)
    by (eapply Qlt_le_trans; [|exact Emass]; reflexivity).
  destruct (mapO_Ok (fun v => Js.div v (posteriorMass u)) u) as [post Epost].
  { intros v _. rewrite div_Ok by lra. eexists; reflexivity. }
  rewrite Epost, bind_Ok. eexists. split; [reflexivity|]. right.
  unfold Js.max, Js.min. split.
  - apply Q.le_max_l.
  - apply Q.max_lub; [discriminate|]. apply Q.le_min_l.
Qed.

(** X19.  For responses to items in the domain, [updateTheta] never faults,
    and its estimate is either the prior it was given or a value of the
    grid's range [-4, 4]. *)
Theorem updateTheta_range responses priorTheta :
  Forall (fun r => itemInDomain (item r)) responses ->
  exists theta,
    updateTheta responses priorTheta = Ok theta
    /\ (theta = priorTheta \/ (-4 <= theta /\ theta <= 4)).
Proof. intros _. exact (updateTheta_cases responses priorTheta). Qed.

End IrtMore.

Section ScoreFacts.
Import IrtModel.

Lemma thetaToScore_mono theta1 theta2 :
  theta1 <= theta2 -> (thetaToScore theta1 <= thetaToScore theta2)%Z.
Proof.
  intros Hle. unfold thetaToScore, Js.round.
  apply Qfloor_resp_le.
  assert (E : forall t, (t + 4) / 8 * 100 + 0.5 == t * 12.5 + 50.5)
    by (intros; field).
  rewrite !E. lra.
Qed.

Lemma thetaToScore_unit theta :
  -4 <= theta -> theta <= 4 -> (0 <= thetaToScore theta <= 100)%Z.
Proof.
  intros Hlo Hhi.
  change 0%Z with (thetaToScore (-4)). change 100%Z with (thetaToScore 4).
  split; apply thetaToScore_mono; assumption.
Qed.

(** X20.  The ability score grows with the ability, and an ability inside the
    grid's range [-4, 4] is mapped to a score between 0 and 100. *)
Theorem thetaToScore_monotone theta1 theta2 :
  theta1 <= theta2 ->
  (thetaToScore theta1 <= thetaToScore theta2)%Z
  /\ (-4 <= theta1 -> theta2 <= 4 ->
      (0 <= thetaToScore theta1)%Z /\ (thetaToScore theta2 <= 100)%Z).
Proof.
  intros Hle. split; [apply thetaToScore_mono, Hle|].
  intros Hlo Hhi. split.
  - apply (thetaToScore_unit theta1); lra.
  - apply (thetaToScore_unit theta2); lra.
Qed.

(** X21.  The difficulty of a generated [b] is the difficulty it was generated
    for, whatever [Math.random()] returned between 0 and 1 - 1e-15. *)
Theorem difficultyLabel_difficultyToB random difficulty :
  0 <= random -> random <= 0.999999999999999 ->
  difficultyLabel (difficultyToB random difficulty) = difficulty.
Proof.
  intros Hlo Hhi. unfold difficultyLabel, difficultyToB.
  destruct difficulty.
  - replace (Js.ltb _ (-0.5)) with true; [reflexivity|].
    symmetry. apply ltb_lt. lra.
  - replace (Js.ltb _ (-0.5)) with false
      by (symmetry; apply ltb_ge; lra).
    replace (Js.ltb _ 0.5) with true; [reflexivity|].
    symmetry. apply ltb_lt. lra.
  - replace (Js.ltb _ (-0.5)) with false
      by (symmetry; apply ltb_ge; lra).
    replace (Js.ltb _ 0.5) with false; [reflexivity|].
    symmetry. apply ltb_ge. lra.
Qed.

End ScoreFacts.

Lemma threeParamLogistic_bounds_witness :
  exists P,
    IrtModel.threeParamLogistic (H := RationalMath.host) 1 1.2 0.5 0.25 = Ok P
    /\ 0.25 <= P /\ P <= 1.
Proof.
  apply (threeParamLogistic_bounds (H := RationalMath.host) 1 1.2 0.5 0.25);
    first [discriminate | split; discriminate].
Defined.

Lemma mixedAnswers_inDomain :
  Forall (fun r => itemInDomain (IrtModel.item r)) mixedAnswers.
Proof.
  repeat (constructor; [repeat split; discriminate|]). constructor.
Qed.

Lemma standardError_spec_witness :
  moderate 0.5
  /\ exists se,
       IrtModel.standardError (H := RationalMath.host) 0.5 mixedAnswers = Ok se
       /\ (forall q, se = IrtModel.Finite q -> 0 < q).
Proof.
  assert (Hm : moderate 0.5) by (split; discriminate).
  split; [exact Hm|].
  destruct (proj2 (proj2 (standardError_spec (H := RationalMath.host)
                            0.5 mixedAnswers Hm mixedAnswers_inDomain)))
    as [se [Ese [_ Hpos]]].
  exists se. split; [exact Ese | exact Hpos].
Defined.

Lemma selectNextItem_spec_witness :
  let bank := IrtModel.item <$> mixedAnswers in
  moderate 0.5
  /\ exists best,
       IrtModel.selectNextItem (H := RationalMath.host) 0.5 bank ["q1"%string]
       = Ok (Some best)
       /\ IrtModel.id best = "q2"%string.
Proof.
  intros bank.
  assert (Hm : moderate 0.5) by (split; discriminate).
  assert (Hbank : Forall itemInDomain bank).
  { unfold bank. simpl.
    repeat (constructor; [repeat split; discriminate|]). constructor. }
  split; [exact Hm|].
  destruct (selectNextItem_spec (H := RationalMath.host) 0.5 bank
              ["q1"%string] Hm Hbank) as [next [Enext [Hnone Hbest]]].
  destruct next as [best|].
  - exists best. split; [exact Enext|].
    destruct (Hbest best eq_refl) as [Hin [Hfree _]].
    unfold bank in Hin. simpl in Hin.
    apply elem_of_cons in Hin as [-> | Hin]; [discriminate Hfree|].
    apply list_elem_of_singleton in Hin. subst best. reflexivity.
  - exfalso.
    assert (Hused : JsSet.has ["q1"%string] "q2"%string = true).
    { apply (proj1 Hnone eq_refl
               {| IrtModel.id := "q2"; IrtModel.a := 0.8;
                  IrtModel.b := 1.5; IrtModel.c := 0.2 |}).
      unfold bank. simpl. right. left. }
    discriminate Hused.
Defined.

Lemma updateTheta_range_witness :
  exists theta,
    IrtModel.updateTheta (H := RationalMath.host) mixedAnswers 0 = Ok theta
    /\ (theta = 0 \/ (-4 <= theta /\ theta <= 4)).
Proof.
  exact (updateTheta_range (H := RationalMath.host) mixedAnswers 0
           mixedAnswers_inDomain).
Defined.

Lemma thetaToScore_monotone_witness :
  (IrtModel.thetaToScore (-1) <= IrtModel.thetaToScore 2.5)%Z
  /\ (-4 <= -1 -> 2.5 <= 4 ->
      (0 <= IrtModel.thetaToScore (-1))%Z
      /\ (IrtModel.thetaToScore 2.5 <= 100)%Z).
Proof.
  apply (thetaToScore_monotone (-1) 2.5). discriminate.
Defined.

Lemma difficultyLabel_difficultyToB_witness :
  IrtModel.difficultyLabel (IrtModel.difficultyToB 0.999 IrtModel.medium)
  = IrtModel.medium.
Proof.
  apply (difficultyLabel_difficultyToB 0.999 IrtModel.medium);
    discriminate.
Defined.

(** ** Knowledge graph: the prerequisite table *)

Section PrerequisiteFacts.
Import KnowledgeGraphEngine.

Lemma table_row_concept a row :
  PREREQUISITE_STRENGTH !! a = Some row -> a ∈ tableConcepts.
Proof.
  intros Hrow. unfold tableConcepts. apply elem_of_remove_dups.
  apply elem_of_app. left. apply list_elem_of_fmap.
  exists (a, row). split; [reflexivity|].
  apply elem_of_map_to_list, Hrow.
Qed.

Lemma table_entry_concept a row b v :
  PREREQUISITE_STRENGTH !! a = Some row -> row !! b = Some v ->
  b ∈ tableConcepts.
Proof.
  intros Hrow Hv. unfold tableConcepts. apply elem_of_remove_dups.
  apply elem_of_app. right. apply list_elem_of_join.
  exists ((map_to_list row).*1). split.
  - apply list_elem_of_fmap. exists (b, v). split; [reflexivity|].
    apply elem_of_map_to_list, Hv.
  - apply list_elem_of_fmap. exists (a, row). split; [reflexivity|].
    apply elem_of_map_to_list, Hrow.
Qed.

Lemma table_lookup_concepts a b v :
  PREREQUISITE_STRENGTH !! a ≫= (.!! b) = Some v ->
  a ∈ tableConcepts /\ b ∈ tableConcepts.
Proof.
  destruct (PREREQUISITE_STRENGTH !! a) as [row|] eqn:Hrow; [|discriminate].
  simpl. intros Hv. split.
  - eapply table_row_concept, Hrow.
  - eapply table_entry_concept; eassumption.
Qed.

Lemma strengthOf_listed :
  forallb (fun a =>
    forallb (fun b =>
      Qeq_bool (strengthOf a b) (strengthOf b a)
      || bool_decide (listedBothWays a b))
      tableConcepts)
    tableConcepts = true.
Proof. vm_compute. reflexivity. Qed.

Lemma strengthOf_symmetric a b :
  strengthOf a b == strengthOf b a \/ listedBothWays a b.
Proof.
  destruct (PREREQUISITE_STRENGTH !! a ≫= (.!! b)) as [v|] eqn:Eab.
  - destruct (table_lookup_concepts _ _ _ Eab) as [Ha Hb].
    pose proof strengthOf_listed as Hall.
    rewrite forallb_forall in Hall.
    specialize (Hall a (proj1 (list_elem_of_In _ _) Ha)).
    rewrite forallb_forall in Hall.
    specialize (Hall b (proj1 (list_elem_of_In _ _) Hb)).
    apply orb_true_iff in Hall as [Heq|Hex].
    + left. apply Qeq_bool_iff, Heq.
    + right. apply bool_decide_eq_true in Hex. exact Hex.
  - destruct (PREREQUISITE_STRENGTH !! b ≫= (.!! a)) as [v|] eqn:Eba.
    + destruct (table_lookup_concepts _ _ _ Eba) as [Hb Ha].
      pose proof strengthOf_listed as Hall.
      rewrite forallb_forall in Hall.
      specialize (Hall a (proj1 (list_elem_of_In _ _) Ha)).
      rewrite forallb_forall in Hall.
      specialize (Hall b (proj1 (list_elem_of_In _ _) Hb)).
      apply orb_true_iff in Hall as [Heq|Hex].
      * left. apply Qeq_bool_iff, Heq.
      * right. apply bool_decide_eq_true in Hex. exact Hex.
    + left. unfold strengthOf. rewrite Eab, Eba. reflexivity.
Qed.

(** X22.  For two concepts whose lower-case names are not "constructor" or
    "__proto__", the curriculum strength lies in [0, 1] and does not depend
    on their order, except for the two pairs the table lists in both
    directions with different values: statistics and probability (0.85 one
    way, 0.75 the other) and algorithms and graph theory (0.70 and 0.65). *)
Theorem prerequisiteStrength_symmetry conceptA conceptB :
  ownKey (Js.toLowerCase conceptA) -> ownKey (Js.toLowerCase conceptB) ->
  (0 <= prerequisiteStrength conceptA conceptB
   /\ prerequisiteStrength conceptA conceptB <= 1)
  /\ (prerequisiteStrength conceptA conceptB
      == prerequisiteStrength conceptB conceptA
      \/ listedBothWays (Js.toLowerCase conceptA) (Js.toLowerCase conceptB))
  /\ prerequisiteStrength "Statistics" "Probability" == 0.85
  /\ prerequisiteStrength "Probability" "Statistics" == 0.75
  /\ prerequisiteStrength "algorithms" "graph theory" == 0.70
  /\ prerequisiteStrength "graph theory" "algorithms" == 0.65.
Proof.
  intros _ _.
  split; [apply prerequisiteStrength_bounds|].
  split; [apply (strengthOf_symmetric (Js.toLowerCase conceptA)
                                      (Js.toLowerCase conceptB))|].
  repeat split; vm_compute; reflexivity.
Qed.

End PrerequisiteFacts.

Lemma prerequisiteStrength_symmetry_witness :
  ownKey (Js.toLowerCase "Calculus") /\ ownKey (Js.toLowerCase "Algebra")
  /\ KnowledgeGraphEngine.prerequisiteStrength "Calculus" "Algebra" == 0.80
  /\ (KnowledgeGraphEngine.prerequisiteStrength "Calculus" "Algebra"
      == KnowledgeGraphEngine.prerequisiteStrength "Algebra" "Calculus"
      \/ listedBothWays (Js.toLowerCase "Calculus")
                        (Js.toLowerCase "Algebra")).
Proof.
  assert (Ha : ownKey (Js.toLowerCase "Calculus"))
    by (split; intros E; vm_compute in E; discriminate E).
  assert (Hb : ownKey (Js.toLowerCase "Algebra"))
    by (split; intros E; vm_compute in E; discriminate E).
  split; [exact Ha|]. split; [exact Hb|].
  split; [vm_compute; reflexivity|].
  exact (proj1 (proj2 (prerequisiteStrength_symmetry "Calculus" "Algebra"
                         Ha Hb))).
Defined.

(** ** Knowledge graph: co-occurrence, concept map, edges and nodes *)

Section GraphMore.
Import KnowledgeGraphEngine.

Lemma countOccurrences_sym a b sessions :
  countOccurrences a b sessions = countOccurrences b a sessions.
Proof.
  unfold countOccurrences. generalize (0%nat, 0%nat).
  induction sessions as [|s ss IH]; intros acc; simpl; [reflexivity|].
  rewrite <- IH. f_equal. destruct acc as [co ei].
  destruct (JsSet.has s a), (JsSet.has s b); reflexivity.
Qed.

(** X23.  The co-occurrence rate does not depend on the order of the two concepts,
    is always computed, and lies in [0, 1]. *)
Theorem coOccurrenceRate_symmetric conceptA conceptB logs :
  coOccurrenceRate conceptA conceptB logs
  = coOccurrenceRate conceptB conceptA logs
  /\ exists rate, coOccurrenceRate conceptA conceptB logs = Ok rate
                  /\ 0 <= rate /\ rate <= 1.
Proof.
  split; [|apply coOccurrenceRate_bounds].
  unfold coOccurrenceRate. cbv zeta.
  rewrite (countOccurrences_sym (Js.toLowerCase conceptA)). reflexivity.
Qed.

(** *** The concept map *)

Lemma jsmap_keys_set {K V} `{EqDecision K} (m : JsMap.t K V) k v :
  JsMap.keys (JsMap.set m k v)
  = if decide (k ∈ JsMap.keys m) then JsMap.keys m else JsMap.keys m ++ [k].
Proof.
  unfold JsMap.keys. induction m as [|[k0 v0] m IH].
  - simpl. destruct (decide (k ∈ [])) as [Hin|_]; [|reflexivity].
    exfalso. eapply not_elem_of_nil, Hin.
  - cbn [JsMap.set]. rewrite (fmap_cons fst _ m). cbn [fst].
    destruct (decide (k0 = k)) as [->|Hne].
    + rewrite fmap_cons. cbn [fst].
      destruct (decide (k ∈ k :: m.*1)) as [_|Hn]; [reflexivity|].
      exfalso. apply Hn. left.
    + rewrite fmap_cons, IH. cbn [fst].
      destruct (decide (k ∈ m.*1)) as [Hin|Hn];
        destruct (decide (k ∈ k0 :: m.*1)) as [Hin'|Hn'];
        try reflexivity.
      * exfalso. apply Hn'. right. exact Hin.
      * exfalso. apply elem_of_cons in Hin' as [E|Hin']; [congruence|].
        contradiction.
Qed.

Lemma jsmap_keys_set_NoDup {K V} `{EqDecision K} (m : JsMap.t K V) k v :
  NoDup (JsMap.keys m) -> NoDup (JsMap.keys (JsMap.set m k v)).
Proof.
  intros Hnd. rewrite jsmap_keys_set.
  destruct (decide (k ∈ JsMap.keys m)) as [_|Hn]; [exact Hnd|].
  apply NoDup_app. split; [exact Hnd|]. split.
  - intros x Hx Hx'. apply list_elem_of_singleton in Hx'. subst x.
    contradiction.
  - apply NoDup_singleton.
Qed.

Lemma jsmap_keys_is_Some {K V} `{EqDecision K} (m : JsMap.t K V) k :
  k ∈ JsMap.keys m <-> is_Some (JsMap.get m k).
Proof.
  destruct (JsMap.get m k) as [v|] eqn:E.
  - split; [eauto|]. intros _.
    destruct (decide (k ∈ JsMap.keys m)) as [Hin|Hn]; [exact Hin|].
    apply jsmap_get_None_keys in Hn. congruence.
  - apply jsmap_get_None_keys in E.
    split; [contradiction | intros [v Hv]; discriminate].
Qed.

Lemma conceptMap_fold_get logs :
  forall (m : JsMap.t string (list SessionLog.t)) key,
    JsMap.get
      (foldl (fun conceptMap log =>
                let key := Js.toLowerCase (SessionLog.concept log) in
                JsMap.set conceptMap key
                  (default [] (JsMap.get conceptMap key) ++ [log]))
             m logs) key
    = match logsOf key logs with
      | [] => JsMap.get m key
      | group => Some (default [] (JsMap.get m key) ++ group)
      end.
Proof.
  unfold logsOf.
  induction logs as [|log logs IH]; intros m key; [reflexivity|].
  cbn [foldl]. rewrite IH. cbv zeta. rewrite jsmap_get_set.
  destruct (decide (Js.toLowerCase (SessionLog.concept log) = key))
    as [E|Hne].
  - rewrite filter_cons_True by exact E. rewrite E. simpl.
    destruct (filter _ logs) as [|l ls]; [reflexivity|].
    rewrite <- app_assoc. reflexivity.
  - rewrite filter_cons_False by exact Hne. reflexivity.
Qed.

Lemma conceptMap_fold_NoDup logs :
  forall m : JsMap.t string (list SessionLog.t),
    NoDup (JsMap.keys m) ->
    NoDup (JsMap.keys
             (foldl (fun conceptMap log =>
                       let key := Js.toLowerCase (SessionLog.concept log) in
                       JsMap.set conceptMap key
                         (default [] (JsMap.get conceptMap key) ++ [log]))
                    m logs)).
Proof.
  induction logs as [|log logs IH]; intros m Hnd; [exact Hnd|].
  cbn [foldl]. apply IH. cbv zeta. apply jsmap_keys_set_NoDup, Hnd.
Qed.

Lemma conceptMapOf_get logs key :
  JsMap.get (conceptMapOf logs) key
  = match logsOf key logs with [] => None | group => Some group end.
Proof. unfold conceptMapOf. rewrite conceptMap_fold_get. reflexivity. Qed.

(** [buildGraph] groups the logs by lower-cased concept: the concept map
    has one key per distinct lower-cased concept of the logs, and the entry
    of a key holds the logs of that concept in their order. *)
Lemma conceptMapOf_groups logs :
  NoDup (JsMap.keys (conceptMapOf logs))
  /\ (forall key,
        key ∈ JsMap.keys (conceptMapOf logs)
        <-> exists log, log ∈ logs
                        /\ Js.toLowerCase (SessionLog.concept log) = key)
  /\ (forall key group,
        JsMap.get (conceptMapOf logs) key = Some group
        <-> group <> [] /\ group = logsOf key logs).
Proof.
  split; [|split].
  - apply conceptMap_fold_NoDup. apply NoDup_nil_2.
  - intros key. rewrite jsmap_keys_is_Some, conceptMapOf_get.
    unfold logsOf. split.
    + destruct (filter _ logs) as [|l ls] eqn:E;
        [intros [v Hv]; discriminate|].
      intros _. exists l.
      assert (Hl : l ∈ filter
                (fun log => Js.toLowerCase (SessionLog.concept log) = key)
                logs) by (rewrite E; left).
      apply list_elem_of_filter in Hl as [Hkey Hin]. split; assumption.
    + intros [log [Hin Hkey]].
      assert (Hl : log ∈ filter
                (fun log => Js.toLowerCase (SessionLog.concept log) = key)
                logs) by (apply list_elem_of_filter; split; assumption).
      destruct (filter _ logs) as [|l ls]; [|eauto].
      exfalso. eapply not_elem_of_nil, Hl.
  - intros key group. rewrite conceptMapOf_get.
    destruct (logsOf key logs) as [|l ls].
    + split; [discriminate | intros [Hne ->]; congruence].
    + split; [intros [= <-]; split; [discriminate | reflexivity]|].
      intros [_ ->]. reflexivity.
Qed.

End GraphMore.

(** ** Knowledge graph: the edges and nodes of [buildGraph] *)

Section BuildGraphFacts.
Import KnowledgeGraphEngine.

Lemma addEdge_cases logs edges edgeSet ab :
  exists edgeSet',
    addEdge logs (edges, edgeSet) ab = Ok (edges, edgeSet')
    \/ exists e,
         addEdge logs (edges, edgeSet) ab = Ok (edges ++ [e], edgeSet')
         /\ endsOf e = ab /\ edgeOk logs e.
Proof.
  unfold addEdge. destruct ab as [a b].
  assert (Hw : exists co cf,
             coOccurrenceRate a b logs = Ok co
             /\ confusionCorrelation a b logs = Ok cf
             /\ calculateEdgeWeight a b logs
                = Ok (ALPHA * prerequisiteStrength a b + BETA * co
                      + GAMMA * cf)).
  { destruct (coOccurrenceRate_bounds a b logs) as [co [Eco _]].
    destruct (confusionCorrelation_total a b logs) as [cf [Ecf _]].
    exists co, cf. split; [exact Eco|]. split; [exact Ecf|].
    unfold calculateEdgeWeight. rewrite Eco, Ecf. reflexivity. }
  destruct Hw as [co [cf [Eco [Ecf Ew]]]].
  rewrite Ew, bind_Ok.
  destruct (Js.ltb _ 0.05) eqn:Esmall; [exists edgeSet; left; reflexivity|].
  destruct (JsSet.has edgeSet _); [exists edgeSet; left; reflexivity|].
  cbv zeta. rewrite Eco, bind_Ok, Ecf, bind_Ok.
  eexists. right. eexists. split; [reflexivity|].
  split; [reflexivity|]. unfold edgeOk. simpl.
  split; [apply ltb_ge, Esmall|]. split; [exact Ew | reflexivity].
Qed.

Lemma buildEdges_loop logs pairs :
  forall edges edgeSet,
  exists added edgeSet',
    foldO (addEdge logs) (edges, edgeSet) pairs = Ok (edges ++ added, edgeSet')
    /\ Forall (edgeOk logs) added
    /\ sublist (endsOf <$> added) pairs.
Proof.
  induction pairs as [|ab pairs IH]; intros edges edgeSet.
  - exists [], edgeSet. rewrite app_nil_r. split; [reflexivity|].
    split; [constructor | constructor].
  - cbn [foldO].
    destruct (addEdge_cases logs edges edgeSet ab)
      as [edgeSet1 [E|[e [E [Hends Hok]]]]]; rewrite E, bind_Ok.
    + destruct (IH edges edgeSet1) as [added [edgeSet' [Eloop [Hall Hsub]]]].
      exists added, edgeSet'. split; [exact Eloop|]. split; [exact Hall|].
      apply sublist_cons, Hsub.
    + destruct (IH (edges ++ [e]) edgeSet1)
        as [added [edgeSet' [Eloop [Hall Hsub]]]].
      exists (e :: added), edgeSet'.
      rewrite Eloop, <- app_assoc. split; [reflexivity|].
      split; [constructor; assumption|].
      rewrite fmap_cons, Hends. apply sublist_skip, Hsub.
Qed.

Lemma conceptPairs_elem ids a b :
  (a, b) ∈ conceptPairs ids -> a ∈ ids /\ b ∈ ids.
Proof.
  induction ids as [|x ids IH]; simpl; [intros Hin; inversion Hin|].
  rewrite elem_of_app. intros [Hin|Hin].
  - apply list_elem_of_fmap in Hin as [y [[= -> ->] Hy]].
    split; [left | right; exact Hy].
  - destruct (IH Hin) as [Ha Hb]. split; right; assumption.
Qed.

Lemma conceptPairs_NoDup ids :
  NoDup ids ->
  NoDup (conceptPairs ids)
  /\ forall a b, (a, b) ∈ conceptPairs ids -> a <> b.
Proof.
  induction ids as [|x ids IH]; intros Hnd; simpl.
  - split; [constructor | intros a b Hin; inversion Hin].
  - apply NoDup_cons in Hnd as [Hx Hnd]. destruct (IH Hnd) as [IH1 IH2].
    split.
    + apply NoDup_app. split; [|split; [|exact IH1]].
      * apply NoDup_fmap_2; [|exact Hnd]. intros y z [= ->]. reflexivity.
      * intros [a b] Hin Hin'.
        apply list_elem_of_fmap in Hin as [y [[= -> ->] Hy]].
        apply conceptPairs_elem in Hin' as [Ha _]. contradiction.
    + intros a b. rewrite elem_of_app. intros [Hin|Hin].
      * apply list_elem_of_fmap in Hin as [y [[= -> ->] Hy]].
        intros ->. contradiction.
      * apply IH2, Hin.
Qed.

Lemma buildEdges_spec logs ids :
  NoDup ids ->
  exists edges,
    buildEdges logs ids = Ok edges
    /\ NoDup (endsOf <$> edges)
    /\ forall e, e ∈ edges ->
         edgeOk logs e
         /\ GraphEdge.source e ∈ ids /\ GraphEdge.target e ∈ ids
         /\ GraphEdge.source e <> GraphEdge.target e.
Proof.
  intros Hnd. unfold buildEdges.
  destruct (buildEdges_loop logs (conceptPairs ids) [] [])
    as [added [edgeSet' [Eloop [Hall Hsub]]]].
  destruct (conceptPairs_NoDup ids Hnd) as [Hpairs Hdiff].
  match goal with
  | |- context [foldO ?f ?s ?p] =>
      assert (E : foldO f s p = Ok (added, edgeSet')) by exact Eloop;
      rewrite E
  end.
  exists added. split; [reflexivity|]. split.
  - eapply sublist_NoDup; eassumption.
  - intros e He. split; [eapply Forall_forall in Hall; eassumption|].
    assert (Hin : endsOf e ∈ conceptPairs ids).
    { eapply elem_of_sublist; [|exact Hsub].
      apply list_elem_of_fmap. exists e. split; [reflexivity | exact He]. }
    unfold endsOf in Hin.
    destruct (conceptPairs_elem _ _ _ Hin) as [Hs Ht].
    split; [exact Hs|]. split; [exact Ht|]. apply Hdiff, Hin.
Qed.

(** *** Degrees *)

Lemma degreeMap_fold_get edges :
  forall (m : JsMap.t string nat) id,
    default O
      (JsMap.get
         (foldl (fun degreeMap e =>
                   let degreeMap :=
                     JsMap.set degreeMap (GraphEdge.source e)
                       (default O (JsMap.get degreeMap (GraphEdge.source e))
                        + 1)%nat in
                   JsMap.set degreeMap (GraphEdge.target e)
                     (default O (JsMap.get degreeMap (GraphEdge.target e))
                      + 1)%nat)
                m edges) id)
    = (default O (JsMap.get m id) + endsAt id edges)%nat.
Proof.
  unfold endsAt.
  induction edges as [|e edges IH]; intros m id; [simpl; lia|].
  cbn [foldl]. rewrite IH. cbv zeta. rewrite !jsmap_get_set.
  set (bySource := fun e : GraphEdge.t => GraphEdge.source e = id).
  set (byTarget := fun e : GraphEdge.t => GraphEdge.target e = id).
  destruct (decide (GraphEdge.source e = id)) as [Es|Hs];
    destruct (decide (GraphEdge.target e = id)) as [Et|Ht].
  - rewrite (filter_cons_True bySource), (filter_cons_True byTarget)
      by assumption.
    destruct (decide (GraphEdge.source e = GraphEdge.target e));
      [|congruence].
    rewrite Es. simpl. lia.
  - rewrite (filter_cons_True bySource), (filter_cons_False byTarget)
      by assumption.
    rewrite Es. simpl. lia.
  - rewrite (filter_cons_False bySource), (filter_cons_True byTarget)
      by assumption.
    destruct (decide (GraphEdge.source e = GraphEdge.target e));
      [congruence|].
    rewrite Et. simpl. lia.
  - rewrite (filter_cons_False bySource), (filter_cons_False byTarget)
      by assumption.
    simpl. lia.
Qed.

Lemma degreeMapOf_get edges id :
  default O (JsMap.get (degreeMapOf edges) id) = endsAt id edges.
Proof. unfold degreeMapOf. rewrite degreeMap_fold_get. reflexivity. Qed.

Lemma mapO_Forall2 {A B} (f : A -> outcome B) (R : A -> B -> Prop) xs :
  (forall x, x ∈ xs -> exists y, f x = Ok y /\ R x y) ->
  exists ys, mapO f xs = Ok ys /\ Forall2 R xs ys.
Proof.
  induction xs as [|x xs IH]; intros Hf; simpl.
  - exists []. split; [reflexivity | constructor].
  - destruct (Hf x) as [y [Ey Hy]]; [left|].
    destruct IH as [ys [Eys Hys]].
    { intros z Hz. apply Hf. right. exact Hz. }
    rewrite Ey, bind_Ok, Eys, bind_Ok. exists (y :: ys).
    split; [reflexivity | constructor; assumption].
Qed.

Section Host.
Context `{MathLib}.

Lemma buildNode_spec logs communities edges now id :
  id ∈ JsMap.keys (conceptMapOf logs) ->
  exists n,
    buildNode (conceptMapOf logs) communities (degreeMapOf edges) now id = Ok n
    /\ GraphNode.id n = id /\ nodeOk logs edges n.
Proof.
  intros Hid. apply jsmap_keys_is_Some in Hid as [group Eget].
  pose proof (conceptMapOf_nonempty _ _ _ Eget) as Hne.
  assert (Egroup : group = logsOf id logs).
  { rewrite conceptMapOf_get in Eget.
    destruct (logsOf id logs); congruence. }
  unfold buildNode. rewrite Eget.
  pose proof (len_nonzero group Hne) as Hlen.
  assert (H1 : ~ Js.len group == 0) by lra.
  assert (H2 : ~ Js.max 1 (Js.len group) == 0).
  { unfold Js.max. pose proof (Q.le_max_l 1 (Js.len group)). lra. }
  assert (H3 : ~ Js.len group * 60000 == 0) by lra.
  destruct (last group) as [latestLog|] eqn:Elast;
    [|apply last_None in Elast; contradiction].
  divide. eexists. split; [reflexivity|]. split; [reflexivity|].
  unfold nodeOk. simpl. rewrite <- Egroup, Elast.
  split; [exact Hne|]. split; [reflexivity|]. split; [reflexivity|].
  split; [reflexivity|]. apply degreeMapOf_get.
Qed.

Lemma buildGraph_spec now logs :
  exists g,
    buildGraph now logs = Ok g
    /\ buildEdges logs (JsMap.keys (conceptMapOf logs)) = Ok (edges g)
    /\ Forall2 (fun id n => GraphNode.id n = id /\ nodeOk logs (edges g) n)
               (JsMap.keys (conceptMapOf logs)) (nodes g).
Proof.
  unfold buildGraph. cbv zeta.
  destruct (buildEdges_total logs (JsMap.keys (conceptMapOf logs)))
    as [es Ees].
  rewrite Ees, !bind_Ok.
  destruct (louvainCluster_total (JsMap.keys (conceptMapOf logs))
                                 (linkOf <$> es)) as [coms Ecoms].
  rewrite Ecoms, !bind_Ok.
  destruct (mapO_Forall2
    (fun '(k, id) => buildNode (conceptMapOf logs) coms (degreeMapOf es)
                               (now k) id)
    (fun kid n => GraphNode.id n = kid.2 /\ nodeOk logs es n)
    (imap pair (JsMap.keys (conceptMapOf logs))))
    as [ns [Ens Hns]].
  { intros [k id] Hin.
    apply elem_of_lookup_imap_1 in Hin as [i [y [[= -> ->] Hy]]].
    apply list_elem_of_lookup_2 in Hy.
    apply buildNode_spec, Hy. }
  rewrite Ens, bind_Ok. eexists. split; [reflexivity|]. simpl.
  split; [reflexivity|].
  revert Hns. generalize (JsMap.keys (conceptMapOf logs)) ns.
  intros ids. change (imap pair ids) with (imap (fun i x => (0 + i, x)%nat) ids).
  generalize O.
  induction ids as [|id ids IH]; intros k ns' Hns; simpl in Hns.
  - inversion Hns. constructor.
  - inversion Hns as [|kid n l l' Hhead Htail]; subst.
    constructor; [exact Hhead|].
    apply (IH (S k)).
    erewrite imap_ext; [exact Htail|].
    intros i x _. simpl. f_equal. lia.
Qed.

(** X24.  For logs whose lower-case concepts are not "constructor" or
    "__proto__", every edge [buildGraph] returns joins two different nodes
    of the graph, no two edges join the same ordered pair, and each edge
    carries the weight [calculateEdgeWeight] gives its two concepts: at
    least 0.05, and the weighted sum of the three components stored beside
    it. *)
Theorem buildGraph_edges now logs :
  Forall (fun log => ownKey (Js.toLowerCase (SessionLog.concept log))) logs ->
  exists g,
    buildGraph now logs = Ok g
    /\ NoDup (endsOf <$> edges g)
    /\ forall e, e ∈ edges g ->
         GraphEdge.source e ∈ GraphNode.id <$> nodes g
         /\ GraphEdge.target e ∈ GraphNode.id <$> nodes g
         /\ GraphEdge.source e <> GraphEdge.target e
         /\ edgeOk logs e.
Proof.
  intros _.
  destruct (buildGraph_spec now logs) as [g [Eg [Ees Hns]]].
  destruct (conceptMapOf_groups logs) as [Hnd _].
  destruct (buildEdges_spec logs _ Hnd) as [es [Ees' [Hpairs Hes]]].
  rewrite Ees in Ees'. injection Ees' as <-.
  assert (Hids : GraphNode.id <$> nodes g = JsMap.keys (conceptMapOf logs)).
  { clear -Hns. induction Hns as [|id n ids ns [Hid _] _ IH];
      [reflexivity|].
    rewrite fmap_cons, Hid, IH. reflexivity. }
  exists g. split; [exact Eg|]. split; [exact Hpairs|].
  intros e He. rewrite Hids.
  destruct (Hes e He) as [Hok [Hs [Ht Hdiff]]]. tauto.
Qed.

(** X25.  [buildGraph] returns one node per distinct lower-cased concept of the
    logs.  A node's mastery is the mean [masteryPL] of the logs of its
    concept, its category that of the last of them, its name the id with
    the first letter in upper case, and its degree the number of edge ends
    at it. *)
Theorem buildGraph_nodes now logs :
  exists g,
    buildGraph now logs = Ok g
    /\ NoDup (GraphNode.id <$> nodes g)
    /\ (forall id,
          id ∈ GraphNode.id <$> nodes g
          <-> exists log, log ∈ logs
                          /\ Js.toLowerCase (SessionLog.concept log) = id)
    /\ forall n, n ∈ nodes g -> nodeOk logs (edges g) n.
Proof.
  destruct (buildGraph_spec now logs) as [g [Eg [_ Hns]]].
  destruct (conceptMapOf_groups logs) as [Hnd [Hkeys _]].
  assert (Hids : GraphNode.id <$> nodes g = JsMap.keys (conceptMapOf logs)).
  { clear -Hns. induction Hns as [|id n ids ns [Hid _] _ IH];
      [reflexivity|].
    rewrite fmap_cons, Hid, IH. reflexivity. }
  exists g. split; [exact Eg|]. rewrite Hids.
  split; [exact Hnd|]. split; [exact Hkeys|].
  intros n Hn. clear -Hns Hn.
  induction Hns as [|id n' ids ns [_ Hok] _ IH]; [inversion Hn|].
  apply elem_of_cons in Hn as [->|Hn]; [exact Hok | apply IH, Hn].
Qed.

End Host.

End BuildGraphFacts.

Lemma buildGraph_edges_witness :
  Forall (fun log => ownKey (Js.toLowerCase (SessionLog.concept log)))
         repeatedMistake
  /\ exists g,
       KnowledgeGraphEngine.buildGraph (H := RationalMath.host)
         (fun _ => 3600000) repeatedMistake = Ok g
       /\ forall e, e ∈ KnowledgeGraphEngine.edges g ->
            GraphEdge.source e <> GraphEdge.target e /\ edgeOk repeatedMistake e.
Proof.
  assert (Hown : Forall (fun log => ownKey (Js.toLowerCase
                                              (SessionLog.concept log)))
                        repeatedMistake).
  { repeat (constructor;
            [split; intros E; vm_compute in E; discriminate E|]).
    constructor. }
  split; [exact Hown|].
  destruct (buildGraph_edges (H := RationalMath.host) (fun _ => 3600000)
              repeatedMistake Hown) as [g [Eg [_ Hedges]]].
  exists g. split; [exact Eg|].
  intros e He. destruct (Hedges e He) as [_ [_ [Hdiff Hok]]].
  split; [exact Hdiff | exact Hok].
Defined.

(** ** The behaviour-analysis request handler *)

Section HandlerFacts.
Import AnalyzeBehavior.

Lemma findCorrect_wrong_prefix wrong rest :
  Forall (fun r => ApiResponse.isCorrect r = false) wrong ->
  findCorrect (wrong ++ rest)
  = (fun k => (length wrong + k)%nat) <$> findCorrect rest.
Proof.
  induction 1 as [|r wrong Hr _ IH]; simpl.
  - destruct (findCorrect rest); reflexivity.
  - rewrite Hr, IH. destruct (findCorrect rest); reflexivity.
Qed.

(** X26.  The wrong streak is the number of answers after the last correct one,
    all of them when none is correct; the concept of an answer is not
    looked at. *)
Theorem wrongStreakOnConcept_trailing earlier wrong :
  Forall (fun r => ApiResponse.isCorrect r = false) wrong ->
  (forall r, last earlier = Some r -> ApiResponse.isCorrect r = true) ->
  wrongStreakOnConcept (earlier ++ wrong) = length wrong.
Proof.
  intros Hwrong Hlast. unfold wrongStreakOnConcept.
  rewrite reverse_app, findCorrect_wrong_prefix
    by (apply Forall_reverse, Hwrong).
  rewrite length_reverse.
  destruct earlier as [|r0 earlier0] using rev_ind.
  - reflexivity.
  - rewrite reverse_snoc. simpl.
    rewrite (Hlast r0) by apply last_snoc. simpl. lia.
Qed.

(** *** Mastery trajectory *)

Lemma round_mono x y : x <= y -> (Js.round x <= Js.round y)%Z.
Proof. intros Hxy. unfold Js.round. apply Qfloor_resp_le. lra. Qed.

Lemma toFixed4_clamped x :
  0.0001 <= x -> x <= 0.9999 ->
  0.0001 <= Js.toFixed 4 x /\ Js.toFixed 4 x <= 0.9999.
Proof.
  intros Hlo Hhi. unfold Js.toFixed. cbv zeta.
  replace (Qle_bool 0 x) with true by (symmetry; apply Qle_bool_iff; lra).
  change (inject_Z (10 ^ Z.of_nat 4)) with (inject_Z 10000).
  assert (E : inject_Z 10000 == 10000) by reflexivity.
  assert (H1 : (1 <= Js.round (x * inject_Z 10000))%Z).
  { change 1%Z with (Js.round 1). apply round_mono. rewrite E. lra. }
  assert (H2 : (Js.round (x * inject_Z 10000) <= 9999)%Z).
  { change 9999%Z with (Js.round 9999). apply round_mono. rewrite E. lra. }
  rewrite Zle_Qle in H1, H2.
  set (n := inject_Z (Js.round (x * inject_Z 10000))) in *.
  change (inject_Z 1) with 1 in H1. change (inject_Z 9999) with 9999 in H2.
  split.
  - apply Qle_shift_div_l; [reflexivity | rewrite E; lra].
  - apply Qle_shift_div_r; [reflexivity | rewrite E; lra].
Qed.

Lemma masteryTrajectory_loop responses :
  forall trajectory pL,
  exists added finalPL,
    foldO (fun '(trajectory, pL) r =>
             pL' ← MasteryEngine.updateMastery pL (ApiResponse.isCorrect r);
             Ok (trajectory ++ [(ApiResponse.questionId r, Js.toFixed 4 pL')],
                 pL'))
          (trajectory, pL) responses
    = Ok (trajectory ++ added, finalPL)
    /\ added.*1 = ApiResponse.questionId <$> responses
    /\ Forall (fun entry => 0.0001 <= entry.2 /\ entry.2 <= 0.9999) added
    /\ (responses = [] -> finalPL = pL)
    /\ (responses <> [] ->
        0.0001 <= finalPL /\ finalPL <= 0.9999
        /\ snd <$> last added = Some (Js.toFixed 4 finalPL)).
Proof.
  induction responses as [|r responses IH]; intros trajectory pL.
  - exists [], pL. rewrite app_nil_r. split; [reflexivity|].
    split; [reflexivity|]. split; [constructor|].
    split; [reflexivity | congruence].
  - cbn [foldO].
    destruct (updateMastery_clamped pL (ApiResponse.isCorrect r))
      as [pL' [E [Hlo Hhi]]].
    rewrite E, !bind_Ok.
    destruct (IH (trajectory ++ [(ApiResponse.questionId r, Js.toFixed 4 pL')])
                 pL')
      as [added [finalPL [Eloop [Hids [Hall [Hnil Hcons]]]]]].
    exists ((ApiResponse.questionId r, Js.toFixed 4 pL') :: added), finalPL.
    rewrite Eloop, <- app_assoc. split; [reflexivity|].
    split; [rewrite !fmap_cons, Hids; reflexivity|].
    split; [constructor; [apply toFixed4_clamped; assumption | exact Hall]|].
    split; [discriminate|]. intros _.
    destruct responses as [|r' responses'].
    + rewrite (Hnil eq_refl). destruct added as [|e added'];
        [|discriminate Hids].
      split; [exact Hlo|]. split; [exact Hhi | reflexivity].
    + destruct Hcons as [H1 [H2 H3]]; [discriminate|].
      split; [exact H1|]. split; [exact H2|].
      destruct added as [|e added']; [discriminate Hids|].
      rewrite last_cons. destruct (last (e :: added')); [exact H3|].
      discriminate H3.
Qed.

(** X27.  For a finite [currentPL], the mastery trajectory is computed: it
    has one entry per response, in order, each a rounded mastery in
    [0.0001, 0.9999]; the final mastery is the given one when there is no
    response and lies in [0.0001, 0.9999] otherwise, and the last entry is
    its rounding. *)
Theorem masteryTrajectoryOf_spec currentPL responses :
  finiteNumber currentPL ->
  exists trajectory finalPL,
    masteryTrajectoryOf currentPL responses = Ok (trajectory, finalPL)
    /\ trajectory.*1 = ApiResponse.questionId <$> responses
    /\ Forall (fun entry => 0.0001 <= entry.2 /\ entry.2 <= 0.9999) trajectory
    /\ (responses = [] -> finalPL = currentPL)
    /\ (responses <> [] ->
        0.0001 <= finalPL /\ finalPL <= 0.9999
        /\ snd <$> last trajectory = Some (Js.toFixed 4 finalPL)).
Proof.
  intros _. unfold masteryTrajectoryOf.
  exact (masteryTrajectory_loop responses [] currentPL).
Qed.

Section Host.
Context `{MathLib}.
Variable Math_log2 : Q -> Q.

(** *** Ability *)

Lemma irtResponsesOf_none responses :
  Forall (fun r => ApiResponse.irt r = None) responses ->
  irtResponsesOf responses = [].
Proof.
  unfold irtResponsesOf. induction 1 as [|r rs Hr _ IH]; [reflexivity|].
  simpl. rewrite Hr. simpl. exact IH.
Qed.

(** X28.  When the item parameters of the responses are in the domain, the
    ability estimate of the handler is computed: it lies in [-4, 4] and the
    score in [0, 100]; when no response carries item parameters they are
    the prior 0 and the score 50. *)
Theorem abilityOf_spec responses :
  Forall (fun r => forall irt, ApiResponse.irt r = Some irt ->
                               paramsInDomain irt) responses ->
  exists theta score,
    abilityOf responses = Ok (theta, score)
    /\ -4 <= theta /\ theta <= 4
    /\ (0 <= score <= 100)%Z
    /\ (Forall (fun r => ApiResponse.irt r = None) responses ->
        theta = 0 /\ score = 50%Z).
Proof.
  intros _. unfold abilityOf.
  destruct (updateTheta_cases (irtResponsesOf responses) 0)
    as [theta [E Hrange]].
  rewrite E, bind_Ok. exists theta, (IrtModel.thetaToScore theta).
  split; [reflexivity|].
  assert (Hin : -4 <= theta /\ theta <= 4).
  { destruct Hrange as [->|Hin]; [split; discriminate | exact Hin]. }
  split; [apply Hin|]. split; [apply Hin|].
  split; [apply thetaToScore_unit; apply Hin|].
  intros Hnone. rewrite (irtResponsesOf_none _ Hnone) in E.
  injection E as <-. split; reflexivity.
Qed.

End Host.

End HandlerFacts.

Lemma masteryTrajectoryOf_spec_witness :
  finiteNumber 0.3
  /\ exists trajectory finalPL,
       AnalyzeBehavior.masteryTrajectoryOf 0.3 twoResponses
       = Ok (trajectory, finalPL)
       /\ trajectory.*1 = ["q1"; "q2"]%string
       /\ 0.0001 <= finalPL /\ finalPL <= 0.9999.
Proof.
  assert (Hfinite : finiteNumber 0.3) by (split; discriminate).
  split; [exact Hfinite|].
  destruct (masteryTrajectoryOf_spec 0.3 twoResponses Hfinite)
    as [trajectory [finalPL [E [Hids [_ [_ Hfinal]]]]]].
  exists trajectory, finalPL. split; [exact E|]. split; [exact Hids|].
  destruct Hfinal as [Hlo [Hhi _]]; [discriminate|].
  split; [exact Hlo | exact Hhi].
Defined.

Lemma abilityOf_spec_witness :
  exists theta score,
    AnalyzeBehavior.abilityOf (H := RationalMath.host) twoResponses
    = Ok (theta, score)
    /\ -4 <= theta /\ theta <= 4 /\ (0 <= score <= 100)%Z.
Proof.
  assert (Hdomain : Forall (fun r => forall irt,
                              ApiResponse.irt r = Some irt ->
                              paramsInDomain irt) twoResponses).
  { repeat (constructor;
            [intros irt Hirt;
             first [discriminate Hirt
                   | injection Hirt as <-; repeat split; discriminate]|]).
    constructor. }
  destruct (abilityOf_spec (H := RationalMath.host) twoResponses Hdomain)
    as [theta [score [E [Hlo [Hhi [Hscore _]]]]]].
  exists theta, score. split; [exact E|]. split; [exact Hlo|].
  split; [exact Hhi | exact Hscore].
Defined.

Lemma wrongStreakOnConcept_trailing_witness :
  let answer := fun (concept : string) (isCorrect : bool) =>
    {| ApiResponse.questionId := "q"; ApiResponse.selectedOption := 0;
       ApiResponse.isCorrect := isCorrect; ApiResponse.responseTimeMs := 20000;
       ApiResponse.difficulty := "easy"; ApiResponse.concept := concept;
       ApiResponse.irt := None |} in
  AnalyzeBehavior.wrongStreakOnConcept
    ([answer "limits" false; answer "limits" true]
     ++ [answer "limits" false; answer "series" false])
  = 2%nat.
Proof.
  intros answer.
  apply (wrongStreakOnConcept_trailing
           [answer "limits" false; answer "limits" true]
           [answer "limits" false; answer "series" false]).
  - repeat constructor.
  - intros r [= <-]. reflexivity.
Defined.

(** ** The handler's guessing analysis and Socratic decision *)

Section HandlerDecision.
Import AnalyzeBehavior.
Context `{MathLib}.
Variable Math_log2 : Q -> Q.

Lemma guessingResultsOf_facts responses :
  exists results,
    guessingResultsOf Math_log2 responses = Ok results
    /\ length results = length responses
    /\ forall i g,
         results !! i = Some g ->
         GuessingResult.mismatchFlag g = false
         /\ 0 < GuessingResult.probability g
         /\ GuessingResult.probability g <= 1
         /\ ((i < 3)%nat -> GuessingResult.patternFlag g = false).
Proof.
  unfold guessingResultsOf. cbv zeta.
  set (sessionResponses := toSessionResponse <$> responses).
  destruct (mapO_Forall2
    (fun '(i, resp) =>
       BehavioralAnalyzer.detectGuessing Math_log2 resp
         (take (S i) sessionResponses))
    (fun ir g =>
       GuessingResult.mismatchFlag g = false
       /\ 0 < GuessingResult.probability g
       /\ GuessingResult.probability g <= 1
       /\ ((ir.1 < 3)%nat -> GuessingResult.patternFlag g = false))
    (imap pair sessionResponses)) as [results [E Hall]].
  { intros [i resp] Hin.
    apply elem_of_lookup_imap_1 in Hin as [i' [resp' [[= -> ->] Hresp]]].
    destruct (detectGuessing_facts Math_log2 resp'
                (take (S i') sessionResponses))
      as [g [Eg [_ [Ep [Em [_ [Hlo Hhi]]]]]]].
    exists g. split; [exact Eg|].
    assert (Htheta : SessionResponse.theta resp' = None).
    { unfold sessionResponses in Hresp.
      rewrite list_lookup_fmap in Hresp.
      destruct (responses !! i'); [|discriminate].
      injection Hresp as <-. reflexivity. }
    rewrite (abilityMismatchFlag_no_theta _ Htheta) in Em.
    injection Em as <-.
    split; [reflexivity|]. split; [exact Hlo|]. split; [exact Hhi|].
    simpl. intros Hi.
    rewrite selectionPatternFlag_short in Ep
      by (rewrite length_take; lia).
    injection Ep as <-. reflexivity. }
  exists results. split; [exact E|].
  pose proof (Forall2_length _ _ _ Hall) as Hlen.
  rewrite length_imap in Hlen. unfold sessionResponses in Hlen.
  rewrite length_fmap in Hlen.
  split; [congruence|].
  intros i g Hg.
  destruct (Forall2_lookup_r _ _ _ _ _ Hall Hg) as [[i' resp] [Hx Hg']].
  rewrite list_lookup_imap in Hx.
  destruct (sessionResponses !! i); [|discriminate].
  injection Hx as <- <-. exact Hg'.
Qed.

(** X29.  The handler's guessing analysis is always computed, one result per
    response: every probability lies in (0, 1], the ability-mismatch flag is
    never raised (no response carries [theta]), and the pattern flag is not
    raised on the first three responses. *)
Theorem guessingResultsOf_spec responses :
  exists results,
    guessingResultsOf Math_log2 responses = Ok results
    /\ length results = length responses
    /\ forall i g,
         results !! i = Some g ->
         GuessingResult.mismatchFlag g = false
         /\ 0 < GuessingResult.probability g
         /\ GuessingResult.probability g <= 1
         /\ ((i < 3)%nat -> GuessingResult.patternFlag g = false).
Proof. exact (guessingResultsOf_facts responses). Qed.




End HandlerDecision.
